(** * Skill Manager: metadata extractor, remote tree cache, bundle discovery
      and installer, embedded from the TypeScript sources.

    Layout.  [Js] holds the string primitives of JavaScript the sources
    use; [SkillParser], [GitHubService] and [SkillInstaller] follow the
    services of the same names; [Models] has the records of the data model
    and [Fs] the part of the local file system the installer touches.
    [Reading] and [Examples] give the declarative notions and the concrete
    inputs of the statements; the properties come last.

    Strings.  A JavaScript string is a sequence of UTF-16 code units; the
    embedding uses Rocq's [string], reading every [ascii] as one code unit
    below 256 (the ISO-8859-1 range).  The character classes of the source
    ([\s], [\w], [trim], [toLowerCase]) are written out for that range.

    Effects.  The cache is a state passed through [fetchWithCache],
    together with the clock and the requests sent.  The installer runs in a
    state and exception monad over the file system and a log of its calls;
    paths are normalised absolute POSIX paths. *)

From Stdlib Require Import ZArith Ascii String List Bool Lia.
From stdpp Require Import base option list strings gmap fin_maps.

Local Open Scope string_scope.

(** ** JavaScript string primitives used by the sources *)

Module Js.

Definition LF : ascii := "010"%char.

Definition code (c : ascii) : N := N_of_ascii c.

(** [\s] of a regular expression and the characters removed by [trim]:
    TAB, LF, VT, FF, CR, SPACE and NBSP. *)
Definition isWhite (c : ascii) : bool :=
  let n := code c in
  ((9 <=? n) && (n <=? 13) || (n =? 32) || (n =? 160))%N.

Definition isDigit (c : ascii) : bool :=
  let n := code c in ((48 <=? n) && (n <=? 57))%N.

Definition isAsciiLetter (c : ascii) : bool :=
  let n := code c in
  ((65 <=? n) && (n <=? 90) || (97 <=? n) && (n <=? 122))%N.

(** [\w] is [A-Za-z0-9_]. *)
Definition isWord (c : ascii) : bool :=
  isAsciiLetter c || isDigit c || (code c =? 95)%N.

(** [toLowerCase] on one code unit: A-Z, and the Latin-1 capitals
    U+00C0..U+00DE except the multiplication sign U+00D7. *)
Definition lowerChar (c : ascii) : ascii :=
  let n := code c in
  if ((65 <=? n) && (n <=? 90))%N then ascii_of_N (n + 32)
  else if ((192 <=? n) && (n <=? 222) && negb (n =? 215))%N
       then ascii_of_N (n + 32)
  else c.

Fixpoint toLowerCase (s : string) : string :=
  match s with
  | EmptyString => EmptyString
  | String c r => String (lowerChar c) (toLowerCase r)
  end.

Definition isEmpty (s : string) : bool :=
  match s with EmptyString => true | _ => false end.

(** A non-empty string is truthy. *)
Definition truthy (s : string) : bool := negb (isEmpty s).

Fixpoint startsWith (p s : string) : bool :=
  match p, s with
  | EmptyString, _ => true
  | String a p', String b s' => if Ascii.eqb a b then startsWith p' s' else false
  | String _ _, EmptyString => false
  end.

Fixpoint includes (p s : string) : bool :=
  startsWith p s ||
  match s with
  | EmptyString => false
  | String _ r => includes p r
  end.

(** [s.slice(n)] for [0 <= n]. *)
Fixpoint sliceFrom (n : nat) (s : string) : string :=
  match n, s with
  | O, _ => s
  | S n', String _ r => sliceFrom n' r
  | S _, EmptyString => EmptyString
  end.

(** [s.slice(0, n)]. *)
Fixpoint sliceTo (n : nat) (s : string) : string :=
  match n, s with
  | S n', String c r => String c (sliceTo n' r)
  | _, _ => EmptyString
  end.

(** [s.indexOf(c)] for a one-character needle; [None] stands for [-1]. *)
Fixpoint indexOf (c : ascii) (s : string) : option nat :=
  match s with
  | EmptyString => None
  | String a r => if Ascii.eqb a c then Some O else S <$> indexOf c r
  end.

Fixpoint trimStart (s : string) : string :=
  match s with
  | String c r => if isWhite c then trimStart r else s
  | EmptyString => EmptyString
  end.

Fixpoint trimEnd (s : string) : string :=
  match s with
  | EmptyString => EmptyString
  | String c r =>
      let r' := trimEnd r in
      if isWhite c && isEmpty r' then EmptyString else String c r'
  end.

Definition trim (s : string) : string := trimEnd (trimStart s).

(** [s.split(sep)] for a one-character separator: never the empty list. *)
Fixpoint split (sep : ascii) (s : string) : list string :=
  match s with
  | EmptyString => [EmptyString]
  | String c r =>
      if Ascii.eqb c sep then EmptyString :: split sep r
      else match split sep r with
           | h :: t => String c h :: t
           | [] => [String c EmptyString]
           end
  end.

(** [s.split('\n')]. *)
Definition splitLines (s : string) : list string := split LF s.

(** [xs.join(sep)]. *)
Fixpoint join (sep : string) (xs : list string) : string :=
  match xs with
  | [] => EmptyString
  | [x] => x
  | x :: rest => x +:+ sep +:+ join sep rest
  end.

(** [s.replace(/\s+/g, '-')]: every maximal run of white space becomes
    one hyphen. *)
Fixpoint replaceWhiteRunsFrom (inRun : bool) (s : string) : string :=
  match s with
  | EmptyString => EmptyString
  | String c r =>
      if isWhite c
      then (if inRun then replaceWhiteRunsFrom true r
            else String "-" (replaceWhiteRunsFrom true r))
      else String c (replaceWhiteRunsFrom false r)
  end.

Definition replaceWhiteRuns (s : string) : string :=
  replaceWhiteRunsFrom false s.

End Js.

(** ** Metadata extractor (services/skillParser.ts) *)

Module SkillParser.
Import Js.

(** What [parseSimpleYaml] stores under a key: a scalar or a list.  The
    TypeScript casts ([yaml.name as string]) are erased at run time, so a
    field declared [string] can hold an array. *)
Inductive YamlValue : Type :=
  | YStr (s : string)
  | YArr (items : list string).

(** Truthiness of a possibly [undefined] value: arrays are always truthy,
    also the empty one. *)
Definition truthyValue (v : option YamlValue) : bool :=
  match v with
  | None => false
  | Some (YStr s) => truthy s
  | Some (YArr _) => true
  end.

(** [v || d]. *)
Definition orDefault (v : option YamlValue) (d : YamlValue) : YamlValue :=
  match v with
  | Some x => if truthyValue v then x else d
  | None => d
  end.

(** Coercion to string, as [RegExp.prototype.test] applies to its argument. *)
Definition toString (v : YamlValue) : string :=
  match v with
  | YStr s => s
  | YArr items => join "," items
  end.

(** All ways [\s*\n] can match at the start of [r], as the remainders after
    the match, in the order a backtracking matcher tries them: the greedy
    [\s*] gives back one character at a time. *)
Fixpoint whiteThenNewline (r : string) : list string :=
  match r with
  | EmptyString => []
  | String c r' =>
      if isWhite c
      then (whiteThenNewline r' ++ (if Ascii.eqb c LF then [r'] else []))%list
      else []
  end.

Definition closingFence : string := String LF "---".

(** The closing delimiter at the start of [r]: a newline, three hyphens,
    [\s*\n], and the rest of the input as the second capture group. *)
Definition matchClosing (r : string) : option string :=
  if startsWith closingFence r
  then head (whiteThenNewline (sliceFrom 4 r))
  else None.

(** The lazy first capture group followed by the closing delimiter, at the
    start of [r]: the group grows one character at a time until the rest
    matches. *)
Fixpoint matchBody (r : string) : option (string * string) :=
  match matchClosing r with
  | Some body => Some (EmptyString, body)
  | None =>
      match r with
      | EmptyString => None
      | String c r' =>
          match matchBody r' with
          | Some (fm, body) => Some (String c fm, body)
          | None => None
          end
      end
  end.

Fixpoint firstMatch (candidates : list string) : option (string * string) :=
  match candidates with
  | [] => None
  | r :: rest =>
      match matchBody r with
      | Some m => Some m
      | None => firstMatch rest
      end
  end.

(** [content.match(frontmatterRegex)], giving [(frontmatter, body)].  The
    expression is: start of input, three hyphens, [\s*\n], a lazy group of
    any characters, the closing delimiter, a greedy group of any characters,
    end of input. *)
Definition extractFrontmatter (content : string) : option (string * string) :=
  if startsWith "---" content
  then firstMatch (whiteThenNewline (sliceFrom 3 content))
  else None.

Definition isQuote (c : ascii) : bool :=
  Ascii.eqb c "034"%char || Ascii.eqb c "'"%char.

Fixpoint dropFinalQuote (s : string) : string :=
  match s with
  | EmptyString => EmptyString
  | String c EmptyString => if isQuote c then EmptyString else s
  | String c r => String c (dropFinalQuote r)
  end.

(** The quote removal of [parseSimpleYaml]: one quote character (double
    or single) at the start of the value and one at its end are deleted. *)
Definition stripQuotes (s : string) : string :=
  dropFinalQuote
    match s with
    | String c r => if isQuote c then r else s
    | EmptyString => EmptyString
    end.

(** The loop state of [parseSimpleYaml]. *)
Record YamlState : Type := {
  result : gmap string YamlValue;
  currentKey : string;
  currentArray : option (list string)
}.

(** [result[key] = value]: the key [__proto__] is the accessor every
    object inherits, so the assignment makes no property of the object (an
    array becomes its prototype, a string is ignored); none of the names
    read from the result is found through an array prototype. *)
Definition setProperty (key : string) (value : YamlValue)
    (result : gmap string YamlValue) : gmap string YamlValue :=
  if String.eqb key "__proto__" then result else <[key := value]> result.

Definition yamlLine (st : YamlState) (line : string) : YamlState :=
  let trimmed := trim line in
  if isEmpty trimmed || startsWith "#" trimmed then st
  else if startsWith "- " trimmed then
    match currentArray st with
    | Some arr =>
        {| result := result st; currentKey := currentKey st;
           currentArray := Some (arr ++ [trim (sliceFrom 2 trimmed)])%list |}
    | None => st
    end
  else
    match indexOf ":"%char trimmed with
    | Some (S k) =>
        let colonIndex := S k in
        let saved :=
          match currentArray st with
          | Some arr =>
              if truthy (currentKey st)
              then (setProperty (currentKey st) (YArr arr) (result st), None)
              else (result st, Some arr)
          | None => (result st, None)
          end in
        let key := trim (sliceTo colonIndex trimmed) in
        let value := trim (sliceFrom (S colonIndex) trimmed) in
        if isEmpty value
        then {| result := saved.1; currentKey := key; currentArray := Some [] |}
        else {| result := setProperty key (YStr (stripQuotes value)) saved.1;
                currentKey := key; currentArray := saved.2 |}
    | _ => st
    end.

Definition parseSimpleYaml (yaml : string) : gmap string YamlValue :=
  let st := fold_left yamlLine (splitLines yaml)
              {| result := ∅; currentKey := EmptyString; currentArray := None |} in
  match currentArray st with
  | Some arr =>
      if truthy (currentKey st)
      then setProperty (currentKey st) (YArr arr) (result st)
      else result st
  | None => result st
  end.

(** The loop of [extractDescription]; [acc] is [descriptionLines]. *)
Fixpoint collectDescription (acc : list string) (lines : list string)
  : list string :=
  match lines with
  | [] => acc
  | line :: rest =>
      let trimmed := trim line in
      if startsWith "#" trimmed then collectDescription acc rest
      else if isEmpty trimmed || startsWith "```" trimmed then
        (if (0 <? length acc)%nat then acc else collectDescription acc rest)
      else
        let acc' := (acc ++ [trimmed])%list in
        if (3 <=? length acc')%nat then acc' else collectDescription acc' rest
  end.

Definition extractDescription (body : string) : string :=
  sliceTo 300 (join " " (collectDescription [] (splitLines (trim body)))).

(** [SkillMetadata]; an absent optional field is [None]. *)
Record SkillMetadata : Type := {
  md_name : option YamlValue;
  md_description : option YamlValue;
  md_category : option YamlValue;
  md_tags : option YamlValue;
  md_author : option YamlValue;
  md_version : option YamlValue;
  md_triggers : option YamlValue;
  md_dependencies : option YamlValue
}.

Definition unknownSkill : string := "Unknown Skill".

Definition parseSkillMd (content : string) : SkillMetadata :=
  match extractFrontmatter content with
  | None =>
      {| md_name := Some (YStr unknownSkill);
         md_description := Some (YStr (extractDescription content));
         md_category := None; md_tags := None; md_author := None;
         md_version := None; md_triggers := None; md_dependencies := None |}
  | Some (frontmatter, body) =>
      let yaml := parseSimpleYaml frontmatter in
      let description :=
        orDefault (yaml !! "description") (YStr (extractDescription body)) in
      {| md_name := Some (orDefault (yaml !! "name") (YStr unknownSkill));
         md_description := Some description;
         md_category := yaml !! "category";
         md_tags := yaml !! "tags";
         md_author := yaml !! "author";
         md_version := yaml !! "version";
         md_triggers := yaml !! "triggers";
         md_dependencies := yaml !! "dependencies" |}
  end.

Record ValidationResult : Type := {
  isValid : bool;
  errors : list string;
  warnings : list string
}.

Fixpoint allChars (p : ascii -> bool) (s : string) : bool :=
  match s with
  | EmptyString => true
  | String c r => p c && allChars p r
  end.

(** [/^[\w\s-]+$/.test(s)]. *)
Definition nameFormatOk (s : string) : bool :=
  truthy s && allChars (fun c => isWord c || isWhite c || Ascii.eqb c "-"%char) s.

Definition isUnknownSkill (v : option YamlValue) : bool :=
  match v with
  | Some (YStr s) => String.eqb s unknownSkill
  | _ => false
  end.

Definition nameRequired : string :=
  "Skill name is required in SKILL.md frontmatter".
Definition descriptionRecommended : string :=
  "Skill description is recommended".
Definition nameFormatWarning : string :=
  "Skill name should only contain letters, numbers, spaces, and hyphens".

Definition validateSkill (metadata : SkillMetadata) : ValidationResult :=
  let errors :=
    if negb (truthyValue (md_name metadata)) || isUnknownSkill (md_name metadata)
    then [nameRequired] else [] in
  let warnings1 :=
    if negb (truthyValue (md_description metadata))
    then [descriptionRecommended] else [] in
  let warnings2 :=
    match md_name metadata with
    | Some v =>
        if truthyValue (Some v) && negb (nameFormatOk (toString v))
        then [nameFormatWarning] else []
    | None => []
    end in
  {| isValid := (length errors =? 0)%nat;
     errors := errors;
     warnings := (warnings1 ++ warnings2)%list |}.

(** [categoryPatterns], in the insertion order [Object.entries] follows. *)
Definition categoryPatterns : list (string * list string) :=
  [ ("security", ["security"; "audit"; "vulnerability"; "owasp"; "penetration"]);
    ("engineering", ["code"; "develop"; "engineer"; "debug"; "refactor"]);
    ("testing", ["test"; "spec"; "jest"; "mocha"; "coverage"]);
    ("documentation", ["doc"; "readme"; "comment"; "jsdoc"]);
    ("devops", ["deploy"; "docker"; "kubernetes"; "ci"; "cd"; "pipeline"]);
    ("database", ["sql"; "database"; "mongo"; "postgres"; "redis"]);
    ("creative", ["design"; "ui"; "ux"; "creative"; "style"]);
    ("utility", ["util"; "helper"; "tool"; "format"; "validate"]) ].

(** [patterns.some(pattern => text.includes(pattern))]. *)
Definition someIncluded (text : string) (patterns : list string) : bool :=
  existsb (fun pattern => includes pattern text) patterns.

Fixpoint firstCategory (text : string) (table : list (string * list string))
  : option string :=
  match table with
  | [] => None
  | (category, patterns) :: rest =>
      if someIncluded text patterns then Some category
      else firstCategory text rest
  end.

Definition inferCategory (skillName path : string) : option string :=
  let text := toLowerCase (skillName +:+ " " +:+ path) in
  firstCategory text categoryPatterns.

End SkillParser.

(** ** Data model (models/skill.ts, models/repository.ts) *)

Module Models.

Inductive NodeType : Type := Blob | Tree.

Record TreeNode : Type := {
  node_path : string;
  node_mode : string;
  node_type : NodeType;
  node_sha : string;
  node_size : option N;
  node_url : string
}.

Record RepositoryTree : Type := {
  tree_sha : string;
  tree_url : string;
  tree_nodes : list TreeNode;
  truncated : bool
}.

Inductive FileType : Type := File | Directory.

Record SkillFile : Type := {
  sf_name : string;
  sf_path : string;
  sf_type : FileType;
  sf_sha : option string;
  sf_downloadUrl : option string
}.

Record Skill : Type := {
  id : string;
  name : string;
  description : string;
  category : option string;
  repository : string;
  path : string;
  files : list SkillFile;
  isInstalled : option bool;
  tags : option (list string);
  author : option string;
  version : option string
}.

(** Numbers read by [parseInt] are [None] when JavaScript gives [NaN]; the
    reset [Date] is kept as its epoch milliseconds. *)
Record RateLimitInfo : Type := {
  limit : option Z;
  remaining : option Z;
  reset : option Z
}.

End Models.

(** ** Remote tree cache and bundle discovery (services/githubService.ts) *)

Module GitHubService.
Import Js Models.

Record Request : Type := {
  req_url : string;
  req_headers : list (string * string)
}.

(** [getHeaders(etag)], with the configured token. *)
Definition getHeaders (token : string) (etag : option string)
  : list (string * string) :=
  ([ ("Accept", "application/vnd.github+json");
     ("X-GitHub-Api-Version", "2022-11-28");
     ("User-Agent", "Skill-Manager-VSCode-Extension") ]
   ++ (if truthy token then [("Authorization", "Bearer " +:+ token)] else [])
   ++ match etag with
      | Some e => if truthy e then [("If-None-Match", e)] else []
      | None => []
      end)%list.

Fixpoint digitsValue (acc : option Z) (s : string) : option Z :=
  match s with
  | String c r =>
      if isDigit c
      then digitsValue
             (Some (10 * default 0 acc + Z.of_N (code c - 48)))%Z r
      else acc
  | EmptyString => acc
  end.

(** [parseInt(s, 10)]: leading white space, an optional sign, then the
    longest run of digits; [None] is [NaN]. *)
Definition parseInt (s : string) : option Z :=
  match trimStart s with
  | String "-" r => Z.opp <$> digitsValue None r
  | String "+" r => digitsValue None r
  | t => digitsValue None t
  end.

Inductive Error : Type :=
  | RateLimitExceeded (resetsAt : option Z)
  | ApiError (status : Z) (statusText : string)
  | FetchRejected
  | InvalidJson.

Inductive Result (A : Type) : Type :=
  | Ok (a : A)
  | Throw (e : Error).
Arguments Ok {A} a.
Arguments Throw {A} e.

Section Service.

(** The payload type of a cached response ([RepositoryTree], [FileContent]). *)
Variable T : Type.

Record CacheEntry : Type := {
  data : T;
  expiresAt : Z;
  etag : option string
}.

(** A response of [node-fetch]; header names are lower-case, as
    [Headers.get] normalises them; [resp_json] is [None] when the body is
    not JSON. *)
Record Response : Type := {
  status : Z;
  statusText : string;
  resp_headers : gmap string string;
  resp_json : option T;
  (** the time [await response.json()] takes *)
  resp_bodyTime : N
}.

Definition ok (r : Response) : bool :=
  ((200 <=? status r) && (status r <? 300))%Z.

(** What [await fetch(...)] delivers: the time that passed, and the
    response, or [None] when the promise rejects. *)
Record Reply : Type := {
  elapsed : N;
  outcome : option Response
}.

(** Configuration and the network. *)
Variable token : string.
Variable cacheExpiry : Z.
Variable fetch : Request -> Reply.

(** The service object: its two fields, the clock [Date.now()] reads, and
    the requests sent so far (latest first). *)
Record ServiceState : Type := {
  cache : gmap string CacheEntry;
  rateLimitInfo : option RateLimitInfo;
  now : Z;
  requests : list Request
}.

Definition updateRateLimit (headers : gmap string string)
    (info : option RateLimitInfo) : option RateLimitInfo :=
  let limit := headers !! "x-ratelimit-limit" in
  let remaining := headers !! "x-ratelimit-remaining" in
  let reset := headers !! "x-ratelimit-reset" in
  match limit, remaining, reset with
  | Some l, Some r, Some t =>
      if truthy l && truthy r && truthy t
      then Some {| Models.limit := parseInt l;
                   Models.remaining := parseInt r;
                   Models.reset := (fun n => n * 1000)%Z <$> parseInt t |}
      else info
  | _, _, _ => info
  end.

(** [this.rateLimitInfo?.remaining === 0]. *)
Definition quotaIsZero (info : option RateLimitInfo) : bool :=
  match info with
  | Some i => match remaining i with Some n => (n =? 0)%Z | None => false end
  | None => false
  end.

(** [cached && cached.expiresAt > Date.now()], giving [cached.data]. *)
Definition cacheHit (cached : option CacheEntry) (t : Z) : option T :=
  match cached with
  | Some c => if (t <? expiresAt c)%Z then Some (data c) else None
  | None => None
  end.

(** [response.status === 304 && cached], giving [cached]. *)
Definition notModified (cached : option CacheEntry) (response : Response)
  : option CacheEntry :=
  match cached with
  | Some c => if (status response =? 304)%Z then Some c else None
  | None => None
  end.

(** [response.headers.get('etag') || undefined]. *)
Definition etagOf (response : Response) : option string :=
  match resp_headers response !! "etag" with
  | Some e => if truthy e then Some e else None
  | None => None
  end.

Definition setCache (st : ServiceState) (c : gmap string CacheEntry)
  : ServiceState :=
  {| cache := c; rateLimitInfo := rateLimitInfo st;
     now := now st; requests := requests st |}.

Definition advance (st : ServiceState) (dt : N) : ServiceState :=
  {| cache := cache st; rateLimitInfo := rateLimitInfo st;
     now := now st + Z.of_N dt; requests := requests st |}.

(** The request [fetchWithCache] sends: the headers carry the validator of
    the cached entry, when there is one. *)
Definition conditionalRequest (url : string) (validator : option string)
  : Request :=
  {| req_url := url; req_headers := getHeaders token validator |}.

Definition fetchWithCache (url cacheKey : string) (st : ServiceState)
  : Result T * ServiceState :=
  let cached := cache st !! cacheKey in
  match cacheHit cached (now st) with
  | Some d => (Ok d, st)
  | None =>
      let request := conditionalRequest url (cached ≫= etag) in
      let reply := fetch request in
      let st1 :=
        {| cache := cache st; rateLimitInfo := rateLimitInfo st;
           now := now st + Z.of_N (elapsed reply);
           requests := request :: requests st |} in
      match outcome reply with
      | None => (Throw FetchRejected, st1)
      | Some response =>
          let st2 :=
            {| cache := cache st1;
               rateLimitInfo :=
                 updateRateLimit (resp_headers response) (rateLimitInfo st1);
               now := now st1; requests := requests st1 |} in
          match notModified cached response with
          | Some c =>
              (* [cached.expiresAt = ...] updates the entry the map holds *)
              (Ok (data c),
               setCache st2
                 (<[cacheKey := {| data := data c;
                                   expiresAt := now st2 + cacheExpiry;
                                   etag := etag c |}]> (cache st2)))
          | None =>
              if negb (ok response) then
                if (status response =? 403)%Z && quotaIsZero (rateLimitInfo st2)
                then (Throw (RateLimitExceeded (rateLimitInfo st2 ≫= reset)), st2)
                else (Throw (ApiError (status response) (statusText response)), st2)
              else
                let st3 := advance st2 (resp_bodyTime response) in
                match resp_json response with
                | None => (Throw InvalidJson, st3)
                | Some d =>
                    (Ok d,
                     setCache st3
                       (<[cacheKey := {| data := d;
                                         expiresAt := now st3 + cacheExpiry;
                                         etag := etagOf response |}]> (cache st3)))
                end
          end
      end
  end.

Definition GITHUB_API_BASE : string := "https://api.github.com".

(** [fetchRepositoryTree] and the cached request of [fetchFileContent]. *)
Definition fetchRepositoryTree (repo : string) (st : ServiceState)
  : Result T * ServiceState :=
  fetchWithCache
    (GITHUB_API_BASE +:+ "/repos/" +:+ repo +:+ "/git/trees/main?recursive=1")
    ("tree:" +:+ repo) st.

Definition fetchFileContent (repo path : string) (st : ServiceState)
  : Result T * ServiceState :=
  fetchWithCache
    (GITHUB_API_BASE +:+ "/repos/" +:+ repo +:+ "/contents/" +:+ path)
    ("file:" +:+ repo +:+ ":" +:+ path) st.

Definition clearCache (st : ServiceState) : ServiceState := setCache st ∅.

End Service.

Arguments Build_CacheEntry {T} _ _ _.
Arguments data {T} _.
Arguments expiresAt {T} _.
Arguments etag {T} _.
Arguments Build_Response {T} _ _ _ _ _.
Arguments status {T} _.
Arguments statusText {T} _.
Arguments resp_headers {T} _.
Arguments resp_json {T} _.
Arguments resp_bodyTime {T} _.
Arguments ok {T} _.
Arguments Build_Reply {T} _ _.
Arguments elapsed {T} _.
Arguments outcome {T} _.
Arguments Build_ServiceState {T} _ _ _ _.
Arguments cache {T} _.
Arguments rateLimitInfo {T} _.
Arguments now {T} _.
Arguments requests {T} _.
Arguments cacheHit {T} _ _.
Arguments notModified {T} _ _.
Arguments etagOf {T} _.
Arguments setCache {T} _ _.
Arguments advance {T} _ _.
Arguments fetchWithCache {T} _ _ _ _ _ _.
Arguments conditionalRequest _ _ _ : assert.
Arguments fetchRepositoryTree {T} _ _ _ _ _.
Arguments fetchFileContent {T} _ _ _ _ _ _.
Arguments clearCache {T} _.

(** [getSkillFiles(tree, skillPath)]. *)
Definition skillPrefix (skillPath : string) : string :=
  if truthy skillPath then skillPath +:+ "/" else EmptyString.

Definition skillFileOf (skillPath : string) (node : TreeNode)
  : option SkillFile :=
  let prefix := skillPrefix skillPath in
  if startsWith prefix (node_path node)
     || (isEmpty skillPath && negb (includes "/" (node_path node)))
  then
    let relativePath :=
      if truthy skillPath
      then sliceFrom (String.length prefix) (node_path node)
      else node_path node in
    if includes "/" relativePath then None
    else Some {| sf_name := relativePath;
                 sf_path := node_path node;
                 sf_type := match node_type node with
                            | Tree => Directory
                            | Blob => File
                            end;
                 sf_sha := Some (node_sha node);
                 sf_downloadUrl := None |}
  else None.

Definition getSkillFiles (tree : RepositoryTree) (skillPath : string)
  : list SkillFile :=
  omap (skillFileOf skillPath) (tree_nodes tree).

End GitHubService.

(** ** The local file system (fs/promises, path) *)

Module Fs.
Import Js.

(** A normalised absolute POSIX path: its segments below the root. *)
Abbreviation Path := (list string).

Inductive Node : Type :=
  | FileNode (content : string)
  | DirNode.

(** The file system: the nodes by absolute path; the root is the entry at
    the empty path. *)
Abbreviation FS := (gmap (list string) Node).

Inductive Errno : Type := ENOENT | ENOTDIR | EEXIST | EISDIR.

(** One segment of [path.join] after normalisation. *)
Definition joinSegment (base : Path) (segment : string) : Path :=
  if String.eqb segment "" || String.eqb segment "." then base
  else if String.eqb segment ".." then removelast base
  else (base ++ [segment])%list.

(** [path.join(base, rel)] for a normalised absolute [base]. *)
Definition join (base : Path) (rel : string) : Path :=
  fold_left joinSegment (split "/"%char rel) base.

(** [(await fs.stat(p)).isDirectory()], [false] when [stat] rejects. *)
Definition isDirectory (fs : FS) (p : Path) : bool :=
  match fs !! p with
  | Some DirNode => true
  | _ => false
  end.

(** [fs.access(p)] resolves. *)
Definition access (fs : FS) (p : Path) : bool :=
  match fs !! p with
  | Some _ => true
  | None => false
  end.

(** The directories [mkdir] creates on the way down to a missing path;
    the argument is the path reversed (innermost segment first). *)
Fixpoint mkdirAncestors (fs : FS) (reversed : list string) : Errno + FS :=
  match fs !! rev reversed with
  | Some DirNode => inr fs
  | Some (FileNode _) => inl ENOTDIR
  | None =>
      match reversed with
      | [] => inr (<[ [] := DirNode ]> fs)
      | _ :: parent =>
          match mkdirAncestors fs parent with
          | inr fs' => inr (<[ rev reversed := DirNode ]> fs')
          | inl e => inl e
          end
      end
  end.

(** [fs.mkdir(p, { recursive: true })]. *)
Definition mkdir (fs : FS) (p : Path) : Errno + FS :=
  match fs !! p with
  | Some (FileNode _) => inl EEXIST
  | _ => mkdirAncestors fs (rev p)
  end.

(** [fs.writeFile(p, content)]. *)
Definition writeFile (fs : FS) (p : Path) (content : string) : Errno + FS :=
  match fs !! p with
  | Some DirNode => inl EISDIR
  | _ =>
      match fs !! removelast p with
      | Some DirNode => inr (<[ p := FileNode content ]> fs)
      | Some (FileNode _) => inl ENOTDIR
      | None => inl ENOENT
      end
  end.

(** [fs.rm(p, { recursive: true, force: true })]: [p] and everything
    below it goes; a missing [p] is not an error. *)
Definition rm (fs : FS) (p : Path) : FS :=
  filter (fun entry => ¬ p `prefix_of` entry.1) fs.

(** Every entry below the root lies in a directory. *)
Definition wellFormed (fs : FS) : Prop :=
  forall p q node,
    fs !! p = Some node -> q `prefix_of` p -> q <> p -> fs !! q = Some DirNode.

Definition errnoText (e : Errno) : string :=
  match e with
  | ENOENT => "ENOENT: no such file or directory"
  | ENOTDIR => "ENOTDIR: not a directory"
  | EEXIST => "EEXIST: file already exists"
  | EISDIR => "EISDIR: illegal operation on a directory"
  end.

Definition render (p : Path) : string :=
  "/" +:+ Js.join "/" p.

End Fs.

(** ** Installer (services/skillInstaller.ts) *)

Module SkillInstaller.
Import Js Models Fs.

(** What the installer does to the outside world, latest first. *)
Inductive Event : Type :=
  | FsMkdir (p : Path)
  | FsStat (p : Path)
  | FsAccess (p : Path)
  | FsWriteFile (p : Path)
  | FsRm (p : Path)
  | NetDownloadFile (repo path : string)
  | NetFetchRepositoryTree (repo : string).

Record World : Type := {
  fs : FS;
  log : list Event
}.

(** A thrown value: a rejected [fs] call or an [Error] with a message. *)
Inductive Exn : Type :=
  | FsError (code : Errno) (syscall : string) (p : Path)
  | JsError (message : string).

(** [error.message]. *)
Definition message (e : Exn) : string :=
  match e with
  | FsError code syscall p =>
      errnoText code +:+ ", " +:+ syscall +:+ " '" +:+ render p +:+ "'"
  | JsError m => m
  end.

(** The outcome of an asynchronous call; [OutOfFuel] marks a recursion cut
    off by the bound of the embedding, it is no behaviour of the code. *)
Inductive Outcome (A : Type) : Type :=
  | Ok (a : A)
  | Throw (e : Exn)
  | OutOfFuel.
Arguments Ok {A} a.
Arguments Throw {A} e.
Arguments OutOfFuel {A}.

Definition M (A : Type) : Type := World -> Outcome A * World.

Definition ret {A} (a : A) : M A := fun w => (Ok a, w).

Definition bind {A B} (m : M A) (k : A -> M B) : M B :=
  fun w =>
    match m w with
    | (Ok a, w') => k a w'
    | (Throw e, w') => (Throw e, w')
    | (OutOfFuel, w') => (OutOfFuel, w')
    end.

Definition throw {A} (e : Exn) : M A := fun w => (Throw e, w).

(** [try { m } catch { handler }]. *)
Definition tryCatch {A} (m : M A) (handler : Exn -> M A) : M A :=
  fun w =>
    match m w with
    | (Throw e, w') => handler e w'
    | r => r
    end.

Notation "x <- m ;; k" := (bind m (fun x => k))
  (at level 100, m at next level, right associativity).
Notation "m ;;; k" := (bind m (fun _ => k))
  (at level 100, right associativity).

Definition emit (e : Event) : M unit :=
  fun w => (Ok tt, {| fs := fs w; log := e :: log w |}).

Definition setFs (f : FS) : M unit :=
  fun w => (Ok tt, {| fs := f; log := log w |}).

Definition getFs : M FS := fun w => (Ok (fs w), w).

(** [for (const x of xs) { body(x) }]. *)
Fixpoint forEach {A} (xs : list A) (body : A -> M unit) : M unit :=
  match xs with
  | [] => ret tt
  | x :: rest => body x ;;; forEach rest body
  end.

Definition fsMkdir (p : Path) : M unit :=
  emit (FsMkdir p) ;;;
  f <- getFs ;;
  match mkdir f p with
  | inr f' => setFs f'
  | inl code => throw (FsError code "mkdir" p)
  end.

Definition fsWriteFile (p : Path) (content : string) : M unit :=
  emit (FsWriteFile p) ;;;
  f <- getFs ;;
  match writeFile f p content with
  | inr f' => setFs f'
  | inl code => throw (FsError code "open" p)
  end.

Definition fsRm (p : Path) : M unit :=
  emit (FsRm p) ;;;
  f <- getFs ;;
  setFs (rm f p).

Definition fsIsDirectory (p : Path) : M bool :=
  emit (FsStat p) ;;;
  f <- getFs ;;
  ret (isDirectory f p).

Definition fsAccess (p : Path) : M bool :=
  emit (FsAccess p) ;;;
  f <- getFs ;;
  ret (access f p).

(** What a call of the injected [GitHubService] delivers. *)
Inductive Fetched (A : Type) : Type :=
  | Got (a : A)
  | Failed (message : string).
Arguments Got {A} a.
Arguments Failed {A} message.

Record InstallResult : Type := {
  success : bool;
  skill : Skill;
  localPath : option Path;
  error : option string
}.

(** A rollback is a recursive removal; a network call is a call of the
    injected service. *)
Definition isRollback (e : Event) : bool :=
  match e with FsRm _ => true | _ => false end.


Definition isNetwork (e : Event) : bool :=
  match e with
  | NetDownloadFile _ _ | NetFetchRepositoryTree _ => true
  | _ => false
  end.


(** [m] is never cut off by the recursion bound. *)
Definition finishes {A} (m : M A) : Prop :=
  forall w, (m w).1 <> OutOfFuel.

Definition longestPath (t : RepositoryTree) : nat :=
  foldr (fun n longest => Nat.max (String.length (node_path n)) longest)
    0 (tree_nodes t).

Section Installer.

(** The install root [getInstallPath()] returns, as a resolved path. *)
Variable installPath : Path.

(** The injected service, at one snapshot of the remote repositories. *)
Variable downloadFile : string -> string -> Fetched string.
Variable fetchRepositoryTree : string -> Fetched RepositoryTree.

(** The text [saveInstallMetadata] writes (it contains the install time). *)
Variable metadataJson : Skill -> string.

Definition netDownloadFile (repo path : string) : M string :=
  emit (NetDownloadFile repo path) ;;;
  match downloadFile repo path with
  | Got content => ret content
  | Failed m => throw (JsError m)
  end.

Definition netFetchRepositoryTree (repo : string) : M RepositoryTree :=
  emit (NetFetchRepositoryTree repo) ;;;
  match fetchRepositoryTree repo with
  | Got t => ret t
  | Failed m => throw (JsError m)
  end.

Definition ensureInstallDirectory : M unit :=
  tryCatch (fsMkdir installPath)
    (fun e =>
       match e with
       | FsError EEXIST _ _ => ret tt
       | _ => throw e
       end).

Definition sanitizedName (s : Skill) : string :=
  replaceWhiteRuns (toLowerCase (name s)).

Definition getSkillLocalPath (s : Skill) : Path :=
  join installPath (sanitizedName s).

Definition isInstalled (s : Skill) : M bool :=
  fsIsDirectory (getSkillLocalPath s).

Definition isFile (f : SkillFile) : bool :=
  match sf_type f with File => true | Directory => false end.

Definition isSubdirectory (f : SkillFile) : bool :=
  match sf_type f with Directory => true | File => false end.

(** One entry of [tree.tree] inside [downloadDirectory]; [recurse] is the
    recursive call. *)
Definition downloadNode (recurse : string -> Path -> M unit)
    (repo remotePath : string) (localPath : Path) (node : TreeNode) : M unit :=
  let prefix := remotePath +:+ "/" in
  if startsWith prefix (node_path node) then
    let relativePath := sliceFrom (String.length prefix) (node_path node) in
    if includes "/" relativePath then ret tt
    else
      let itemLocalPath := join localPath relativePath in
      match node_type node with
      | Blob =>
          content <- netDownloadFile repo (node_path node) ;;
          fsWriteFile itemLocalPath content
      | Tree => recurse (node_path node) itemLocalPath
      end
  else ret tt.

Fixpoint downloadDirectory (fuel : nat) (repo remotePath : string)
    (localPath : Path) : M unit :=
  match fuel with
  | O => fun w => (OutOfFuel, w)
  | S fuel' =>
      fsMkdir localPath ;;;
      tree <- netFetchRepositoryTree repo ;;
      forEach (tree_nodes tree)
        (downloadNode (downloadDirectory fuel' repo) repo remotePath localPath)
  end.

(** The body of the first loop of [install]: a failed download or write is
    logged and skipped. *)
Definition downloadSkillFile (s : Skill) (localPath : Path) (file : SkillFile)
  : M unit :=
  tryCatch
    (content <- netDownloadFile (repository s) (sf_path file) ;;
     fsWriteFile (join localPath (sf_name file)) content)
    (fun _ => ret tt).

Definition saveInstallMetadata (s : Skill) (localPath : Path) : M unit :=
  fsWriteFile (join localPath ".skill-manager.json") (metadataJson s).

Definition alreadyInstalled : string := "Skill is already installed".
Definition manifestNotFound : string := "SKILL.md not found in skill directory".

(** [install] up to the verification: the precondition check, the local
    directory, the direct files, the subdirectories.  [None] when the
    bundle is already installed, else the local directory.  The optional
    [onProgress] callback is taken as absent and console output is left
    out: neither touches the file system or the remote service. *)
Definition materialize (fuel : nat) (s : Skill) : M (option Path) :=
  ensureInstallDirectory ;;;
  let localPath := getSkillLocalPath s in
  installed <- isInstalled s ;;
  if installed then ret None
  else
    fsMkdir localPath ;;;
    forEach (filter (fun f => isFile f = true) (files s))
      (downloadSkillFile s localPath) ;;;
    forEach (filter (fun f => isSubdirectory f = true) (files s))
      (fun dir =>
         downloadDirectory fuel (repository s) (sf_path dir)
           (join localPath (sf_name dir))) ;;;
    ret (Some localPath).

(** The verification and what follows it. *)
Definition verify (s : Skill) (localPath : Path) : M InstallResult :=
  present <- fsAccess (join localPath "SKILL.md") ;;
  if present then
    saveInstallMetadata s localPath ;;;
    ret {| success := true; skill := s;
           localPath := Some localPath; error := None |}
  else
    fsRm localPath ;;;
    ret {| success := false; skill := s;
           localPath := None; error := Some manifestNotFound |}.

Definition install (fuel : nat) (s : Skill) : M InstallResult :=
  tryCatch
    (r <- materialize fuel s ;;
     match r with
     | None =>
         ret {| success := false; skill := s;
                localPath := Some (getSkillLocalPath s);
                error := Some alreadyInstalled |}
     | Some localPath => verify s localPath
     end)
    (fun e =>
       ret {| success := false; skill := s;
              localPath := None; error := Some (message e) |}).

(** A recursion bound under which [downloadDirectory] never stops short:
    every recursive call goes to a strictly longer path of the tree. *)
Definition enoughFuel (s : Skill) : nat :=
  match fetchRepositoryTree (repository s) with
  | Got t => longestPath t + 2
  | Failed _ => 1
  end.

Definition notInstalled (s : Skill) : string :=
  "Skill " +:+ name s +:+ " is not installed".

Definition uninstall (s : Skill) : M unit :=
  let localPath := getSkillLocalPath s in
  installed <- isInstalled s ;;
  if installed then fsRm localPath
  else throw (JsError (notInstalled s)).

End Installer.
End SkillInstaller.

(** ** Declarative readings used by the statements below *)

Module Reading.
Import Js SkillParser.

(** [p] occurs in [s] as a substring. *)
Definition occursIn (p s : string) : Prop :=
  exists before after, s = before +:+ p +:+ after.

Fixpoint takeWhile {A} (p : A -> bool) (xs : list A) : list A :=
  match xs with
  | x :: rest => if p x then x :: takeWhile p rest else []
  | [] => []
  end.

Fixpoint dropWhile {A} (p : A -> bool) (xs : list A) : list A :=
  match xs with
  | x :: rest => if p x then dropWhile p rest else xs
  | [] => []
  end.

(** The classes of (trimmed) body lines the description fallback tells apart. *)
Definition isHeading (t : string) : bool := startsWith "#" t.
Definition isBlankOrFence (t : string) : bool :=
  isEmpty t || startsWith "```" t.
Definition isTextLine (t : string) : bool :=
  negb (isHeading t) && negb (isBlankOrFence t).

(** The lines of the body as the extractor reads them. *)
Definition bodyLines (body : string) : list string :=
  map trim (splitLines (trim body)).

(** The lines the fallback description is made of: skip everything up to
    the first text line, stop at the first blank line or fence after it,
    leave out headings, keep three. *)
Definition descriptionLines (body : string) : list string :=
  take 3
    (List.filter (fun t => negb (isHeading t))
       (takeWhile (fun t => negb (isBlankOrFence t))
          (dropWhile (fun t => negb (isTextLine t)) (bodyLines body)))).

(** Category inference read word for word: the name and the path are
    concatenated, with nothing between them. *)
Definition inferCategoryOfConcatenation (skillName path : string)
  : option string :=
  firstCategory (toLowerCase (skillName +:+ path)) categoryPatterns.

(** The characters the warning text of [validateSkill] names: letters,
    numbers, spaces and hyphens. *)
Definition namedInWarning (c : ascii) : bool :=
  isAsciiLetter c || isDigit c || Ascii.eqb c " "%char || Ascii.eqb c "-"%char.

Definition metadataOf (name description : string) : SkillMetadata :=
  {| md_name := Some (YStr name);
     md_description := Some (YStr description);
     md_category := None; md_tags := None; md_author := None;
     md_version := None; md_triggers := None; md_dependencies := None |}.

(** Manifests used as concrete inputs. *)
Definition headingThenText : string :=
  "# Title

First line of text.
Second line.".

Definition fenceOnly : string := "```".

Definition emptyNameHeader : string :=
  "---
name:
---
".

End Reading.

(** ** Concrete inputs *)

Module Examples.
Import Js Models GitHubService.

Definition rateLimitHeaders (remaining : string) : gmap string string :=
  <["x-ratelimit-limit" := "60"]>
    (<["x-ratelimit-remaining" := remaining]>
       (<["x-ratelimit-reset" := "1700000000"]> ∅)).

(** A network that answers every request with the given status line and
    the given remaining quota, after 120 ms, without a JSON body. *)
Definition answering (status : Z) (statusText remaining : string)
  : Request -> Reply string :=
  fun _ =>
    {| elapsed := 120;
       outcome := Some {| status := status; statusText := statusText;
                          resp_headers := rateLimitHeaders remaining;
                          resp_json := None; resp_bodyTime := 0 |} |}.

Definition treeKey : string := "tree:acme/demo".
Definition treeUrl : string :=
  "https://api.github.com/repos/acme/demo/git/trees/main?recursive=1".

Definition cachedEntry : CacheEntry string :=
  {| data := "payload"; expiresAt := 5000; etag := Some "W/abc" |}.

(** A service holding one entry that expires at 5000, seen at time [t]. *)
Definition serviceAt (t : Z) : ServiceState string :=
  {| cache := {[ treeKey := cachedEntry ]};
     rateLimitInfo := None; now := t; requests := [] |}.

Definition emptyService : ServiceState string :=
  {| cache := ∅; rateLimitInfo := None; now := 1000; requests := [] |}.

Definition node (path : string) (type : NodeType) : TreeNode :=
  {| node_path := path; node_mode := "100644"; node_type := type;
     node_sha := "0"; node_size := None; node_url := "" |}.

Definition demoTree : RepositoryTree :=
  {| tree_sha := "0"; tree_url := "";
     tree_nodes :=
       [ node "skills" Tree; node "skills/a" Tree;
         node "skills/a/SKILL.md" Blob; node "skills/a/run.sh" Blob;
         node "skills/a/lib" Tree; node "skills/a/lib/x.js" Blob;
         node "skills/b" Tree; node "skills/b/SKILL.md" Blob ];
     truncated := false |}.

Definition libEntry : SkillFile :=
  {| sf_name := "lib"; sf_path := "skills/a/lib"; sf_type := Directory;
     sf_sha := Some "0"; sf_downloadUrl := None |}.

Import Fs SkillInstaller.

Definition installRoot : Path := ["home"; "u"; "skills"].

(** The bundle [skills/a] of [demoTree] under a display name. *)
Definition demoSkill (displayName : string) : Skill :=
  {| id := "acme/demo/skills/a"; name := displayName; description := "";
     category := None; repository := "acme/demo"; path := "skills/a";
     files := getSkillFiles demoTree "skills/a";
     Models.isInstalled := None; tags := None; author := None;
     version := None |}.

Definition serveTree (repo : string) : Fetched RepositoryTree := Got demoTree.

Definition serveAll (repo path : string) : Fetched string :=
  Got ("content of " +:+ path).

(** A remote that fails to deliver the file at [missing]. *)
Definition serveAllBut (missing : string) (repo path : string)
  : Fetched string :=
  if String.eqb path missing
  then Failed ("Failed to download file: " +:+ path)
  else Got ("content of " +:+ path).

Definition noMetadata (s : Skill) : string := "{}".

(** A home directory without the install root. *)
Definition homeOnly : World :=
  {| fs := list_to_map [ ([], DirNode); (["home"], DirNode);
                         (["home"; "u"], DirNode) ];
     log := [] |}.

(** The install root with the bundle [a-skill] in it. *)
Definition withBundle : World :=
  {| fs := list_to_map
             [ ([], DirNode); (["home"], DirNode); (["home"; "u"], DirNode);
               (["home"; "u"; "skills"], DirNode);
               (["home"; "u"; "skills"; "a-skill"], DirNode);
               (["home"; "u"; "skills"; "a-skill"; "SKILL.md"],
                FileNode "content of skills/a/SKILL.md") ];
     log := [] |}.

End Examples.

(** ** Remotes that fail, and a directory named like the manifest *)

Module InstallExamples.
Import Js Models GitHubService Fs SkillInstaller Examples.





End InstallExamples.

(** ** Batches of installs, and how calls change the file system *)

Module Batch.
Import Js Models Fs SkillInstaller.

(** The file system after [m] is related by [R] to the one before it. *)
Definition evolves {A : Type} (R : FS -> FS -> Prop) (m : SkillInstaller.M A)
  : Prop :=
  forall w, R (fs w) (fs (m w).2).

(** Every entry is still there, a directory as a directory and a file as
    a file. *)
Definition kindPreserved (f f' : FS) : Prop :=
  forall q node, f !! q = Some node ->
    exists node', f' !! q = Some node' /\ (node = DirNode <-> node' = DirNode).

(** Every entry that is not at or below [root] is unchanged. *)
Definition sameOutside (root : Path) (f f' : FS) : Prop :=
  forall q node, ~ root `prefix_of` q -> f !! q = Some node -> f' !! q = Some node.

(** A file name that is one plain path segment. *)
Definition plainName (n : string) : Prop :=
  includes "/" n = false /\ n <> EmptyString /\ n <> "." /\ n <> "..".

(** The file system after the first loop of [install], when no write
    fails: the downloaded files are written in turn. *)
Definition written (downloadFile : string -> string -> Fetched string)
    (repo : string) (localPath : Path) (f : FS) (entries : list SkillFile)
  : FS :=
  fold_left
    (fun g file =>
       match downloadFile repo (sf_path file) with
       | Got content => <[ (localPath ++ [sf_name file])%list := FileNode content ]> g
       | Failed _ => g
       end)
    entries f.

Section Batch.

Variable installPath : Path.
Variable downloadFile : string -> string -> Fetched string.
Variable fetchRepositoryTree : string -> Fetched RepositoryTree.
Variable metadataJson : Skill -> string.

(** [installBatch(skills)]: the installs run one after the other and the
    results are collected in order (the pause between two installs and the
    optional progress callback leave no trace in the state). *)
Fixpoint installBatch (fuel : nat) (skills : list Skill)
  : SkillInstaller.M (list InstallResult) :=
  match skills with
  | [] => ret []
  | s :: rest =>
      result <- install installPath downloadFile fetchRepositoryTree
                  metadataJson fuel s ;;
      results <- installBatch fuel rest ;;
      ret (result :: results)
  end.

End Batch.
End Batch.

(** ** Bundle discovery over the configured repositories
    (services/githubService.ts) *)

Module Discovery.
Import Js Models GitHubService.

(** [s.endsWith(suffix)]. *)
Fixpoint endsWith (suffix s : string) : bool :=
  String.eqb suffix s ||
  match s with
  | EmptyString => false
  | String _ r => endsWith suffix r
  end.

(** [s.replace(pattern, replacement)] for a string pattern: the first
    occurrence only (the replacement has no dollar sign). *)
Fixpoint replaceFirst (pattern replacement s : string) : string :=
  if startsWith pattern s
  then replacement +:+ sliceFrom (String.length pattern) s
  else match s with
       | EmptyString => EmptyString
       | String c r => String c (replaceFirst pattern replacement r)
       end.

(** One turn of the loop of [findSkillDirectories]. *)
Definition skillDirectoryOf (node : TreeNode) : option string :=
  match node_type node with
  | Blob =>
      if endsWith "/SKILL.md" (node_path node)
      then Some (replaceFirst "/SKILL.md" "" (node_path node))
      else if String.eqb (node_path node) "SKILL.md" then Some EmptyString
      else None
  | Tree => None
  end.

Definition skillDirectoriesIn (tree : RepositoryTree) : list string :=
  omap skillDirectoryOf (tree_nodes tree).

(** [a || b] on strings. *)
Definition orElse (a b : string) : string := if truthy a then a else b.

(** [s.split('/').pop()]. *)
Definition lastSegment (s : string) : string := List.last (split "/"%char s) "".

Definition skillName (repo dir : string) : string :=
  orElse (lastSegment dir) (orElse (lastSegment repo) "Unknown").

Definition skillId (repo dir : string) : string :=
  repo +:+ "/" +:+ orElse dir "root".

(** The entry [fetchAllSkills] pushes for the directory [dir]. *)
Definition skillEntry (repo : string) (tree : RepositoryTree) (dir : string)
  : Skill :=
  {| id := skillId repo dir; name := skillName repo dir;
     description := EmptyString; category := None; repository := repo;
     path := dir; files := getSkillFiles tree dir;
     Models.isInstalled := None; tags := None; author := None;
     version := None |}.

(** What [fetchAllSkills] delivers: the entries, and the repositories it
    warned about, with the error caught. *)
Record Catalogue : Type := {
  skills : list Skill;
  warnings : list (string * Error)
}.

Definition warn (repo : string) (e : Error) (c : Catalogue) : Catalogue :=
  {| skills := skills c; warnings := (repo, e) :: warnings c |}.

Definition push (entries : list Skill) (c : Catalogue) : Catalogue :=
  {| skills := (entries ++ skills c)%list; warnings := warnings c |}.

Section Catalogue.

Variable token : string.
Variable cacheExpiry : Z.
Variable fetch : Request -> Reply RepositoryTree.

Definition findSkillDirectories (repo : string)
    (st : ServiceState RepositoryTree)
  : Result (list string) * ServiceState RepositoryTree :=
  match fetchRepositoryTree token cacheExpiry fetch repo st with
  | (Ok tree, st') => (Ok (skillDirectoriesIn tree), st')
  | (Throw e, st') => (Throw e, st')
  end.

(** [fetchAllSkills()]: the repositories in turn; the tree is fetched, then
    fetched again by [findSkillDirectories]; an error of either is caught
    and shown as a warning, and the loop goes on. *)
Fixpoint fetchAllSkills (repositories : list string)
    (st : ServiceState RepositoryTree)
  : Catalogue * ServiceState RepositoryTree :=
  match repositories with
  | [] => ({| skills := []; warnings := [] |}, st)
  | repo :: rest =>
      match fetchRepositoryTree token cacheExpiry fetch repo st with
      | (Throw e, st1) =>
          let later := fetchAllSkills rest st1 in (warn repo e later.1, later.2)
      | (Ok tree, st1) =>
          match findSkillDirectories repo st1 with
          | (Throw e, st2) =>
              let later := fetchAllSkills rest st2 in
              (warn repo e later.1, later.2)
          | (Ok skillDirs, st2) =>
              let later := fetchAllSkills rest st2 in
              (push (map (skillEntry repo tree) skillDirs) later.1, later.2)
          end
      end
  end.

End Catalogue.
End Discovery.

Module DiscoveryExamples.
Import Js Models GitHubService Discovery Examples.

(** A network that answers every request with the given tree, 120 ms
    later, the body taking 5 ms more. *)
Definition serving (tree : RepositoryTree) : Request -> Reply RepositoryTree :=
  fun _ =>
    {| elapsed := 120;
       outcome := Some {| status := 200; statusText := "OK";
                          resp_headers := rateLimitHeaders "59";
                          resp_json := Some tree; resp_bodyTime := 5 |} |}.

Definition freshService : ServiceState RepositoryTree :=
  {| cache := ∅; rateLimitInfo := None; now := 1000; requests := [] |}.

End DiscoveryExamples.

(** ** Manifests with a header block *)

Module Manifests.
Import Js SkillParser.

(** The text of a manifest: the opening fence, the header block, the
    closing fence, the body. *)
Definition manifest (frontmatter body : string) : string :=
  "---" +:+ String LF (frontmatter +:+ closingFence +:+ String LF body).

(** A header line giving the name. *)
Definition nameLine (value : string) : string := "name: " +:+ value.

(** The lines of a list, each a hyphen, a space and the item. *)
Fixpoint itemLines (items : list string) : string :=
  match items with
  | [] => EmptyString
  | item :: rest => String LF ("- " +:+ item +:+ itemLines rest)
  end.

(** A header key with a list under it, one item a line. *)
Definition listBlock (key : string) (items : list string) : string :=
  key +:+ ":" +:+ itemLines items.

(** Text on one line, not empty, with no white space at either end. *)
Definition plain (s : string) : Prop :=
  s <> EmptyString /\ trimStart s = s /\ trimEnd s = s /\
  includes (String LF EmptyString) s = false.

End Manifests.

(** ** The bundles on disk (services/skillInstaller.ts, [listInstalled]) *)

Module Listing.
Import Js Fs SkillParser.

(** [fs.readFile(p, 'utf-8')]. *)
Definition readFile (f : FS) (p : Path) : Errno + string :=
  match f !! p with
  | Some (FileNode content) => inr content
  | Some DirNode => inl EISDIR
  | None => inl ENOENT
  end.

(** The name under which [q] is an entry of the directory [p]. *)
Fixpoint childOf (p q : Path) : option string :=
  match p, q with
  | [], [name] => Some name
  | a :: p', b :: q' => if String.eqb a b then childOf p' q' else None
  | _, _ => None
  end.

(** The error of a call on a missing path, whose reversal is given: the
    nearest ancestor that exists decides, [ENOTDIR] when it is a file and
    [ENOENT] when it is a directory or when there is none.  In a
    well-formed file system that is the component at which the walk from
    the root stops. *)
Fixpoint missingErrno (f : FS) (reversed : list string) : Errno :=
  match reversed with
  | [] => ENOENT
  | _ :: parent =>
      match f !! rev parent with
      | Some (FileNode _) => ENOTDIR
      | Some DirNode => ENOENT
      | None => missingErrno f parent
      end
  end.

(** [fs.readdir(p, { withFileTypes: true })]: the entries of [p], each a
    name and what it is, in the order the file system gives them. *)
Definition readdir (f : FS) (p : Path) : Errno + list (string * Node) :=
  match f !! p with
  | Some DirNode =>
      inr (omap (fun entry => (fun name => (name, entry.2)) <$> childOf p entry.1)
             (map_to_list f))
  | Some (FileNode _) => inl ENOTDIR
  | None => inl (missingErrno f (rev p))
  end.

Section Listing.

(** The values of the sidecar file, with their truthiness. *)
Variable Json : Type.
Variable truthyJson : Json -> bool.

(** [JSON.parse]: [None] when it throws; the value [null], of which no
    property can be read, is [Some None]; any other value is seen through
    its properties. *)
Variable parseJson : string -> option (option (gmap string Json)).

Variable installPath : Path.

(** [InstalledSkill], without the install date and the constant fields. *)
Record InstalledSkill : Type := {
  is_id : Json + string;
  is_name : option YamlValue;
  is_description : option YamlValue;
  is_category : option YamlValue;
  is_repository : Json + string;
  is_path : Json + string;
  is_localPath : Path;
  is_tags : option YamlValue;
  is_author : option YamlValue;
  is_version : option YamlValue
}.

(** [(value as string) || fallback]. *)
Definition orText (value : option Json) (fallback : string) : Json + string :=
  match value with
  | Some j => if truthyJson j then inl j else inr fallback
  | None => inr fallback
  end.

(** The install metadata: the parsed sidecar, or the empty object when
    the sidecar cannot be read or parsed; [None] when it parsed to [null]. *)
Definition installMetadataAt (f : FS) (metadataPath : Path)
  : option (gmap string Json) :=
  match readFile f metadataPath with
  | inr metadataContent =>
      match parseJson metadataContent with
      | Some value => value
      | None => Some ∅
      end
  | inl _ => Some ∅
  end.

(** One turn of the loop of [listInstalled]: [None] when the entry is
    skipped. *)
Definition installedSkillAt (f : FS) (entry : string * Node)
  : option InstalledSkill :=
  match entry.2 with
  | FileNode _ => None
  | DirNode =>
      let skillPath := join installPath entry.1 in
      let skillMdPath := join skillPath "SKILL.md" in
      let metadataPath := join skillPath ".skill-manager.json" in
      if access f skillMdPath then
        match readFile f skillMdPath with
        | inl _ => None
        | inr skillMdContent =>
            let metadata := parseSkillMd skillMdContent in
            match installMetadataAt f metadataPath with
            | None => None
            | Some installMetadata =>
                Some {| is_id := orText (installMetadata !! "id") entry.1;
                        is_name := md_name metadata;
                        is_description := md_description metadata;
                        is_category := md_category metadata;
                        is_repository :=
                          orText (installMetadata !! "repository") "local";
                        is_path := orText (installMetadata !! "path") "";
                        is_localPath := skillPath;
                        is_tags := md_tags metadata;
                        is_author := md_author metadata;
                        is_version := md_version metadata |}
            end
        end
      else None
  end.

Definition listInstalled (f : FS) : Errno + list InstalledSkill :=
  match readdir f installPath with
  | inr entries => inr (omap (installedSkillAt f) entries)
  | inl ENOENT => inr []
  | inl e => inl e
  end.

End Listing.

Arguments is_id {Json} _.
Arguments is_name {Json} _.
Arguments is_description {Json} _.
Arguments is_category {Json} _.
Arguments is_repository {Json} _.
Arguments is_path {Json} _.
Arguments is_localPath {Json} _.
Arguments is_tags {Json} _.
Arguments is_author {Json} _.
Arguments is_version {Json} _.

End Listing.

(** * Properties *)

#[local] Arguments String.append !_ _ / : simpl nomatch.
#[local] Arguments Ascii.eqb : simpl never.
#[local] Arguments Js.isWhite : simpl never.
#[local] Arguments Js.trim : simpl never.
#[local] Arguments Js.sliceTo : simpl never.

(** ** Strings *)

Section StringFacts.
Import Js Reading.

Lemma startsWith_spec (p s : string) :
  startsWith p s = true <-> exists rest, s = p +:+ rest.
Proof.
  revert s. induction p as [|a p IH]; intros s; simpl.
  - split; [intros _; by exists s | done].
  - destruct s as [|b s].
    + split; [done | intros [rest H]; discriminate].
    + destruct (Ascii.eqb_spec a b) as [->|Hne].
      * rewrite IH. split; intros [rest H]; exists rest.
        -- by rewrite H.
        -- by injection H.
      * split; [done | intros [rest H]; injection H; congruence].
Qed.

Lemma append_assoc (a b c : string) : (a +:+ b) +:+ c = a +:+ (b +:+ c).
Proof. induction a as [|x a IH]; simpl; [done | by rewrite IH]. Qed.

Lemma includes_spec (p s : string) :
  includes p s = true <-> occursIn p s.
Proof.
  split.
  - induction s as [|c s IH]; simpl; rewrite orb_true_iff.
    + intros [H|H]; [|done].
      apply startsWith_spec in H as [rest ->]. by exists "", rest.
    + intros [H|H].
      * apply startsWith_spec in H as [rest ->]. by exists "", rest.
      * destruct (IH H) as (a & b & ->). by exists (String c a), b.
  - intros (a & b & ->). induction a as [|c a IH]; simpl.
    + assert (startsWith p (p +:+ b) = true) as H
        by (apply startsWith_spec; by exists b).
      destruct (p +:+ b); simpl in *; rewrite H; done.
    + rewrite IH. apply orb_true_r.
Qed.

Lemma includes_false (p s : string) :
  includes p s = false <-> ~ occursIn p s.
Proof.
  rewrite <- includes_spec. by destruct (includes p s).
Qed.

Lemma sliceTo_length (n : nat) (s : string) :
  String.length (sliceTo n s) <= n.
Proof.
  revert s. induction n as [|n IH]; intros [|c s]; simpl; try lia.
  specialize (IH s). lia.
Qed.

Lemma startsWith_sliceFrom (p s : string) :
  startsWith p s = true -> s = p +:+ sliceFrom (String.length p) s.
Proof.
  revert s. induction p as [|a p IH]; intros s; simpl; [done|].
  destruct s as [|b s]; [done|].
  destruct (Ascii.eqb_spec a b) as [->|]; [|done].
  intros H. by rewrite <- (IH s H).
Qed.

Lemma heading_not_blank_or_fence (t : string) :
  isHeading t = true -> isBlankOrFence t = false.
Proof.
  destruct t as [|c t]; [done|].
  unfold isHeading, isBlankOrFence. simpl.
  destruct (Ascii.eqb_spec "#"%char c) as [<-|]; done.
Qed.

(** *** Lines and trimming *)

Lemma splitLines_cons (c : ascii) (r : string) :
  splitLines (String c r) =
  if Ascii.eqb c LF then "" :: splitLines r
  else match splitLines r with
       | h :: t => String c h :: t
       | [] => [String c ""]
       end.
Proof. reflexivity. Qed.

Lemma splitLines_nonempty (s : string) : exists h t, splitLines s = h :: t.
Proof.
  induction s as [|c s (h & t & IH)]; [by exists "", []|].
  rewrite splitLines_cons, IH. destruct (Ascii.eqb c LF); by eauto.
Qed.

Lemma trimStart_cons (c : ascii) (r : string) :
  trimStart (String c r) = if isWhite c then trimStart r else String c r.
Proof. reflexivity. Qed.

Lemma trimEnd_cons (c : ascii) (r : string) :
  trimEnd (String c r) =
  if isWhite c && isEmpty (trimEnd r) then "" else String c (trimEnd r).
Proof. reflexivity. Qed.

Lemma trimEnd_trimStart (s : string) :
  trimEnd (trimStart s) = trimStart (trimEnd s).
Proof.
  induction s as [|c s IH]; [done|].
  rewrite trimStart_cons, trimEnd_cons.
  destruct (isWhite c) eqn:Hc; cbn [andb].
  - rewrite IH. destruct (trimEnd s) eqn:He; cbn [isEmpty]; [done|].
    by rewrite (trimStart_cons c), Hc.
  - by rewrite trimEnd_cons, Hc, (trimStart_cons c), Hc.
Qed.

Lemma trim_trimEnd (a b : string) : trimEnd a = trimEnd b -> trim a = trim b.
Proof. unfold trim. rewrite !trimEnd_trimStart. by intros ->. Qed.

Lemma trim_white_cons (c : ascii) (r : string) :
  isWhite c = true -> trim (String c r) = trim r.
Proof. intros Hc. unfold trim. by rewrite trimStart_cons, Hc. Qed.

Lemma LF_white (c : ascii) : Ascii.eqb c LF = true -> isWhite c = true.
Proof. intros H. by apply Ascii.eqb_eq in H as ->. Qed.

(** A string that trims to nothing has only lines that trim to nothing. *)
Lemma trimEnd_empty_lines (s l : string) :
  trimEnd s = "" -> l ∈ splitLines s -> trimEnd l = "".
Proof.
  revert l. induction s as [|c s IH]; intros l Hs Hl.
  - by apply list_elem_of_singleton in Hl as ->.
  - rewrite trimEnd_cons in Hs.
    destruct (isWhite c) eqn:Hc; [|done].
    destruct (trimEnd s) eqn:He; [|done].
    rewrite splitLines_cons in Hl.
    destruct (splitLines_nonempty s) as (h & t & Hlines).
    rewrite Hlines in Hl, IH.
    destruct (Ascii.eqb c LF).
    + apply elem_of_cons in Hl as [->|Hl]; [done | by apply IH].
    + apply elem_of_cons in Hl as [->|Hl].
      * rewrite trimEnd_cons, Hc, (IH h eq_refl); [done | by left].
      * apply IH; [done | by right].
Qed.

(** The first line of the end-trimmed text is the first line of the text,
    up to white space at its end. *)
Lemma trimEnd_first_line (s h h' : string) (t t' : list string) :
  splitLines s = h :: t -> splitLines (trimEnd s) = h' :: t' ->
  trimEnd h' = trimEnd h.
Proof.
  revert h h' t t'. induction s as [|c s IH]; intros h h' t t' Hs Hs'.
  - simpl in *. congruence.
  - rewrite splitLines_cons in Hs.
    destruct (splitLines_nonempty s) as (h0 & t0 & Hlines).
    destruct (splitLines_nonempty (trimEnd s)) as (h0' & t0' & Hlines').
    specialize (IH _ _ _ _ Hlines Hlines').
    rewrite Hlines in Hs. rewrite trimEnd_cons in Hs'.
    destruct (isWhite c && isEmpty (trimEnd s)) eqn:Hall.
    + apply andb_true_iff in Hall as [Hc He].
      destruct (trimEnd s) eqn:Hend; [|done].
      injection Hs' as <- <-. injection Hlines' as <- <-.
      destruct (Ascii.eqb c LF); injection Hs as <- <-; [done|].
      by rewrite trimEnd_cons, Hc, <- IH.
    + rewrite splitLines_cons, Hlines' in Hs'.
      destruct (Ascii.eqb c LF);
        injection Hs as <- <-; injection Hs' as <- <-; [done|].
      by rewrite !trimEnd_cons, IH.
Qed.

Lemma trimEnd_later_lines (s l : string) :
  l ∈ tail (splitLines s) -> trim l <> "" ->
  exists l', l' ∈ tail (splitLines (trimEnd s)) /\ trim l' = trim l.
Proof.
  revert l. induction s as [|c s IH]; intros l Hl Htext.
  - by apply elem_of_nil in Hl.
  - destruct (splitLines_nonempty s) as (h0 & t0 & Hlines).
    destruct (splitLines_nonempty (trimEnd s)) as (h0' & t0' & Hlines').
    pose proof (trimEnd_first_line _ _ _ _ _ Hlines Hlines') as Hfirst.
    rewrite trimEnd_cons.
    destruct (isWhite c && isEmpty (trimEnd s)) eqn:Hall.
    + exfalso. apply Htext.
      apply andb_true_iff in Hall as [Hc He].
      assert (trimEnd (String c s) = "") as Hempty
        by (by rewrite trimEnd_cons, Hc, He).
      assert (l ∈ splitLines (String c s)) as Hin.
      { destruct (splitLines (String c s)); [done | by right]. }
      unfold trim. rewrite trimEnd_trimStart.
      by rewrite (trimEnd_empty_lines _ _ Hempty Hin).
    + rewrite splitLines_cons, Hlines in Hl.
      rewrite splitLines_cons, Hlines'.
      destruct (Ascii.eqb c LF); cbn [tail] in *.
      * apply elem_of_cons in Hl as [->|Hl].
        -- exists h0'. split; [by left | by apply trim_trimEnd].
        -- destruct (IH l) as (l' & Hl' & Heq); [by rewrite Hlines|done|].
           rewrite Hlines' in Hl'. exists l'. split; [by right | done].
      * destruct (IH l) as (l' & Hl' & Heq); [by rewrite Hlines|done|].
        rewrite Hlines' in Hl'. by exists l'.
Qed.

Lemma trimEnd_lines (s l : string) :
  l ∈ splitLines s -> trim l <> "" ->
  exists l', l' ∈ splitLines (trimEnd s) /\ trim l' = trim l.
Proof.
  intros Hl Htext.
  destruct (splitLines_nonempty s) as (h & t & Hlines).
  destruct (splitLines_nonempty (trimEnd s)) as (h' & t' & Hlines').
  rewrite Hlines in Hl. apply elem_of_cons in Hl as [->|Hl].
  - exists h'. rewrite Hlines'. split; [by left|].
    apply trim_trimEnd. by apply (trimEnd_first_line s _ _ t t').
  - destruct (trimEnd_later_lines s l) as (l' & Hl' & Heq);
      [by rewrite Hlines | done |].
    exists l'. split; [|done].
    destruct (splitLines (trimEnd s)); [done | by right].
Qed.

Lemma trimStart_lines (s l : string) :
  l ∈ splitLines s -> trim l <> "" ->
  exists l', l' ∈ splitLines (trimStart s) /\ trim l' = trim l.
Proof.
  revert l. induction s as [|c s IH]; intros l Hl Htext; [by eauto|].
  rewrite trimStart_cons. destruct (isWhite c) eqn:Hc; [|by eauto].
  rewrite splitLines_cons in Hl.
  destruct (splitLines_nonempty s) as (h & t & Hlines).
  rewrite Hlines in Hl, IH.
  destruct (Ascii.eqb c LF).
  - apply elem_of_cons in Hl as [->|Hl]; [done | by apply IH].
  - apply elem_of_cons in Hl as [->|Hl].
    + rewrite trim_white_cons in Htext |- * by done.
      apply IH; [by left | done].
    + apply IH; [by right | done].
Qed.

(** Every line with text is still there, up to white space around it,
    after the whole text has been trimmed. *)
Lemma trim_lines (s l : string) :
  l ∈ splitLines s -> trim l <> "" ->
  exists l', l' ∈ splitLines (trim s) /\ trim l' = trim l.
Proof.
  intros Hl Htext.
  destruct (trimStart_lines s l Hl Htext) as (l1 & Hl1 & Heq1).
  destruct (trimEnd_lines (trimStart s) l1 Hl1) as (l2 & Hl2 & Heq2);
    [by rewrite Heq1|].
  exists l2. split; [done | congruence].
Qed.

End StringFacts.

#[local] Arguments Js.startsWith : simpl never.

(** ** Metadata extractor *)

Section ParserFacts.
Import Js SkillParser Reading.

Lemma collectDescription_cons (acc : list string) (line : string)
    (rest : list string) :
  collectDescription acc (line :: rest) =
  if isHeading (trim line) then collectDescription acc rest
  else if isBlankOrFence (trim line)
       then (if (0 <? length acc)%nat then acc else collectDescription acc rest)
       else if (3 <=? length (acc ++ [trim line]))%nat
            then (acc ++ [trim line])%list
            else collectDescription (acc ++ [trim line])%list rest.
Proof. reflexivity. Qed.

(** Once a line has been collected, the loop keeps the text lines up to the
    next blank line or fence, three lines at most. *)
Lemma collectDescription_started (lines acc : list string) :
  acc <> [] -> length acc < 3 ->
  collectDescription acc lines =
  take 3 (acc ++ List.filter (fun t => negb (isHeading t))
                   (takeWhile (fun t => negb (isBlankOrFence t))
                      (map trim lines)))%list.
Proof.
  revert acc. induction lines as [|line rest IH]; intros acc Hne Hlen.
  - simpl. rewrite app_nil_r. by rewrite take_ge by lia.
  - rewrite collectDescription_cons. simpl map. simpl takeWhile.
    destruct (isHeading (trim line)) eqn:Hh.
    + rewrite (heading_not_blank_or_fence _ Hh). simpl. rewrite Hh. simpl.
      by apply IH.
    + destruct (isBlankOrFence (trim line)) eqn:Hs; cbn [negb List.filter].
      * destruct acc; [done|]. rewrite app_nil_r.
        by rewrite take_ge by (simpl in *; lia).
      * rewrite Hh. cbn [negb].
        replace (acc ++ trim line :: List.filter (fun t => negb (isHeading t))
                     (takeWhile (fun t => negb (isBlankOrFence t))
                        (map trim rest)))%list
          with ((acc ++ [trim line]) ++
                List.filter (fun t => negb (isHeading t))
                  (takeWhile (fun t => negb (isBlankOrFence t))
                     (map trim rest)))%list
          by (by rewrite <- app_assoc).
        assert (length (acc ++ [trim line]) = S (length acc)) as Hlen'
          by (rewrite length_app; simpl; lia).
        destruct (Nat.leb_spec 3 (length (acc ++ [trim line]))) as [Hfull|Hfull].
        -- rewrite take_app_le by lia. by rewrite take_ge by lia.
        -- rewrite IH; [done | by destruct acc | lia].
Qed.

(** The loop of [extractDescription] computes [descriptionLines]. *)
Lemma collectDescription_lines (lines : list string) :
  collectDescription [] lines =
  take 3
    (List.filter (fun t => negb (isHeading t))
       (takeWhile (fun t => negb (isBlankOrFence t))
          (dropWhile (fun t => negb (isTextLine t)) (map trim lines)))).
Proof.
  induction lines as [|line rest IH]; [done|].
  rewrite collectDescription_cons. simpl map. simpl dropWhile.
  unfold isTextLine at 1.
  destruct (isHeading (trim line)) eqn:Hh; simpl; [done|].
  destruct (isBlankOrFence (trim line)) eqn:Hs; simpl; [done|].
  rewrite Hs. cbn [negb List.filter]. rewrite Hh. cbn [negb].
  by rewrite collectDescription_started by (simpl; done || lia).
Qed.

Lemma extractDescription_lines (body : string) :
  extractDescription body = sliceTo 300 (join " " (descriptionLines body)).
Proof.
  unfold extractDescription, descriptionLines, bodyLines.
  by rewrite collectDescription_lines.
Qed.

Lemma dropWhile_reaches {A} (p : A -> bool) (xs : list A) (x : A) :
  x ∈ xs -> p x = false ->
  exists y rest, dropWhile p xs = y :: rest /\ p y = false.
Proof.
  induction xs as [|a xs IH]; intros Hin Hx; [by apply elem_of_nil in Hin|].
  simpl. destruct (p a) eqn:Ha; [|by eauto].
  apply IH; [|done]. apply elem_of_cons in Hin as [->|]; [congruence|done].
Qed.

Lemma dropWhile_subset {A} (p : A -> bool) (xs : list A) (x : A) :
  x ∈ dropWhile p xs -> x ∈ xs.
Proof.
  induction xs as [|a xs IH]; simpl; [done|].
  destruct (p a); [|done]. intros H. apply elem_of_cons. right. by apply IH.
Qed.

Lemma takeWhile_subset {A} (p : A -> bool) (xs : list A) (x : A) :
  x ∈ takeWhile p xs -> x ∈ xs /\ p x = true.
Proof.
  induction xs as [|a xs IH]; simpl; [by intros H; apply elem_of_nil in H|].
  destruct (p a) eqn:Ha; [|by intros H; apply elem_of_nil in H].
  intros H. apply elem_of_cons in H as [->|H].
  - split; [apply elem_of_cons; by left | done].
  - destruct (IH H). split; [apply elem_of_cons; by right | done].
Qed.

Lemma descriptionLines_text (body t : string) :
  t ∈ descriptionLines body -> t ∈ bodyLines body /\ isTextLine t = true.
Proof.
  unfold descriptionLines. intros H.
  apply elem_of_take in H as (i & H & _).
  apply list_elem_of_lookup_2 in H.
  apply list_elem_of_In, filter_In in H as [H Hh].
  apply list_elem_of_In, takeWhile_subset in H as [H Hs].
  apply dropWhile_subset in H. split; [done|].
  unfold isTextLine. by rewrite Hh, Hs.
Qed.

Lemma join_starts (sep x : string) (rest : list string) :
  x <> "" -> join sep (x :: rest) <> "".
Proof.
  intros Hx. destruct x as [|c x]; [done|].
  destruct rest; simpl; done.
Qed.

Lemma sliceTo_nonempty (n : nat) (s : string) :
  s <> "" -> sliceTo (S n) s <> "".
Proof. by destruct s. Qed.

Lemma descriptionLines_nonempty (body : string) :
  (exists t, t ∈ bodyLines body /\ isTextLine t = true) ->
  exists t rest, descriptionLines body = t :: rest /\ t <> "".
Proof.
  intros (t & Hin & Ht). unfold descriptionLines.
  destruct (dropWhile_reaches (fun t => negb (isTextLine t)) _ t Hin)
    as (y & rest & -> & Hy); [by rewrite Ht|].
  apply negb_false_iff in Hy. unfold isTextLine in Hy.
  apply andb_true_iff in Hy as [Hh Hs]. simpl. rewrite Hs. simpl. rewrite Hh.
  simpl. eexists _, _. split; [done|].
  apply negb_true_iff in Hs. unfold isBlankOrFence in Hs.
  apply orb_false_iff in Hs as [Hs _]. by destruct y.
Qed.

(** A text line of the body is a text line of the trimmed body. *)
Lemma text_line_in_body (body : string) :
  (exists line, line ∈ splitLines body /\ isTextLine (trim line) = true) ->
  exists t, t ∈ bodyLines body /\ isTextLine t = true.
Proof.
  intros (line & Hin & Htext).
  destruct (trim_lines body line Hin) as (line' & Hin' & Heq).
  - intros Hempty. rewrite Hempty in Htext. done.
  - exists (trim line'). split; [|by rewrite Heq].
    unfold bodyLines. apply list_elem_of_fmap. by exists line'.
Qed.

(** C6 (as amended).  A manifest without a header block parses to the
    placeholder name and to the fallback description: the first text lines
    of the body (not blank, not a heading, not a code fence), where blank
    lines, fences and headings before the first text line are skipped,
    collection stops at the first blank line or fence after it, headings in
    between are left out and at most three lines are kept; the lines are
    joined with single spaces and cut to 300 characters.  The description
    is non-empty whenever the body has a text line. *)
Theorem parse_without_header (content : string) :
  extractFrontmatter content = None ->
  md_name (parseSkillMd content) = Some (YStr "Unknown Skill") /\
  md_description (parseSkillMd content)
    = Some (YStr (sliceTo 300 (join " " (descriptionLines content)))) /\
  length (descriptionLines content) <= 3 /\
  (forall t, t ∈ descriptionLines content ->
             t ∈ bodyLines content /\ isTextLine t = true) /\
  String.length (sliceTo 300 (join " " (descriptionLines content))) <= 300 /\
  ((exists line, line ∈ splitLines content /\ isTextLine (trim line) = true) ->
   sliceTo 300 (join " " (descriptionLines content)) <> "").
Proof.
  intros Hnone. unfold parseSkillMd. rewrite Hnone.
  cbn [md_name md_description]. rewrite extractDescription_lines.
  split; [done|]. split; [done|].
  split; [unfold descriptionLines; rewrite length_take; lia|].
  split; [apply descriptionLines_text|].
  split; [apply sliceTo_length|].
  intros Htext. apply text_line_in_body in Htext.
  destruct (descriptionLines_nonempty content Htext) as (t & rest & -> & Hne).
  by apply sliceTo_nonempty, join_starts.
Qed.

Lemma parse_without_header_witness :
  md_name (parseSkillMd headingThenText) = Some (YStr "Unknown Skill") /\
  md_description (parseSkillMd headingThenText)
    = Some (YStr "First line of text. Second line.").
Proof.
  destruct (parse_without_header headingThenText) as (Hname & Hdesc & _).
  - reflexivity.
  - split; [exact Hname | exact Hdesc].
Defined.

(** C6, as stated, fails.  A body whose only non-blank, non-heading line is
    a code fence gets the empty description; and a text line that follows
    the first blank line is used all the same. *)
Lemma parse_without_header_counterexample :
  (extractFrontmatter fenceOnly = None /\
   (exists line, line ∈ splitLines fenceOnly /\
                 isEmpty (trim line) = false /\ isHeading (trim line) = false) /\
   md_description (parseSkillMd fenceOnly) = Some (YStr "")) /\
  (extractFrontmatter headingThenText = None /\
   takeWhile (fun t => negb (isBlankOrFence t)) (bodyLines headingThenText)
     = ["# Title"] /\
   md_description (parseSkillMd headingThenText)
     = Some (YStr "First line of text. Second line.")).
Proof.
  split.
  - split; [reflexivity|]. split; [|reflexivity].
    exists "```". split; [|done].
    change (splitLines fenceOnly) with ["```"]. constructor.
  - split; [reflexivity|]. split; reflexivity.
Qed.

(** What [validateSkill] reports, case by case. *)
Lemma validateSkill_errors (metadata : SkillMetadata) :
  (isValid (validateSkill metadata) = true <->
   errors (validateSkill metadata) = []) /\
  (errors (validateSkill metadata) <> [] <->
   truthyValue (md_name metadata) = false \/
   md_name metadata = Some (YStr "Unknown Skill")) /\
  (truthyValue (md_description metadata) = false ->
   descriptionRecommended ∈ warnings (validateSkill metadata)).
Proof.
  unfold validateSkill. cbn [isValid errors warnings].
  split; [|split].
  - destruct (negb (truthyValue (md_name metadata))
              || isUnknownSkill (md_name metadata)); simpl; done.
  - destruct (md_name metadata) as [[s|items]|]; simpl.
    + destruct (String.eqb_spec s unknownSkill) as [->|Hne].
      * split; [by right | done].
      * rewrite orb_false_r. destruct s; simpl.
        -- split; [by left | done].
        -- split; [done | intros [?|[= ?]]; [done | exfalso; apply Hne; by subst]].
    + split; [done | intros [|]; done].
    + split; [by left | done].
  - intros ->. simpl. constructor.
Qed.

(** C7 (the code at the failing input).  A name with an underscore, a
    character the warning text does not allow, is accepted without a
    warning. *)
Theorem validateSkill_accepts_underscore :
  allChars namedInWarning "my_skill" = false /\
  validateSkill (metadataOf "my_skill" "A description")
    = {| isValid := true; errors := []; warnings := [] |}.
Proof. split; reflexivity. Qed.

(** The scalar names [parseSkillMd] returns are never empty. *)
Lemma parseSkillMd_name_not_empty_string (content : string) :
  md_name (parseSkillMd content) <> Some (YStr "").
Proof.
  unfold parseSkillMd.
  destruct (extractFrontmatter content) as [[frontmatter body]|]; [|done].
  cbn [md_name]. unfold orDefault.
  destruct (parseSimpleYaml frontmatter !! "name") as [[s|items]|]; simpl;
    [|done..].
  destruct s; simpl; done.
Qed.

(** C10 (the code at the failing input).  A header whose name has no value
    makes [parseSimpleYaml] store an empty list under [name]; the empty
    array is truthy, so the placeholder is not used. *)
Theorem parseSkillMd_empty_name_is_array :
  extractFrontmatter emptyNameHeader = Some ("name:", "") /\
  parseSimpleYaml "name:" !! "name" = Some (YArr []) /\
  md_name (parseSkillMd emptyNameHeader) = Some (YArr []).
Proof. repeat split; vm_compute; reflexivity. Qed.

Lemma someIncluded_spec (text : string) (patterns : list string) :
  someIncluded text patterns = true <->
  exists pattern, pattern ∈ patterns /\ occursIn pattern text.
Proof.
  unfold someIncluded. rewrite existsb_exists.
  split; intros (pattern & Hin & H); exists pattern.
  - by rewrite list_elem_of_In, <- includes_spec.
  - by rewrite <- list_elem_of_In, includes_spec.
Qed.

Lemma firstCategory_Some (text : string) (table : list (string * list string))
    (c : string) :
  firstCategory text table = Some c <->
  exists before patterns after,
    table = (before ++ (c, patterns) :: after)%list /\
    someIncluded text patterns = true /\
    Forall (fun entry => someIncluded text entry.2 = false) before.
Proof.
  induction table as [|[c' patterns'] table IH]; simpl.
  - split; [done|]. intros (before & ? & ? & H & _). by destruct before.
  - destruct (someIncluded text patterns') eqn:Hhit.
    + split.
      * intros [= <-]. by exists [], patterns', table.
      * intros (before & patterns & after & Heq & Hp & Hb).
        destruct before as [|b before]; simpl in Heq.
        -- by injection Heq as -> _ _.
        -- injection Heq as <- _. apply Forall_cons in Hb as [Hb _].
           simpl in Hb. congruence.
    + rewrite IH. split.
      * intros (before & patterns & after & -> & Hp & Hb).
        exists ((c', patterns') :: before), patterns, after.
        split; [done|]. split; [done|]. by apply Forall_cons.
      * intros (before & patterns & after & Heq & Hp & Hb).
        destruct before as [|b before]; simpl in Heq.
        -- injection Heq as _ <- _. congruence.
        -- injection Heq as _ ->. apply Forall_cons in Hb as [_ Hb].
           by exists before, patterns, after.
Qed.

Lemma firstCategory_None (text : string) (table : list (string * list string)) :
  firstCategory text table = None <->
  Forall (fun entry => someIncluded text entry.2 = false) table.
Proof.
  induction table as [|[c patterns] table IH]; simpl.
  - split; [by constructor | done].
  - destruct (someIncluded text patterns) eqn:Hhit.
    + split; [done|]. intros H. apply Forall_cons in H as [H _].
      simpl in H. congruence.
    + rewrite IH. split; [by constructor | by intros H; apply Forall_cons in H as [_ H]].
Qed.

Lemma someIncluded_false (text : string) (patterns : list string) :
  someIncluded text patterns = false <->
  forall pattern, pattern ∈ patterns -> ~ occursIn pattern text.
Proof.
  rewrite <- not_true_iff_false, someIncluded_spec. split.
  - intros H pattern Hin Hocc. apply H. by exists pattern.
  - intros H (pattern & Hin & Hocc). by apply (H pattern).
Qed.

(** C8 (as amended).  Category inference lower-cases the name and the path
    joined by one space, and tests the text against the table in its order
    security, engineering, testing, documentation, devops, database,
    creative, utility: the result is the first category one of whose
    keywords occurs in the text, and no category when no keyword occurs. *)
Theorem inferCategory_first_match (skillName path : string) :
  let text := toLowerCase (skillName +:+ " " +:+ path) in
  map fst categoryPatterns
    = ["security"; "engineering"; "testing"; "documentation";
       "devops"; "database"; "creative"; "utility"] /\
  (forall c,
     inferCategory skillName path = Some c <->
     exists before keywords after,
       categoryPatterns = (before ++ (c, keywords) :: after)%list /\
       (exists keyword, keyword ∈ keywords /\ occursIn keyword text) /\
       (forall entry keyword,
          entry ∈ before -> keyword ∈ entry.2 -> ~ occursIn keyword text)) /\
  (inferCategory skillName path = None <->
   forall entry keyword,
     entry ∈ categoryPatterns -> keyword ∈ entry.2 ->
     ~ occursIn keyword text).
Proof.
  intros text. split; [reflexivity|]. unfold inferCategory. fold text. split.
  - intros c. rewrite firstCategory_Some.
    split; intros (before & keywords & after & Heq & Hhit & Hmiss);
      exists before, keywords, after; (split; [done|]).
    + split; [by apply someIncluded_spec|].
      intros entry keyword Hentry Hkw.
      rewrite Forall_forall in Hmiss.
      by apply (proj1 (someIncluded_false _ _) (Hmiss entry Hentry)).
    + split; [by apply someIncluded_spec|].
      apply Forall_forall. intros entry Hentry.
      apply someIncluded_false. intros keyword. by apply Hmiss.
  - rewrite firstCategory_None, Forall_forall. split.
    + intros H entry keyword Hentry.
      by apply (proj1 (someIncluded_false _ _) (H entry Hentry)).
    + intros H entry Hentry. apply someIncluded_false.
      intros keyword. by apply H.
Qed.

(** Substrings count: "doc" occurs in "docker", and documentation comes
    before devops. *)
Example inferCategory_docker :
  inferCategory "Docker Deploy" "" = Some "documentation".
Proof. reflexivity. Qed.

(** C8, as stated, fails: when the name and the path are concatenated with
    nothing between them, a keyword can appear across the seam. *)
Lemma inferCategory_counterexample :
  inferCategory "red" "is" = None /\
  inferCategoryOfConcatenation "red" "is" = Some "database".
Proof. split; reflexivity. Qed.

End ParserFacts.

(** ** Bundle discovery *)

Section DiscoveryFacts.
Import Js Models GitHubService Reading Examples.

Lemma append_inv_head (p a b : string) : p +:+ a = p +:+ b -> a = b.
Proof. induction p as [|c p IH]; simpl; [done|]. intros [= H]. by apply IH. Qed.

Lemma skillFileOf_Some (skillPath : string) (node : TreeNode) (f : SkillFile) :
  skillFileOf skillPath node = Some f ->
  sf_path f = node_path node /\
  node_path node = skillPrefix skillPath +:+ sf_name f /\
  includes "/" (sf_name f) = false /\
  sf_type f = match node_type node with Tree => Directory | Blob => File end.
Proof.
  unfold skillFileOf, skillPrefix.
  destruct skillPath as [|c skillPath]; cbn [truthy isEmpty negb andb].
  - change (startsWith "" (node_path node)) with true. cbn [orb].
    destruct (includes "/" (node_path node)) eqn:Hsep; [done|].
    by intros [= <-].
  - rewrite orb_false_r.
    destruct (startsWith _ (node_path node)) eqn:Hsel; [|done].
    destruct (includes "/" (sliceFrom _ (node_path node))) eqn:Hsep; [done|].
    intros [= <-]. cbn [sf_path sf_name sf_type].
    split; [done|]. split; [by apply startsWith_sliceFrom | done].
Qed.

Lemma getSkillFiles_sublist (nodes : list TreeNode) (skillPath : string) :
  map sf_path (omap (skillFileOf skillPath) nodes)
    `sublist_of` map node_path nodes.
Proof.
  induction nodes as [|node nodes IH]; simpl; [done|].
  destruct (skillFileOf skillPath node) as [f|] eqn:Hf; simpl.
  - apply skillFileOf_Some in Hf as [-> _]. by apply sublist_skip.
  - by apply sublist_cons.
Qed.

(** C4.  The entries listed for a bundle directory are nodes of the tree,
    each at most once; the relative path of an entry (its path without the
    directory prefix, the whole path for the root bundle) has no separator;
    an entry is of kind [directory] exactly when its node is a tree; and no
    entry lies below another entry, so a subdirectory is one entry and its
    contents are not listed. *)
Theorem getSkillFiles_direct_children (tree : RepositoryTree)
    (skillPath : string) (f : SkillFile) :
  f ∈ getSkillFiles tree skillPath ->
  map sf_path (getSkillFiles tree skillPath)
    `sublist_of` map node_path (tree_nodes tree) /\
  sf_path f = skillPrefix skillPath +:+ sf_name f /\
  ~ occursIn "/" (sf_name f) /\
  (exists node, node ∈ tree_nodes tree /\ node_path node = sf_path f /\
                (sf_type f = Directory <-> node_type node = Tree)) /\
  (forall g rest, g ∈ getSkillFiles tree skillPath ->
                  sf_path f <> sf_path g +:+ "/" +:+ rest).
Proof.
  unfold getSkillFiles. intros Hf.
  split; [apply getSkillFiles_sublist|].
  apply list_elem_of_omap in Hf as (node & Hnode & Hf).
  apply skillFileOf_Some in Hf as (Hpath & Hrel & Hsep & Htype).
  apply includes_false in Hsep.
  split; [congruence|]. split; [done|]. split.
  - exists node. split; [done|]. split; [done|].
    rewrite Htype. by destruct (node_type node).
  - intros g rest Hg Heq.
    apply list_elem_of_omap in Hg as (node' & _ & Hg).
    apply skillFileOf_Some in Hg as (Hpath' & Hrel' & _).
    rewrite Hpath, Hpath', Hrel, Hrel', append_assoc in Heq.
    apply append_inv_head in Heq. apply Hsep.
    exists (sf_name g), rest. by rewrite Heq.
Qed.

Lemma getSkillFiles_direct_children_witness :
  map sf_name (getSkillFiles demoTree "skills/a") = ["SKILL.md"; "run.sh"; "lib"] /\
  ~ occursIn "/" (sf_name libEntry) /\
  (forall g rest, g ∈ getSkillFiles demoTree "skills/a" ->
                  sf_path libEntry <> sf_path g +:+ "/" +:+ rest).
Proof.
  split; [reflexivity|].
  destruct (getSkillFiles_direct_children demoTree "skills/a" libEntry)
    as (_ & _ & Hsep & _ & Hflat).
  - apply list_elem_of_In. vm_compute. tauto.
  - split; [exact Hsep | exact Hflat].
Defined.

End DiscoveryFacts.

(** ** Remote tree cache *)

Section CacheFacts.
Import Js Models GitHubService Examples.

Context {T : Type}.
Variable token : string.
Variable cacheExpiry : Z.
Variable fetch : Request -> Reply T.

(** C3.  An unexpired entry is returned as it is, and the service state,
    with the list of requests sent, does not change.  An expired entry
    whose validator is answered by 304 is returned too: one conditional
    request is sent, the payload and the validator of the entry stay, the
    other entries stay, and the expiry becomes the current time plus the
    configured time to live, which is not earlier than the old expiry (and
    later, when the time to live is positive). *)
Theorem refetch_uses_cache (url cacheKey : string) (st : ServiceState T)
    (c : CacheEntry T) :
  cache st !! cacheKey = Some c ->
  ((now st < expiresAt c)%Z ->
   fetchWithCache token cacheExpiry fetch url cacheKey st = (Ok (data c), st)) /\
  ((expiresAt c <= now st)%Z ->
   forall validator response,
     etag c = Some validator ->
     outcome (fetch (conditionalRequest token url (Some validator)))
       = Some response ->
     status response = 304%Z ->
     let r := fetchWithCache token cacheExpiry fetch url cacheKey st in
     r.1 = Ok (data c) /\
     cache r.2 !! cacheKey
       = Some {| data := data c;
                 expiresAt := (now r.2 + cacheExpiry)%Z;
                 etag := etag c |} /\
     (forall k, k <> cacheKey -> cache r.2 !! k = cache st !! k) /\
     requests r.2
       = conditionalRequest token url (Some validator) :: requests st /\
     ((0 <= cacheExpiry)%Z -> (expiresAt c <= now r.2 + cacheExpiry)%Z) /\
     ((0 < cacheExpiry)%Z -> (expiresAt c < now r.2 + cacheExpiry)%Z)).
Proof.
  intros Hc. split.
  - intros Hfresh. unfold fetchWithCache, cacheHit. rewrite Hc.
    by rewrite (proj2 (Z.ltb_lt _ _) Hfresh).
  - intros Hexpired validator response Hetag Hreply H304 r. subst r.
    unfold fetchWithCache, cacheHit. rewrite Hc.
    rewrite (proj2 (Z.ltb_ge _ _) Hexpired).
    cbn [mbind option_bind]. rewrite Hetag.
    rewrite Hreply.
    unfold notModified. rewrite H304, Z.eqb_refl.
    cbn [fst snd setCache cache now requests rateLimitInfo].
    split; [done|]. split; [rewrite lookup_insert_eq; by rewrite ?Hetag|].
    split; [by intros k Hk; rewrite lookup_insert_ne|].
    split; [done|]. lia.
Qed.

(** C5 (as amended).  A fetch that is answered by a failure status is
    reported as quota exhaustion, carrying the recorded reset time, when
    the status is 403 and the recorded remaining quota is zero; every other
    failure status is reported as the generic HTTP failure with the status
    line, whatever the remaining quota.  The two failures are different
    constructors. *)
Theorem quota_exhausted_needs_403 (url cacheKey : string)
    (st : ServiceState T) (response : Response T) :
  cacheHit (cache st !! cacheKey) (now st) = None ->
  outcome (fetch (conditionalRequest token url (cache st !! cacheKey ≫= etag)))
    = Some response ->
  ok response = false ->
  notModified (cache st !! cacheKey) response = None ->
  let info := updateRateLimit (resp_headers response) (rateLimitInfo st) in
  let r := fetchWithCache token cacheExpiry fetch url cacheKey st in
  rateLimitInfo r.2 = info /\
  cache r.2 = cache st /\
  (status response = 403%Z -> quotaIsZero info = true ->
   r.1 = Throw (RateLimitExceeded (info ≫= reset))) /\
  (status response <> 403%Z \/ quotaIsZero info = false ->
   r.1 = Throw (ApiError (status response) (statusText response))).
Proof.
  intros Hmiss Hreply Hfail Hmod info r. subst r info.
  unfold fetchWithCache. rewrite Hmiss, Hreply, Hmod, Hfail.
  cbn [negb rateLimitInfo].
  destruct (status response =? 403)%Z eqn:H403;
    destruct (quotaIsZero _) eqn:Hzero; cbn [andb fst snd rateLimitInfo cache];
    (split; [done|]); (split; [done|]); split; try done.
  all: try (intros H; by apply Z.eqb_neq in H403).
  intros [H|H]; [|done]. by apply Z.eqb_eq in H403.
Qed.

End CacheFacts.

Section CacheInstances.
Import Js Models GitHubService Examples.

Lemma refetch_uses_cache_witness :
  fetchWithCache "" 3600000 (answering 304 "Not Modified" "59")
      treeUrl treeKey (serviceAt 1000)
    = (Ok "payload", serviceAt 1000) /\
  (let r := fetchWithCache "" 3600000 (answering 304 "Not Modified" "59")
              treeUrl treeKey (serviceAt 9000) in
   r.1 = Ok "payload" /\
   cache r.2 !! treeKey
     = Some {| data := "payload"; expiresAt := 3609120; etag := Some "W/abc" |} /\
   length (requests r.2) = 1).
Proof.
  split.
  - apply (refetch_uses_cache "" 3600000 (answering 304 "Not Modified" "59")
             treeUrl treeKey (serviceAt 1000) cachedEntry); reflexivity.
  - destruct (proj2 (refetch_uses_cache "" 3600000
                       (answering 304 "Not Modified" "59")
                       treeUrl treeKey (serviceAt 9000) cachedEntry eq_refl))
      with (validator := "W/abc")
           (response := {| status := 304%Z; statusText := "Not Modified";
                           resp_headers := rateLimitHeaders "59";
                           resp_json := @None string; resp_bodyTime := 0%N |})
      as (Hr & Hc & _ & Hreq & _); [done | reflexivity.. |].
    split; [exact Hr|]. split; [exact Hc|]. by rewrite Hreq.
Defined.

Lemma quota_exhausted_needs_403_witness :
  (fetchWithCache "" 3600000 (answering 403 "Forbidden" "0")
     treeUrl treeKey emptyService).1
  = Throw (RateLimitExceeded (Some 1700000000000%Z)).
Proof.
  destruct (quota_exhausted_needs_403 "" 3600000
              (answering 403 "Forbidden" "0") treeUrl treeKey emptyService
              {| status := 403%Z; statusText := "Forbidden";
                 resp_headers := rateLimitHeaders "0";
                 resp_json := @None string; resp_bodyTime := 0%N |})
    as (_ & _ & H & _); [reflexivity..|].
  apply H; reflexivity.
Defined.

(** C5, as stated, fails: a 404 answered while the recorded remaining quota
    is zero is reported as the generic HTTP failure. *)
Lemma quota_exhausted_counterexample :
  let r := fetchWithCache "" 3600000 (answering 404 "Not Found" "0")
             treeUrl treeKey emptyService in
  quotaIsZero (rateLimitInfo r.2) = true /\
  r.1 = Throw (ApiError 404 "Not Found") /\
  (forall resetsAt, r.1 <> Throw (RateLimitExceeded resetsAt)).
Proof. repeat split; try reflexivity. intros resetsAt. vm_compute. discriminate. Qed.

End CacheInstances.

(** ** The local file system *)

Section FsFacts.
Import Fs.

Lemma rm_below (f : FS) (p q : Path) :
  p `prefix_of` q -> rm f p !! q = None.
Proof.
  intros Hpq. unfold rm. apply map_lookup_filter_None. right.
  intros x _ H. by apply H.
Qed.

Lemma rm_outside (f : FS) (p q : Path) :
  ~ p `prefix_of` q -> rm f p !! q = f !! q.
Proof.
  intros Hpq. unfold rm. destruct (f !! q) as [x|] eqn:Hq.
  - by apply map_lookup_filter_Some.
  - apply map_lookup_filter_None. by left.
Qed.

Lemma mkdirAncestors_present (f : FS) (reversed : list string) :
  f !! rev reversed = Some DirNode -> mkdirAncestors f reversed = inr f.
Proof. intros H. destruct reversed; simpl in *; by rewrite H. Qed.

(** Creating a directory that exists changes nothing. *)
Lemma mkdir_present (f : FS) (p : Path) :
  isDirectory f p = true -> mkdir f p = inr f.
Proof.
  unfold isDirectory, mkdir. destruct (f !! p) as [[]|] eqn:Hp; try done.
  intros _. apply mkdirAncestors_present. by rewrite rev_involutive.
Qed.

Lemma joinSegments_below (segments : list string) (root base : Path) :
  ".." ∉ segments -> root `prefix_of` base ->
  root `prefix_of` fold_left joinSegment segments base.
Proof.
  revert base. induction segments as [|segment rest IH]; intros base Hno Hbase;
    [done|].
  simpl. apply IH.
  - intros Hin. apply Hno. by right.
  - unfold joinSegment.
    destruct (String.eqb segment "" || String.eqb segment "."); [done|].
    destruct (String.eqb_spec segment "..") as [->|_].
    + exfalso. apply Hno. by left.
    + by apply prefix_app_r.
Qed.

(** A local directory named without [..] lies below the install root, so
    in a well-formed file system the install root exists when it does. *)
Lemma local_directory_below_root (f : FS) (root : Path) (name : string) :
  wellFormed f -> ".." ∉ Js.split "/"%char name ->
  isDirectory f (join root name) = true -> isDirectory f root = true.
Proof.
  intros Hwf Hno Hlocal.
  assert (root `prefix_of` join root name) as Hbelow
    by (by apply joinSegments_below).
  unfold isDirectory in *.
  destruct (f !! join root name) as [[]|] eqn:Hnode; try done.
  destruct (decide (root = join root name)) as [Heq|Hne].
  - by rewrite Heq, Hnode.
  - by rewrite (Hwf _ _ _ Hnode Hbelow Hne).
Qed.

End FsFacts.

(** ** Installer *)

Section InstallerFacts.
Import Js Models Fs SkillInstaller Examples.

Variable installPath : Path.
Variable downloadFile : string -> string -> Fetched string.
Variable fetchRepositoryTree : string -> Fetched RepositoryTree.
Variable metadataJson : Skill -> string.

Abbreviation getSkillLocalPath := (SkillInstaller.getSkillLocalPath installPath).
Abbreviation materialize :=
  (SkillInstaller.materialize installPath downloadFile fetchRepositoryTree).
Abbreviation install :=
  (SkillInstaller.install installPath downloadFile fetchRepositoryTree
     metadataJson).
Abbreviation uninstall := (SkillInstaller.uninstall installPath).
Abbreviation downloadDirectory :=
  (SkillInstaller.downloadDirectory downloadFile fetchRepositoryTree).
Abbreviation enoughFuel := (SkillInstaller.enoughFuel fetchRepositoryTree).

(** C9.  When the local directory of the bundle exists, [uninstall]
    removes it with everything below it and leaves every other path as it
    was; when it does not exist, and only then, [uninstall] fails with the
    message that the skill is not installed, and the file system is
    unchanged. *)
Theorem uninstall_removes_or_rejects (s : Skill) (w : World) :
  let localPath := getSkillLocalPath s in
  if isDirectory (fs w) localPath
  then
    uninstall s w
      = (Ok tt, {| fs := rm (fs w) localPath;
                   log := FsRm localPath :: FsStat localPath :: log w |}) /\
    (forall q, localPath `prefix_of` q -> rm (fs w) localPath !! q = None) /\
    (forall q, ~ localPath `prefix_of` q ->
               rm (fs w) localPath !! q = fs w !! q)
  else
    uninstall s w
      = (Throw (JsError ("Skill " +:+ name s +:+ " is not installed")),
         {| fs := fs w; log := FsStat localPath :: log w |}).
Proof.
  intros localPath.
  unfold SkillInstaller.uninstall, SkillInstaller.isInstalled, fsIsDirectory,
    fsRm, bind, emit, getFs, setFs, ret, throw.
  cbn [fs log]. fold localPath.
  destruct (isDirectory (fs w) localPath).
  - split; [done|]. split; [apply rm_below | apply rm_outside].
  - done.
Qed.

(** C1 (as amended).  When the local directory of the bundle exists, and
    the install root exists, [install] returns, without throwing, the
    failure result whose error is "Skill is already installed"; the file
    system is unchanged; and the only calls made are the [mkdir] of the
    install root and the [stat] of the local directory: no write, no
    removal, no call of the remote service. *)
Theorem install_already_installed (fuel : nat) (s : Skill) (w : World) :
  isDirectory (fs w) installPath = true ->
  isDirectory (fs w) (getSkillLocalPath s) = true ->
  install fuel s w
    = (Ok {| success := false; skill := s;
             localPath := Some (getSkillLocalPath s);
             error := Some "Skill is already installed" |},
       {| fs := fs w;
          log := FsStat (getSkillLocalPath s) :: FsMkdir installPath :: log w |}).
Proof.
  intros Hroot Hlocal.
  unfold SkillInstaller.install, SkillInstaller.materialize,
    ensureInstallDirectory, SkillInstaller.isInstalled, fsIsDirectory,
    fsMkdir, tryCatch, bind, emit, getFs, setFs, ret.
  cbn [fs log]. rewrite (mkdir_present _ _ Hroot). cbn [fs log].
  by rewrite Hlocal.
Qed.

(** *** What the steps add to the log *)

















(** *** Termination of the recursive download *)

Lemma length_append (a b : string) :
  String.length (a +:+ b) = String.length a + String.length b.
Proof. induction a as [|c a IH]; simpl; [done | by rewrite IH]. Qed.

Lemma longestPath_bound (t : RepositoryTree) (node : TreeNode) :
  node ∈ tree_nodes t -> String.length (node_path node) <= longestPath t.
Proof.
  unfold longestPath. induction (tree_nodes t) as [|n nodes IH]; intros Hin.
  - by apply elem_of_nil in Hin.
  - simpl. apply elem_of_cons in Hin as [->|Hin]; [lia|].
    specialize (IH Hin). lia.
Qed.

Lemma finishes_bind {A B} (m : M A) (k : A -> M B) :
  finishes m ->
  (forall w a w', m w = (Ok a, w') -> (k a w').1 <> OutOfFuel) ->
  finishes (bind m k).
Proof.
  intros Hm Hk w. unfold bind. specialize (Hm w).
  destruct (m w) as [[a|e|] w1] eqn:Hrun; cbn [fst] in *; [|done..].
  by apply (Hk w).
Qed.

Lemma finishes_tryCatch {A} (m : M A) (handler : Exn -> M A) :
  finishes m -> (forall e, finishes (handler e)) ->
  finishes (tryCatch m handler).
Proof.
  intros Hm Hh w. unfold tryCatch. specialize (Hm w).
  destruct (m w) as [[a|e|] w1]; cbn [fst] in *; [done|apply Hh|done].
Qed.

Lemma finishes_forEach {A} (xs : list A) (body : A -> M unit) :
  (forall x, x ∈ xs -> finishes (body x)) -> finishes (forEach xs body).
Proof.
  induction xs as [|x xs IH]; intros Hbody; simpl; [done|].
  apply finishes_bind.
  - apply Hbody. by left.
  - intros w [] w' _. apply IH. intros y Hy. apply Hbody. by right.
Qed.

Lemma fsMkdir_finishes (p : Path) : finishes (fsMkdir p).
Proof.
  intros w. unfold fsMkdir, bind, emit, getFs, setFs, throw. cbn [fs].
  by destruct (mkdir (fs w) p).
Qed.

Lemma fsWriteFile_finishes (p : Path) (content : string) :
  finishes (fsWriteFile p content).
Proof.
  intros w. unfold fsWriteFile, bind, emit, getFs, setFs, throw. cbn [fs].
  by destruct (writeFile (fs w) p content).
Qed.

Lemma netDownloadFile_finishes (repo path : string) :
  finishes (netDownloadFile downloadFile repo path).
Proof.
  intros w. unfold netDownloadFile, bind, emit, ret, throw.
  by destruct (downloadFile repo path).
Qed.

Lemma download_then_write_finishes (repo path : string) (p : Path) :
  finishes (bind (netDownloadFile downloadFile repo path) (fsWriteFile p)).
Proof.
  apply finishes_bind; [apply netDownloadFile_finishes|].
  intros w content w' _. apply fsWriteFile_finishes.
Qed.

Lemma downloadDirectory_finishes (fuel : nat) (repo remotePath : string)
    (localPath : Path) :
  1 <= fuel ->
  (forall t, fetchRepositoryTree repo = Got t ->
             longestPath t + 2 <= fuel + String.length remotePath) ->
  finishes (downloadDirectory fuel repo remotePath localPath).
Proof.
  revert remotePath localPath.
  induction fuel as [|fuel IH]; intros remotePath localPath Hpos Hbound;
    [lia|].
  cbn [SkillInstaller.downloadDirectory].
  apply finishes_bind; [apply fsMkdir_finishes|]. intros w0 [] w1 _.
  unfold bind at 1, netFetchRepositoryTree, bind at 1, emit, ret, throw.
  destruct (fetchRepositoryTree repo) as [t|m] eqn:Htree; [|done].
  specialize (Hbound t eq_refl).
  apply finishes_forEach. intros node Hnode. unfold downloadNode.
  destruct (startsWith _ _) eqn:Hprefix; [|done].
  destruct (includes _ _); [done|].
  destruct (node_type node); [apply download_then_write_finishes|].
  apply startsWith_spec in Hprefix as [rest Hpath].
  pose proof (longestPath_bound t node Hnode) as Hlen.
  rewrite Hpath, !length_append in Hlen. simpl in Hlen.
  apply IH; [lia|]. intros t' Ht'.
  injection Ht' as <-.
  rewrite Hpath, !length_append. simpl. lia.
Qed.

Lemma materialize_finishes (fuel : nat) (s : Skill) :
  enoughFuel s <= fuel -> finishes (materialize fuel s).
Proof.
  intros Hfuel. unfold SkillInstaller.materialize.
  apply finishes_bind.
  { unfold ensureInstallDirectory. apply finishes_tryCatch;
      [apply fsMkdir_finishes|]. by intros [[]|]. }
  intros w0 [] w1 _. apply finishes_bind; [done|].
  intros w2 installed w3 _. destruct installed; [done|].
  apply finishes_bind; [apply fsMkdir_finishes|]. intros w4 [] w5 _.
  apply finishes_bind.
  { apply finishes_forEach. intros file _. unfold downloadSkillFile.
    apply finishes_tryCatch; [apply download_then_write_finishes|done]. }
  intros w6 [] w7 _. apply finishes_bind; [|done].
  apply finishes_forEach. intros dir _.
  unfold SkillInstaller.enoughFuel in Hfuel.
  apply downloadDirectory_finishes.
  - destruct (fetchRepositoryTree (repository s)); lia.
  - intros t Ht. rewrite Ht in Hfuel. lia.
Qed.

(** *** Verification and rollback *)

Lemma bind_Ok {A B} (m : M A) (k : A -> M B) (w w2 : World) (b : B) :
  bind m k w = (Ok b, w2) ->
  exists a w1, m w = (Ok a, w1) /\ k a w1 = (Ok b, w2).
Proof.
  unfold bind. destruct (m w) as [[a|e|] w1]; [by eauto|done..].
Qed.

Lemma materialize_path (fuel : nat) (s : Skill) (w w2 : World)
    (reached : Path) :
  materialize fuel s w = (Ok (Some reached), w2) ->
  reached = getSkillLocalPath s.
Proof.
  unfold SkillInstaller.materialize. intros H.
  apply bind_Ok in H as (_ & w1 & _ & H).
  apply bind_Ok in H as (installed & w3 & _ & H).
  destruct installed; [done|].
  apply bind_Ok in H as (_ & w4 & _ & H).
  apply bind_Ok in H as (_ & w5 & _ & H).
  apply bind_Ok in H as (_ & w6 & _ & H).
  by injection H as <- _.
Qed.

Lemma install_run (fuel : nat) (s : Skill) (w : World) :
  install fuel s w =
  match materialize fuel s w with
  | (Ok (Some reached), w2) =>
      match verify metadataJson s reached w2 with
      | (Throw e, w3) =>
          (Ok {| success := false; skill := s; localPath := None;
                 error := Some (message e) |}, w3)
      | r => r
      end
  | (Ok None, w2) =>
      (Ok {| success := false; skill := s;
             localPath := Some (getSkillLocalPath s);
             error := Some alreadyInstalled |}, w2)
  | (Throw e, w2) =>
      (Ok {| success := false; skill := s; localPath := None;
             error := Some (message e) |}, w2)
  | (OutOfFuel, w2) => (OutOfFuel, w2)
  end.
Proof.
  unfold SkillInstaller.install, tryCatch, bind.
  by destruct (materialize fuel s w) as [[[reached|]|e|] w2].
Qed.

Lemma verify_run (s : Skill) (localPath : Path) (w : World) :
  verify metadataJson s localPath w =
  let manifest := join localPath "SKILL.md" in
  let sidecar := join localPath ".skill-manager.json" in
  if access (fs w) manifest then
    match writeFile (fs w) sidecar (metadataJson s) with
    | inr f =>
        (Ok {| success := true; skill := s;
               localPath := Some localPath; error := None |},
         {| fs := f;
            log := FsWriteFile sidecar :: FsAccess manifest :: log w |})
    | inl code =>
        (Throw (FsError code "open" sidecar),
         {| fs := fs w;
            log := FsWriteFile sidecar :: FsAccess manifest :: log w |})
    end
  else
    (Ok {| success := false; skill := s; localPath := None;
           error := Some manifestNotFound |},
     {| fs := rm (fs w) localPath;
        log := FsRm localPath :: FsAccess manifest :: log w |}).
Proof.
  unfold verify, fsAccess, fsRm, saveInstallMetadata, fsWriteFile, bind,
    emit, getFs, setFs, ret, throw.
  cbv zeta. cbn [fs log].
  destruct (access (fs w) (join localPath "SKILL.md")); [|done].
  cbn [fs log]. by destruct (writeFile (fs w) _ _).
Qed.

(** With the bound [enoughFuel], [install] always returns a result. *)
Lemma install_terminates (fuel : nat) (s : Skill) (w : World) :
  enoughFuel s <= fuel -> exists r w', install fuel s w = (Ok r, w').
Proof.
  intros Hfuel. rewrite install_run.
  pose proof (materialize_finishes fuel s Hfuel w) as Hends.
  destruct (materialize fuel s w) as [[[reached|]|e|] w2]; [|by eauto..|done].
  rewrite verify_run. cbv zeta.
  destruct (access (fs w2) _); [|by eauto].
  destruct (writeFile (fs w2) _ _); by eauto.
Qed.


End InstallerFacts.

Section InstallerInstances.
Import Js Models Fs SkillInstaller Examples InstallExamples.

Lemma install_already_installed_witness :
  install installRoot serveAll serveTree noMetadata 0 (demoSkill "A Skill")
    withBundle
  = (Ok {| success := false; skill := demoSkill "A Skill";
           localPath := Some ["home"; "u"; "skills"; "a-skill"];
           error := Some "Skill is already installed" |},
     {| fs := fs withBundle;
        log := [ FsStat ["home"; "u"; "skills"; "a-skill"];
                 FsMkdir ["home"; "u"; "skills"] ] |}).
Proof.
  apply (install_already_installed installRoot serveAll serveTree noMetadata
           0 (demoSkill "A Skill") withBundle); reflexivity.
Defined.

(** C1, as stated, fails twice.  The result for an installed bundle is a
    failure carrying an error; and for a display name that leads out of a
    missing install root the install root is created before the bundle is
    found installed. *)
Lemma install_already_installed_counterexample :
  (isDirectory (fs withBundle)
     (getSkillLocalPath installRoot (demoSkill "A Skill")) = true /\
   (install installRoot serveAll serveTree noMetadata 0
      (demoSkill "A Skill") withBundle).1
   = Ok {| success := false; skill := demoSkill "A Skill";
           localPath := Some ["home"; "u"; "skills"; "a-skill"];
           error := Some "Skill is already installed" |}) /\
  (isDirectory (fs homeOnly)
     (getSkillLocalPath installRoot (demoSkill "..")) = true /\
   (install installRoot serveAll serveTree noMetadata 0
      (demoSkill "..") homeOnly).1
   = Ok {| success := false; skill := demoSkill "..";
           localPath := Some ["home"; "u"];
           error := Some "Skill is already installed" |} /\
   fs homeOnly !! installRoot = None /\
   fs (install installRoot serveAll serveTree noMetadata 0
         (demoSkill "..") homeOnly).2 !! installRoot = Some DirNode).
Proof. repeat split; vm_compute; reflexivity. Qed.


(** A bundle whose manifest cannot be downloaded: the other files and the
    subdirectory are written, then everything is removed again. *)
Example install_without_manifest :
  let run := install installRoot (serveAllBut "skills/a/SKILL.md") serveTree
               noMetadata 3 (demoSkill "A Skill") homeOnly in
  run.1 = Ok {| success := false; skill := demoSkill "A Skill";
                localPath := None;
                error := Some "SKILL.md not found in skill directory" |} /\
  FsWriteFile ["home"; "u"; "skills"; "a-skill"; "lib"; "x.js"] ∈ log run.2 /\
  fs run.2 !! ["home"; "u"; "skills"; "a-skill"] = None /\
  fs run.2 !! ["home"; "u"; "skills"; "a-skill"; "lib"; "x.js"] = None /\
  fs run.2 !! installRoot = Some DirNode.
Proof.
  repeat split; try (vm_compute; reflexivity).
  apply list_elem_of_In. vm_compute. tauto.
Qed.

(** A bundle one of whose other files cannot be downloaded is installed
    without that file, and nothing is removed. *)
Example install_without_asset :
  let run := install installRoot (serveAllBut "skills/a/run.sh") serveTree
               noMetadata 3 (demoSkill "A Skill") homeOnly in
  run.1 = Ok {| success := true; skill := demoSkill "A Skill";
                localPath := Some ["home"; "u"; "skills"; "a-skill"];
                error := None |} /\
  existsb isRollback (log run.2) = false /\
  fs run.2 !! ["home"; "u"; "skills"; "a-skill"; "run.sh"] = None /\
  fs run.2 !! ["home"; "u"; "skills"; "a-skill"; "SKILL.md"]
    = Some (FileNode "content of skills/a/SKILL.md").
Proof. repeat split; vm_compute; reflexivity. Qed.

(** Uninstalling the installed bundle, and uninstalling it once more. *)
Example uninstall_twice :
  let first := uninstall installRoot (demoSkill "A Skill") withBundle in
  let second := uninstall installRoot (demoSkill "A Skill") first.2 in
  first.1 = Ok tt /\
  fs first.2 !! ["home"; "u"; "skills"; "a-skill"; "SKILL.md"] = None /\
  second.1 = Throw (JsError "Skill A Skill is not installed") /\
  fs second.2 = fs first.2.
Proof. repeat split; vm_compute; reflexivity. Qed.

End InstallerInstances.

(** * Further properties *)

(** ** Steps of the file system *)

Section FsSteps.
Import Js Fs Batch.

Lemma mkdirAncestors_unfold (f : FS) (reversed : list string) :
  mkdirAncestors f reversed =
  match f !! rev reversed with
  | Some DirNode => inr f
  | Some (FileNode _) => inl ENOTDIR
  | None =>
      match reversed with
      | [] => inr (<[ [] := DirNode ]> f)
      | _ :: parent =>
          match mkdirAncestors f parent with
          | inr f' => inr (<[ rev reversed := DirNode ]> f')
          | inl e => inl e
          end
      end
  end.
Proof. by destruct reversed. Qed.

(** [mkdir] only adds entries. *)
Lemma mkdirAncestors_keeps (f f' : FS) (reversed : list string) :
  mkdirAncestors f reversed = inr f' ->
  forall q node, f !! q = Some node -> f' !! q = Some node.
Proof.
  revert f'. induction reversed as [|x parent IH]; intros f' H q node Hq;
    rewrite mkdirAncestors_unfold in H;
    destruct (f !! rev _) as [[]|] eqn:Hhere; try done;
    try (by injection H as <-).
  - injection H as <-. rewrite lookup_insert_ne; [done|].
    intros <-. simpl in Hhere. congruence.
  - destruct (mkdirAncestors f parent) as [e|f''] eqn:Hrec; [done|].
    injection H as <-. rewrite lookup_insert_ne; [by eapply IH|].
    intros <-. simpl in Hhere. congruence.
Qed.

Lemma mkdir_keeps (f f' : FS) (p : Path) :
  mkdir f p = inr f' ->
  forall q node, f !! q = Some node -> f' !! q = Some node.
Proof.
  unfold mkdir. destruct (f !! p) as [[]|]; [done|..];
    apply mkdirAncestors_keeps.
Qed.

Lemma mkdir_creates (f f' : FS) (p : Path) :
  mkdir f p = inr f' -> isDirectory f' p = true.
Proof.
  unfold mkdir, isDirectory. intros H.
  assert (mkdirAncestors f (rev p) = inr f') as Hrun
    by (by destruct (f !! p) as [[]|]).
  clear H. rewrite mkdirAncestors_unfold, rev_involutive in Hrun.
  destruct (f !! p) as [[]|] eqn:Hp; [done| |].
  - injection Hrun as <-. by rewrite Hp.
  - destruct (rev p) as [|x parent] eqn:Hrev.
    + injection Hrun as <-.
      assert (p = []) as -> by (by apply (f_equal (@rev string)) in Hrev;
                                 rewrite rev_involutive in Hrev).
      by rewrite lookup_insert_eq.
    + destruct (mkdirAncestors f parent); [done|].
      injection Hrun as <-. by rewrite lookup_insert_eq.
Qed.

Lemma writeFile_inv (f f' : FS) (p : Path) (content : string) :
  writeFile f p content = inr f' ->
  f' = <[ p := FileNode content ]> f /\ f !! p <> Some DirNode.
Proof.
  unfold writeFile.
  destruct (f !! p) as [[]|]; [|done|];
    destruct (f !! removelast p) as [[]|]; try done;
    by intros [= <-].
Qed.

Lemma kindPreserved_refl (f : FS) : kindPreserved f f.
Proof. intros q node Hq. by exists node. Qed.

Lemma kindPreserved_trans (f g h : FS) :
  kindPreserved f g -> kindPreserved g h -> kindPreserved f h.
Proof.
  intros Hfg Hgh q node Hq.
  destruct (Hfg q node Hq) as (node' & Hq' & Hkind).
  destruct (Hgh q node' Hq') as (node'' & Hq'' & Hkind').
  exists node''. split; [done|]. by rewrite Hkind.
Qed.

Lemma mkdir_kindPreserved (f f' : FS) (p : Path) :
  mkdir f p = inr f' -> kindPreserved f f'.
Proof.
  intros H q node Hq. exists node. split; [|done]. by eapply mkdir_keeps.
Qed.

Lemma writeFile_kindPreserved (f f' : FS) (p : Path) (content : string) :
  writeFile f p content = inr f' -> kindPreserved f f'.
Proof.
  intros H q node Hq. apply writeFile_inv in H as [-> Hnot].
  destruct (decide (p = q)) as [<-|Hne].
  - exists (FileNode content). rewrite lookup_insert_eq. split; [done|].
    split; [|done]. intros ->. done.
  - exists node. by rewrite lookup_insert_ne.
Qed.

Lemma sameOutside_refl (root : Path) (f : FS) : sameOutside root f f.
Proof. by intros q node _ Hq. Qed.

Lemma sameOutside_trans (root : Path) (f g h : FS) :
  sameOutside root f g -> sameOutside root g h -> sameOutside root f h.
Proof. intros Hfg Hgh q node Hout Hq. by apply Hgh, Hfg. Qed.

Lemma mkdir_sameOutside (root : Path) (f f' : FS) (p : Path) :
  mkdir f p = inr f' -> sameOutside root f f'.
Proof. intros H q node _ Hq. by eapply mkdir_keeps. Qed.

Lemma writeFile_sameOutside (root : Path) (f f' : FS) (p : Path)
    (content : string) :
  root `prefix_of` p -> writeFile f p content = inr f' -> sameOutside root f f'.
Proof.
  intros Hin H q node Hout Hq. apply writeFile_inv in H as [-> _].
  rewrite lookup_insert_ne; [done|]. by intros <-.
Qed.

Lemma rm_sameOutside (root : Path) (f : FS) : sameOutside root f (rm f root).
Proof.
  intros q node Hout Hq. unfold rm. by apply map_lookup_filter_Some.
Qed.

(** [path.join] with one plain name appends it. *)
Lemma join_plain (base : Path) (name : string) :
  includes "/" name = false -> name <> "" -> name <> "." -> name <> ".." ->
  join base name = (base ++ [name])%list.
Proof.
  intros Hsep Hne Hdot Hdots. unfold join.
  assert (Js.split "/"%char name = [name]) as ->.
  { clear Hne Hdot Hdots. induction name as [|c name IH]; [done|].
    simpl in Hsep. apply orb_false_iff in Hsep as [Hhead Htail].
    cbn [Js.split]. unfold startsWith in Hhead.
    destruct (Ascii.eqb c "/") eqn:Hc.
    - apply Ascii.eqb_eq in Hc as ->. done.
    - by rewrite IH. }
  simpl. unfold joinSegment.
  destruct (String.eqb_spec name ""); [done|].
  destruct (String.eqb_spec name "."); [done|].
  by destruct (String.eqb_spec name "..").
Qed.

End FsSteps.

(** ** How the installer changes the file system *)

Section Evolution.
Import Js Models Fs SkillInstaller Batch.

Variable downloadFile : string -> string -> Fetched string.
Variable fetchRepositoryTree : string -> Fetched RepositoryTree.

(** A relation between file systems that every single step respects: any
    [mkdir], and a [writeFile] to a path that is [inside]. *)
Variable R : FS -> FS -> Prop.
Variable inside : Path -> Prop.
Hypothesis R_refl : forall f, R f f.
Hypothesis R_trans : forall f g h, R f g -> R g h -> R f h.
Hypothesis R_mkdir : forall f f' p, mkdir f p = inr f' -> R f f'.
Hypothesis R_writeFile :
  forall f f' p content, inside p -> writeFile f p content = inr f' -> R f f'.

Lemma evolves_ret {A} (a : A) : evolves R (ret a).
Proof. intros w. apply R_refl. Qed.

Lemma evolves_bind {A B} (m : M A) (k : A -> M B) :
  evolves R m -> (forall a, evolves R (k a)) -> evolves R (bind m k).
Proof.
  intros Hm Hk w. unfold bind. specialize (Hm w).
  destruct (m w) as [[a|e|] w1]; cbn [snd] in *; [|done..].
  eapply R_trans; [exact Hm | apply Hk].
Qed.

Lemma evolves_tryCatch {A} (m : M A) (handler : Exn -> M A) :
  evolves R m -> (forall e, evolves R (handler e)) ->
  evolves R (tryCatch m handler).
Proof.
  intros Hm Hh w. unfold tryCatch. specialize (Hm w).
  destruct (m w) as [[a|e|] w1]; cbn [snd] in *; [done| |done].
  eapply R_trans; [exact Hm | apply Hh].
Qed.

Lemma evolves_forEach {A} (xs : list A) (body : A -> M unit) :
  (forall x, x ∈ xs -> evolves R (body x)) -> evolves R (forEach xs body).
Proof.
  induction xs as [|x xs IH]; intros Hbody; simpl; [apply evolves_ret|].
  apply evolves_bind; [apply Hbody; by left|].
  intros _. apply IH. intros y Hy. apply Hbody. by right.
Qed.

Lemma evolves_fsMkdir (p : Path) : evolves R (fsMkdir p).
Proof.
  intros w. unfold fsMkdir, bind, emit, getFs, setFs, throw. cbn [fs].
  destruct (mkdir (fs w) p) eqn:Hrun; cbn [snd fs]; [apply R_refl|].
  by eapply R_mkdir.
Qed.

Lemma evolves_fsWriteFile (p : Path) (content : string) :
  inside p -> evolves R (fsWriteFile p content).
Proof.
  intros Hin w. unfold fsWriteFile, bind, emit, getFs, setFs, throw. cbn [fs].
  destruct (writeFile (fs w) p content) eqn:Hrun; cbn [snd fs]; [apply R_refl|].
  by eapply R_writeFile.
Qed.

Lemma evolves_fsIsDirectory (p : Path) : evolves R (fsIsDirectory p).
Proof. intros w. apply R_refl. Qed.

Lemma evolves_netDownloadFile (repo path : string) :
  evolves R (netDownloadFile downloadFile repo path).
Proof.
  intros w. unfold netDownloadFile, bind, emit, ret, throw.
  destruct (downloadFile repo path); apply R_refl.
Qed.

Lemma evolves_download_then_write (repo path : string) (p : Path) :
  inside p ->
  evolves R (bind (netDownloadFile downloadFile repo path) (fsWriteFile p)).
Proof.
  intros Hin. apply evolves_bind; [apply evolves_netDownloadFile|].
  intros content. by apply evolves_fsWriteFile.
Qed.

(** The recursive download respects [R] when every path it derives from an
    [inside] directory and a node of the tree is [inside] again. *)
Lemma evolves_downloadDirectory (repo : string) :
  (forall t node remotePath localPath,
     fetchRepositoryTree repo = Got t -> node ∈ tree_nodes t ->
     inside localPath ->
     startsWith (remotePath +:+ "/") (node_path node) = true ->
     inside (join localPath
               (sliceFrom (String.length (remotePath +:+ "/"))
                  (node_path node)))) ->
  forall fuel remotePath localPath,
    inside localPath ->
    evolves R (downloadDirectory downloadFile fetchRepositoryTree fuel repo
                 remotePath localPath).
Proof.
  intros Hchild fuel.
  induction fuel as [|fuel IH]; intros remotePath localPath Hin.
  - intros w. apply R_refl.
  - cbn [downloadDirectory].
    apply evolves_bind; [apply evolves_fsMkdir|]. intros _.
    intros w. unfold bind at 1, netFetchRepositoryTree, bind at 1, emit, ret,
      throw.
    destruct (fetchRepositoryTree repo) as [t|m] eqn:Htree;
      [|apply R_refl].
    pose proof (evolves_forEach (tree_nodes t)
                  (downloadNode downloadFile
                     (downloadDirectory downloadFile fetchRepositoryTree
                        fuel repo) repo remotePath localPath)) as Hloop.
    apply (fun H => Hloop H {| fs := fs w;
                               log := NetFetchRepositoryTree repo :: log w |}).
    intros node Hnode. unfold downloadNode.
    destruct (startsWith _ _) eqn:Hprefix; [|apply evolves_ret].
    destruct (includes _ _); [apply evolves_ret|].
    pose proof (Hchild t node remotePath localPath eq_refl Hnode Hin Hprefix)
      as Hitem.
    destruct (node_type node); [by apply evolves_download_then_write|].
    by apply IH.
Qed.

End Evolution.

Section InstallEvolution.
Import Js Models Fs SkillInstaller Batch.

Variable installPath : Path.
Variable downloadFile : string -> string -> Fetched string.
Variable fetchRepositoryTree : string -> Fetched RepositoryTree.
Variable metadataJson : Skill -> string.

Abbreviation getSkillLocalPath := (SkillInstaller.getSkillLocalPath installPath).
Abbreviation materialize :=
  (SkillInstaller.materialize installPath downloadFile fetchRepositoryTree).
Abbreviation install :=
  (SkillInstaller.install installPath downloadFile fetchRepositoryTree
     metadataJson).

(** The two download loops of [install]. *)
Abbreviation downloads fuel s :=
  (bind (forEach (filter (fun f => isFile f = true) (files s))
           (downloadSkillFile downloadFile s (getSkillLocalPath s)))
     (fun _ =>
        bind (forEach (filter (fun f => isSubdirectory f = true) (files s))
                (fun dir =>
                   downloadDirectory downloadFile fetchRepositoryTree fuel
                     (repository s) (sf_path dir)
                     (join (getSkillLocalPath s) (sf_name dir))))
          (fun _ => ret (Some (getSkillLocalPath s))))).

(** A download phase that ends normally went through these stages. *)
Lemma materialize_stages (fuel : nat) (s : Skill) (w w2 : World)
    (reached : Path) :
  materialize fuel s w = (Ok (Some reached), w2) ->
  exists wa wc,
    ensureInstallDirectory installPath w = (Ok tt, wa) /\
    isDirectory (fs wa) (getSkillLocalPath s) = false /\
    mkdir (fs wa) (getSkillLocalPath s) = inr (fs wc) /\
    downloads fuel s wc = (Ok (Some reached), w2).
Proof.
  unfold SkillInstaller.materialize. intros H.
  apply bind_Ok in H as ([] & wa & Hensure & H).
  apply bind_Ok in H as (installed & wb & Hstat & H).
  unfold SkillInstaller.isInstalled, fsIsDirectory, bind, emit, getFs, ret
    in Hstat. cbn [fs] in Hstat. injection Hstat as <- <-.
  destruct (isDirectory (fs wa) (getSkillLocalPath s)) eqn:Hdir; [done|].
  apply bind_Ok in H as ([] & wc & Hmk & H).
  unfold fsMkdir, bind, emit, getFs, setFs, throw in Hmk. cbn [fs] in Hmk.
  destruct (mkdir (fs wa) (getSkillLocalPath s)) as [e|f] eqn:Hrun; [done|].
  injection Hmk as <-. eexists wa, _.
  split; [done|]. split; [done|]. split; [|exact H]. exact Hrun.
Qed.

Lemma mkdirAncestors_error (f : FS) (reversed : list string) (e : Errno) :
  mkdirAncestors f reversed = inl e -> e = ENOTDIR.
Proof.
  induction reversed as [|x parent IH]; rewrite mkdirAncestors_unfold;
    destruct (f !! rev _) as [[]|]; try done; try (by intros [= <-]).
  destruct (mkdirAncestors f parent); [|done]. intros [= <-]. by apply IH.
Qed.

(** After [ensureInstallDirectory] the install root is there, as a
    directory or as the file that was in its place, and every entry has
    kept its kind. *)
Lemma ensureInstallDirectory_Ok (w wa : World) :
  ensureInstallDirectory installPath w = (Ok tt, wa) ->
  access (fs wa) installPath = true /\ kindPreserved (fs w) (fs wa).
Proof.
  unfold ensureInstallDirectory, tryCatch, fsMkdir, bind, emit, getFs, setFs,
    throw, ret. cbn [fs].
  destruct (mkdir (fs w) installPath) as [e|f] eqn:Hrun.
  - destruct e; try done. intros [= <-]. cbn [fs].
    split; [|apply kindPreserved_refl].
    unfold mkdir in Hrun. unfold access.
    destruct (fs w !! installPath) as [[]|]; [done|..];
      by apply mkdirAncestors_error in Hrun.
  - intros [= <-]. cbn [fs]. split; [|by eapply mkdir_kindPreserved].
    apply mkdir_creates in Hrun. unfold isDirectory, access in *.
    by destruct (f !! installPath) as [[]|].
Qed.

Section Relation.

Variable R : FS -> FS -> Prop.
Variable inside : Path -> Prop.
Hypothesis R_refl : forall f, R f f.
Hypothesis R_trans : forall f g h, R f g -> R g h -> R f h.
Hypothesis R_mkdir : forall f f' p, mkdir f p = inr f' -> R f f'.
Hypothesis R_writeFile :
  forall f f' p content, inside p -> writeFile f p content = inr f' -> R f f'.

Variable s : Skill.
Hypothesis inside_entries :
  forall file, file ∈ files s ->
    inside (join (getSkillLocalPath s) (sf_name file)).
Hypothesis inside_nodes :
  forall t node remotePath localPath,
    fetchRepositoryTree (repository s) = Got t -> node ∈ tree_nodes t ->
    inside localPath ->
    startsWith (remotePath +:+ "/") (node_path node) = true ->
    inside (join localPath
              (sliceFrom (String.length (remotePath +:+ "/"))
                 (node_path node))).

Lemma downloads_evolves (fuel : nat) :
  evolves R (downloads fuel s).
Proof.
  apply (evolves_bind R R_trans).
  { apply (evolves_forEach R R_refl R_trans). intros file Hfile.
    apply list_elem_of_filter in Hfile as [_ Hfile].
    unfold downloadSkillFile.
    apply (evolves_tryCatch R R_trans);
      [|intros e; apply (evolves_ret R R_refl)].
    apply (evolves_download_then_write downloadFile R inside R_refl R_trans
             R_writeFile).
    by apply inside_entries. }
  intros _. apply (evolves_bind R R_trans);
    [|intros _; apply (evolves_ret R R_refl)].
  apply (evolves_forEach R R_refl R_trans). intros dir Hdir.
  apply list_elem_of_filter in Hdir as [_ Hdir].
  apply (evolves_downloadDirectory downloadFile fetchRepositoryTree R inside
           R_refl R_trans R_mkdir R_writeFile (repository s) inside_nodes).
  by apply inside_entries.
Qed.

Lemma materialize_evolves (fuel : nat) : evolves R (materialize fuel s).
Proof.
  unfold SkillInstaller.materialize.
  apply (evolves_bind R R_trans).
  { unfold ensureInstallDirectory. apply (evolves_tryCatch R R_trans).
    - apply (evolves_fsMkdir R R_refl R_mkdir).
    - intros e w. destruct e as [[]|]; apply R_refl. }
  intros _. apply (evolves_bind R R_trans);
    [apply (evolves_fsIsDirectory R R_refl)|].
  intros installed. destruct installed; [apply (evolves_ret R R_refl)|].
  apply (evolves_bind R R_trans); [apply (evolves_fsMkdir R R_refl R_mkdir)|].
  intros _. apply downloads_evolves.
Qed.

End Relation.

(** What a successful [install] went through, and the world it leaves. *)
Lemma install_success_inv (fuel : nat) (s : Skill) (w w' : World)
    (r : InstallResult) :
  install fuel s w = (Ok r, w') -> success r = true ->
  exists wa w2,
    ensureInstallDirectory installPath w = (Ok tt, wa) /\
    kindPreserved (fs wa) (fs w2) /\
    isDirectory (fs w2) (getSkillLocalPath s) = true /\
    access (fs w2) (join (getSkillLocalPath s) "SKILL.md") = true /\
    fs w2 !! join (getSkillLocalPath s) ".skill-manager.json" <> Some DirNode /\
    fs w' = <[ join (getSkillLocalPath s) ".skill-manager.json"
                 := FileNode (metadataJson s) ]> (fs w2) /\
    r = {| success := true; skill := s;
           localPath := Some (getSkillLocalPath s); error := None |}.
Proof.
  rewrite install_run. intros Hrun Hsuccess.
  destruct (materialize fuel s w) as [[[reached|]|e|] w2] eqn:Hphase;
    [|by injection Hrun as <- _..|done].
  pose proof (materialize_path _ _ _ _ _ _ _ _ Hphase) as ->.
  apply materialize_stages in Hphase as (wa & wc & Hensure & _ & Hmk & Hloops).
  rewrite verify_run in Hrun. cbv zeta in Hrun.
  destruct (access (fs w2) _) eqn:Hmanifest; [|by injection Hrun as <- _].
  destruct (writeFile (fs w2) _ _) as [code|f] eqn:Hwrite;
    [by injection Hrun as <- _|].
  injection Hrun as <- <-. cbn [fs].
  apply writeFile_inv in Hwrite as [-> Hsidecar].
  assert (kindPreserved (fs wc) (fs w2)) as Hkept.
  { pose proof (downloads_evolves kindPreserved (fun _ => True)
                  kindPreserved_refl kindPreserved_trans mkdir_kindPreserved
                  (fun f f' p c _ => writeFile_kindPreserved f f' p c)
                  s (fun _ _ => I) (fun _ _ _ _ _ _ _ _ => I) fuel wc) as Hev.
    by rewrite Hloops in Hev. }
  exists wa, w2. split; [done|]. split.
  { eapply kindPreserved_trans; [by eapply mkdir_kindPreserved | done]. }
  split; [|done].
  apply mkdir_creates in Hmk. unfold isDirectory in *.
  destruct (fs wc !! getSkillLocalPath s) as [[]|] eqn:Hlocal; try done.
  destruct (Hkept _ _ Hlocal) as (node' & -> & Hkind).
  by rewrite (proj1 Hkind eq_refl).
Qed.

(** X1.  After a successful [install] the local directory of the bundle
    is a directory, its manifest exists, and the sidecar file holds the
    install metadata; the result carries the local path and no error. *)
Theorem install_success_state (fuel : nat) (s : Skill) (w w' : World)
    (r : InstallResult) :
  install fuel s w = (Ok r, w') -> success r = true ->
  localPath r = Some (getSkillLocalPath s) /\
  error r = None /\
  isDirectory (fs w') (getSkillLocalPath s) = true /\
  access (fs w') (join (getSkillLocalPath s) "SKILL.md") = true /\
  fs w' !! join (getSkillLocalPath s) ".skill-manager.json"
    = Some (FileNode (metadataJson s)).
Proof.
  intros Hrun Hsuccess.
  destruct (install_success_inv _ _ _ _ _ Hrun Hsuccess)
    as (wa & w2 & _ & _ & Hlocal & Hmanifest & Hsidecar & -> & ->).
  split; [done|]. split; [done|].
  unfold isDirectory, access in *.
  split; [|split; [|by rewrite lookup_insert_eq]].
  - rewrite lookup_insert_ne; [done|]. intros Heq. rewrite <- Heq in Hlocal.
    by destruct (fs w2 !! _) as [[]|].
  - rewrite lookup_insert. by case_decide.
Qed.

(** An install that finds the install root in place and the local
    directory present changes nothing. *)
Lemma install_found (fuel : nat) (s : Skill) (w : World) :
  access (fs w) installPath = true ->
  isDirectory (fs w) (getSkillLocalPath s) = true ->
  install fuel s w
    = (Ok {| success := false; skill := s;
             localPath := Some (getSkillLocalPath s);
             error := Some alreadyInstalled |},
       {| fs := fs w;
          log := FsStat (getSkillLocalPath s) :: FsMkdir installPath :: log w |}).
Proof.
  intros Hroot Hlocal.
  assert (mkdir (fs w) installPath = inr (fs w) \/
          mkdir (fs w) installPath = inl EEXIST) as Hmk.
  { unfold access in Hroot. unfold mkdir.
    destruct (fs w !! installPath) as [[]|] eqn:Hnode; [by right| |done].
    left. apply mkdirAncestors_present. by rewrite rev_involutive. }
  unfold SkillInstaller.install, SkillInstaller.materialize,
    ensureInstallDirectory, SkillInstaller.isInstalled, fsIsDirectory,
    fsMkdir, tryCatch, bind, emit, getFs, setFs, ret, throw.
  cbn [fs log].
  destruct Hmk as [-> | ->]; cbn [fs log]; by rewrite Hlocal.
Qed.

(** X2.  Installing a bundle again right after a successful install
    reports "already installed" and leaves the file system as it is. *)
Theorem install_twice (fuel fuel' : nat) (s : Skill) (w w1 : World)
    (r : InstallResult) :
  install fuel s w = (Ok r, w1) -> success r = true ->
  install fuel' s w1
    = (Ok {| success := false; skill := s;
             localPath := Some (getSkillLocalPath s);
             error := Some "Skill is already installed" |},
       {| fs := fs w1;
          log := FsStat (getSkillLocalPath s) :: FsMkdir installPath :: log w1 |}).
Proof.
  intros Hrun Hsuccess.
  destruct (install_success_inv _ _ _ _ _ Hrun Hsuccess)
    as (wa & w2 & Hensure & Hkept & Hlocal & _ & Hsidecar & Hfs & _).
  apply ensureInstallDirectory_Ok in Hensure as [Hroot _].
  apply install_found; rewrite Hfs; unfold access, isDirectory in *.
  - destruct (fs wa !! installPath) as [node|] eqn:Hnode; [|done].
    destruct (Hkept _ _ Hnode) as (node' & Hnode' & _).
    rewrite lookup_insert. case_decide; [done | by rewrite Hnode'].
  - rewrite lookup_insert_ne; [done|]. intros Heq. rewrite <- Heq in Hlocal.
    by destruct (fs w2 !! _) as [[]|].
Qed.

Lemma split_nonempty (sep : ascii) (a : string) :
  exists h t, Js.split sep a = h :: t.
Proof.
  induction a as [|c a (h & t & IH)]; [by exists "", []|].
  cbn [Js.split]. rewrite IH. destruct (Ascii.eqb c sep); by eauto.
Qed.

Lemma split_after_separator (sep : ascii) (a b : string) :
  Js.split sep (a +:+ String sep b) = (Js.split sep a ++ Js.split sep b)%list.
Proof.
  induction a as [|c a IH]; cbn [String.append Js.split].
  - by rewrite (proj2 (Ascii.eqb_eq sep sep) eq_refl).
  - destruct (Ascii.eqb c sep); [by rewrite IH|].
    rewrite IH. by destruct (split_nonempty sep a) as (h & t & ->).
Qed.

(** The segments of a node's path below a directory prefix are segments of
    the node's path. *)
Lemma relative_segments (remotePath path : string) (segment : string) :
  startsWith (remotePath +:+ "/") path = true ->
  segment ∈ Js.split "/"%char
              (sliceFrom (String.length (remotePath +:+ "/")) path) ->
  segment ∈ Js.split "/"%char path.
Proof.
  intros Hprefix Hin. apply startsWith_sliceFrom in Hprefix.
  rewrite Hprefix, append_assoc. cbn [String.append].
  rewrite split_after_separator. apply elem_of_app. by right.
Qed.

Lemma install_run_result (fuel : nat) (s : Skill) (w w' : World)
    (r : InstallResult) :
  install fuel s w = (Ok r, w') ->
  skill r = s /\
  (success r = true <-> error r = None) /\
  (success r = true -> localPath r = Some (getSkillLocalPath s)).
Proof.
  rewrite install_run.
  destruct (materialize fuel s w) as [[[reached|]|e|] w2] eqn:Hphase;
    [|by intros [= <- _]..|done].
  pose proof (materialize_path _ _ _ _ _ _ _ _ Hphase) as ->.
  rewrite verify_run. cbv zeta.
  destruct (access (fs w2) _); [|by intros [= <- _]].
  destruct (writeFile (fs w2) _ _); by intros [= <- _].
Qed.

(** X3.  [install] never throws: what goes wrong is returned as a result
    with an error message.  The result names the requested bundle, is a
    success exactly when it carries no error, and a success carries the
    local path.  (Only a recursion bound below [enoughFuel] can cut the
    embedding short.) *)
Theorem install_returns_result (fuel : nat) (s : Skill) (w : World) :
  match install fuel s w with
  | (Ok r, _) =>
      skill r = s /\
      (success r = true <-> error r = None) /\
      (success r = true -> localPath r = Some (getSkillLocalPath s))
  | (Throw _, _) => False
  | (OutOfFuel, _) => fuel < SkillInstaller.enoughFuel fetchRepositoryTree s
  end.
Proof.
  destruct (install fuel s w) as [[r|e|] w'] eqn:Hrun.
  - by eapply install_run_result.
  - rewrite install_run in Hrun.
    destruct (materialize fuel s w) as [[[reached|]|e'|] w2]; try done.
    rewrite verify_run in Hrun. cbv zeta in Hrun.
    destruct (access (fs w2) _); [|done].
    by destruct (writeFile (fs w2) _ _).
  - destruct (Nat.lt_ge_cases fuel
                (SkillInstaller.enoughFuel fetchRepositoryTree s))
      as [|Hge]; [done|].
    destruct (install_terminates installPath downloadFile fetchRepositoryTree
                metadataJson fuel s w Hge) as (r & w'' & Hok).
    congruence.
Qed.

(** X4.  [install] leaves every existing entry outside the local directory
    of the bundle as it is, provided no entry name of the bundle and no
    path of the remote tree has a [..] segment. *)
Theorem install_keeps_outside (fuel : nat) (s : Skill) (w : World)
    (q : Path) (node : Node) :
  (forall file, file ∈ files s -> ".." ∉ Js.split "/"%char (sf_name file)) ->
  (forall t n, fetchRepositoryTree (repository s) = Got t ->
               n ∈ tree_nodes t -> ".." ∉ Js.split "/"%char (node_path n)) ->
  ~ getSkillLocalPath s `prefix_of` q ->
  fs w !! q = Some node ->
  fs (install fuel s w).2 !! q = Some node.
Proof.
  intros Hfiles Htree Hout Hq.
  set (root := getSkillLocalPath s).
  assert (sameOutside root (fs w) (fs (materialize fuel s w).2)) as Hphase.
  { apply (materialize_evolves (sameOutside root) (fun p => root `prefix_of` p)
             (sameOutside_refl root) (sameOutside_trans root)
             (mkdir_sameOutside root) (writeFile_sameOutside root) s).
    - intros file Hfile. apply joinSegments_below; [by apply Hfiles | done].
    - intros t n remotePath localPath Ht Hn Hin Hprefix.
      apply joinSegments_below; [|done].
      intros Hdots. apply (Htree t n Ht Hn).
      by eapply relative_segments. }
  assert (root `prefix_of` join root ".skill-manager.json") as Hsidecar.
  { apply joinSegments_below; [|done]. intros Hin.
    apply list_elem_of_In in Hin. vm_compute in Hin.
    by destruct Hin as [|[]]. }
  rewrite install_run.
  destruct (materialize fuel s w) as [[[reached|]|e|] w2] eqn:Hrun;
    cbn [snd] in *; try by apply Hphase.
  pose proof (materialize_path _ _ _ _ _ _ _ _ Hrun) as ->. fold root.
  rewrite verify_run. cbv zeta. fold root.
  destruct (access (fs w2) _).
  - destruct (writeFile (fs w2) _ _) as [code|f] eqn:Hwrite; cbn [snd fs].
    + by apply Hphase.
    + eapply (writeFile_sameOutside root); [exact Hsidecar | exact Hwrite
                                            | done | by apply Hphase].
  - cbn [snd fs]. apply rm_sameOutside; [done | by apply Hphase].
Qed.

End InstallEvolution.

(** ** Batches, uninstalling, and the name of the local directory *)

Section BatchFacts.
Import Js Models Fs SkillInstaller Batch.

Variable installPath : Path.
Variable downloadFile : string -> string -> Fetched string.
Variable fetchRepositoryTree : string -> Fetched RepositoryTree.
Variable metadataJson : Skill -> string.

(** X5.  [installBatch] returns one result for every requested bundle, in
    the order of the request, whatever the single installs come to: a
    failed install does not stop the batch. *)
Theorem installBatch_one_result_each (fuel : nat) (skills : list Skill)
    (w : World) :
  (forall s, s ∈ skills ->
             SkillInstaller.enoughFuel fetchRepositoryTree s <= fuel) ->
  exists results w',
    installBatch installPath downloadFile fetchRepositoryTree metadataJson
      fuel skills w = (Ok results, w') /\
    map skill results = skills.
Proof.
  revert w. induction skills as [|s rest IH]; intros w Hfuel.
  - by exists [], w.
  - destruct (install_terminates installPath downloadFile fetchRepositoryTree
                metadataJson fuel s w) as (r & w1 & Hrun);
      [apply Hfuel; by left|].
    destruct (IH w1) as (results & w' & Hrest & Hskills);
      [intros s' Hs'; apply Hfuel; by right|].
    exists (r :: results), w'. cbn [installBatch]. unfold bind.
    rewrite Hrun, Hrest. split; [done|]. cbn [map].
    apply install_run_result in Hrun as [-> _]. by rewrite Hskills.
Qed.

(** X6.  After a successful [uninstall] the bundle is not installed any
    more: its local directory is gone, and uninstalling it again fails
    with "not installed" without touching the file system. *)
Theorem uninstall_once (s : Skill) (w w' : World) :
  uninstall installPath s w = (Ok tt, w') ->
  isDirectory (fs w') (getSkillLocalPath installPath s) = false /\
  uninstall installPath s w'
    = (Throw (JsError ("Skill " +:+ name s +:+ " is not installed")),
       {| fs := fs w';
          log := FsStat (getSkillLocalPath installPath s) :: log w' |}).
Proof.
  unfold uninstall, SkillInstaller.isInstalled, fsIsDirectory, fsRm, bind,
    emit, getFs, setFs, ret, throw. cbn [fs log].
  destruct (isDirectory (fs w) _) eqn:Hbefore; [|done].
  intros [= <-]. cbn [fs log].
  assert (isDirectory (rm (fs w) (getSkillLocalPath installPath s))
            (getSkillLocalPath installPath s) = false) as Hgone
    by (unfold isDirectory; by rewrite rm_below).
  by rewrite Hgone.
Qed.

Lemma lowerChar_white (c : ascii) : isWhite (lowerChar c) = isWhite c.
Proof. by destruct c as [[] [] [] [] [] [] [] []]. Qed.

Lemma lowerChar_lowerChar (c : ascii) : lowerChar (lowerChar c) = lowerChar c.
Proof. by destruct c as [[] [] [] [] [] [] [] []]. Qed.

Lemma toLowerCase_toLowerCase (s : string) :
  toLowerCase (toLowerCase s) = toLowerCase s.
Proof.
  induction s as [|c s IH]; [done|]. simpl.
  by rewrite lowerChar_lowerChar, IH.
Qed.

Lemma replaceWhiteRunsFrom_no_white (inRun : bool) (s : string) :
  SkillParser.allChars (fun c => negb (isWhite c))
    (replaceWhiteRunsFrom inRun s) = true.
Proof.
  revert inRun. induction s as [|c s IH]; intros inRun; [done|]. simpl.
  destruct (isWhite c) eqn:Hc.
  - destruct inRun; [apply IH|]. simpl. by rewrite IH.
  - simpl. by rewrite Hc, IH.
Qed.

Lemma replaceWhiteRunsFrom_id (inRun : bool) (s : string) :
  SkillParser.allChars (fun c => negb (isWhite c)) s = true ->
  replaceWhiteRunsFrom inRun s = s.
Proof.
  revert inRun. induction s as [|c s IH]; intros inRun H; [done|].
  simpl in *. apply andb_true_iff in H as [Hc Hs].
  apply negb_true_iff in Hc. by rewrite Hc, IH.
Qed.

Lemma toLowerCase_replaceWhiteRunsFrom (inRun : bool) (s : string) :
  toLowerCase (replaceWhiteRunsFrom inRun s)
  = replaceWhiteRunsFrom inRun (toLowerCase s).
Proof.
  revert inRun. induction s as [|c s IH]; intros inRun; [done|]. simpl.
  rewrite lowerChar_white. destruct (isWhite c).
  - destruct inRun; [apply IH|]. simpl. by rewrite IH.
  - simpl. by rewrite IH.
Qed.

(** X7.  The name of the local directory has no white space and no
    capital letter, and sanitising it again changes nothing: a bundle whose
    display name is the directory name of another bundle shares its
    local directory. *)
Theorem sanitizedName_normal (s : Skill) :
  SkillParser.allChars (fun c => negb (isWhite c)) (sanitizedName s) = true /\
  toLowerCase (sanitizedName s) = sanitizedName s /\
  replaceWhiteRuns (toLowerCase (sanitizedName s)) = sanitizedName s.
Proof.
  unfold sanitizedName, replaceWhiteRuns.
  assert (toLowerCase (replaceWhiteRunsFrom false (toLowerCase (name s)))
          = replaceWhiteRunsFrom false (toLowerCase (name s))) as Hlower
    by (by rewrite toLowerCase_replaceWhiteRunsFrom, toLowerCase_toLowerCase).
  split; [apply replaceWhiteRunsFrom_no_white|]. split; [done|].
  rewrite Hlower. apply replaceWhiteRunsFrom_id, replaceWhiteRunsFrom_no_white.
Qed.

End BatchFacts.

(** ** The properties of installs at the bundle [skills/a] *)

Section InstallEvolutionInstances.
Import Js Models Fs SkillInstaller Examples Batch.

Lemma install_success_state_witness :
  isDirectory
    (fs (install installRoot serveAll serveTree noMetadata 3
           (demoSkill "A Skill") homeOnly).2)
    ["home"; "u"; "skills"; "a-skill"] = true /\
  fs (install installRoot serveAll serveTree noMetadata 3
        (demoSkill "A Skill") homeOnly).2
    !! ["home"; "u"; "skills"; "a-skill"; ".skill-manager.json"]
  = Some (FileNode "{}").
Proof.
  destruct (install_success_state installRoot serveAll serveTree noMetadata 3
              (demoSkill "A Skill") homeOnly
              (install installRoot serveAll serveTree noMetadata 3
                 (demoSkill "A Skill") homeOnly).2
              {| success := true; skill := demoSkill "A Skill";
                 localPath := Some ["home"; "u"; "skills"; "a-skill"];
                 error := None |})
    as (_ & _ & Hdir & _ & Hmeta);
    [vm_compute; reflexivity | reflexivity |].
  split; [exact Hdir | exact Hmeta].
Defined.

Lemma install_twice_witness :
  (install installRoot serveAll serveTree noMetadata 0 (demoSkill "A Skill")
     (install installRoot serveAll serveTree noMetadata 3
        (demoSkill "A Skill") homeOnly).2).1
  = Ok {| success := false; skill := demoSkill "A Skill";
          localPath := Some ["home"; "u"; "skills"; "a-skill"];
          error := Some "Skill is already installed" |}.
Proof.
  rewrite (install_twice installRoot serveAll serveTree noMetadata 3 0
             (demoSkill "A Skill") homeOnly
             (install installRoot serveAll serveTree noMetadata 3
                (demoSkill "A Skill") homeOnly).2
             {| success := true; skill := demoSkill "A Skill";
                localPath := Some ["home"; "u"; "skills"; "a-skill"];
                error := None |});
    [reflexivity | vm_compute; reflexivity | reflexivity].
Defined.

Lemma install_keeps_outside_witness :
  fs (install installRoot serveAll serveTree noMetadata 3
        (demoSkill "A Skill") homeOnly).2 !! ["home"; "u"]
  = Some DirNode.
Proof.
  apply (install_keeps_outside installRoot serveAll serveTree noMetadata 3
           (demoSkill "A Skill") homeOnly ["home"; "u"] DirNode).
  - intros file Hfile Hup.
    apply list_elem_of_In in Hfile. apply list_elem_of_In in Hup.
    vm_compute in Hfile.
    destruct Hfile as [<-|[<-|[<-|[]]]]; vm_compute in Hup;
      intuition discriminate.
  - intros t n [= <-] Hn Hup.
    apply list_elem_of_In in Hn. apply list_elem_of_In in Hup.
    vm_compute in Hn.
    repeat (destruct Hn as [<-|Hn];
            [vm_compute in Hup; intuition discriminate|]).
    destruct Hn.
  - intros [k Hk]. discriminate Hk.
  - reflexivity.
Defined.

Lemma installBatch_one_result_each_witness :
  exists results w',
    installBatch installRoot serveAll serveTree noMetadata 19
      [demoSkill "A Skill"; demoSkill "A Skill"; demoSkill "B"] homeOnly
    = (Ok results, w') /\
    map skill results
    = [demoSkill "A Skill"; demoSkill "A Skill"; demoSkill "B"].
Proof.
  apply (installBatch_one_result_each installRoot serveAll serveTree
           noMetadata 19).
  intros s Hs. apply list_elem_of_In in Hs.
  destruct Hs as [<-|[<-|[<-|[]]]]; vm_compute; lia.
Defined.

Lemma uninstall_once_witness :
  isDirectory (fs (uninstall installRoot (demoSkill "A Skill") withBundle).2)
    ["home"; "u"; "skills"; "a-skill"] = false.
Proof.
  apply (uninstall_once installRoot (demoSkill "A Skill") withBundle
           (uninstall installRoot (demoSkill "A Skill") withBundle).2).
  vm_compute. reflexivity.
Defined.

End InstallEvolutionInstances.

(** ** What a fetch does to the cache *)

Section CacheSteps.
Import Js Models GitHubService.

Context {T : Type}.
Variable token : string.
Variable cacheExpiry : Z.
Variable fetch : Request -> Reply T.

#[local] Abbreviation fetchWithCache := (fetchWithCache token cacheExpiry fetch).

Ltac fetch_cases url cacheKey st :=
  unfold GitHubService.fetchWithCache;
  destruct (cacheHit (cache st !! cacheKey) (now st)) as [?|] eqn:Hhit;
    [|destruct (outcome (fetch _)) as [response|];
      [destruct (notModified (cache st !! cacheKey) response) as [?|] eqn:Hmod;
        [|destruct (ok response);
          [destruct (resp_json response) as [?|]
          |destruct ((status response =? 403)%Z && quotaIsZero _)]]|]];
  cbn [negb fst snd setCache advance cache now requests rateLimitInfo].

Lemma fetchWithCache_other_keys (url cacheKey k : string) (st : ServiceState T) :
  k <> cacheKey ->
  cache (fetchWithCache url cacheKey st).2 !! k = cache st !! k.
Proof.
  intros Hk. fetch_cases url cacheKey st;
    by rewrite ?lookup_insert_ne.
Qed.

Lemma fetchWithCache_requests (url cacheKey : string) (st : ServiceState T) :
  requests (fetchWithCache url cacheKey st).2 = requests st \/
  exists validator,
    requests (fetchWithCache url cacheKey st).2
    = conditionalRequest token url validator :: requests st.
Proof.
  fetch_cases url cacheKey st; by eauto.
Qed.

Lemma fetchWithCache_entry (url cacheKey : string) (st : ServiceState T) (d : T) :
  (fetchWithCache url cacheKey st).1 = Ok d ->
  exists c, cache (fetchWithCache url cacheKey st).2 !! cacheKey = Some c /\
            data c = d /\
            ((0 < cacheExpiry)%Z ->
             (now (fetchWithCache url cacheKey st).2 < expiresAt c)%Z).
Proof.
  fetch_cases url cacheKey st; try done.
  - intros [= ->]. unfold cacheHit in Hhit.
    destruct (cache st !! cacheKey) as [c|]; [|done].
    destruct (now st <? expiresAt c)%Z eqn:Hfresh; [|done].
    injection Hhit as <-. exists c. split; [done|]. split; [done|].
    intros _. by apply Z.ltb_lt.
  - intros [= <-]. rewrite lookup_insert_eq. eexists. split; [done|].
    split; [done|]. cbn [expiresAt]. lia.
  - intros [= <-]. rewrite lookup_insert_eq. eexists. split; [done|].
    split; [done|]. cbn [expiresAt]. lia.
Qed.

Lemma fetchWithCache_again (url url' cacheKey : string) (st : ServiceState T)
    (d : T) :
  (0 < cacheExpiry)%Z ->
  (fetchWithCache url cacheKey st).1 = Ok d ->
  fetchWithCache url' cacheKey (fetchWithCache url cacheKey st).2
  = (Ok d, (fetchWithCache url cacheKey st).2).
Proof.
  intros Hpos Hrun.
  destruct (fetchWithCache_entry url cacheKey st d Hrun) as (c & Hc & <- & Hfresh).
  specialize (Hfresh Hpos).
  unfold GitHubService.fetchWithCache at 1. unfold cacheHit. rewrite Hc.
  by rewrite (proj2 (Z.ltb_lt _ _) Hfresh).
Qed.

(** X8.  Whatever the network answers, a fetch touches no entry of the
    cache but the one of its key, sends at most one request (to the given
    address), and never sets the clock back; when it fails the cache is
    unchanged, and when it succeeds the value it returns is the payload
    the cache then holds under the key. *)
Theorem fetchWithCache_frame (url cacheKey : string) (st : ServiceState T) :
  let r := fetchWithCache url cacheKey st in
  (forall k, k <> cacheKey -> cache r.2 !! k = cache st !! k) /\
  (requests r.2 = requests st \/
   exists request, requests r.2 = request :: requests st /\
                   req_url request = url) /\
  (now st <= now r.2)%Z /\
  (forall e, r.1 = Throw e -> cache r.2 = cache st) /\
  (forall d, r.1 = Ok d -> data <$> cache r.2 !! cacheKey = Some d).
Proof.
  intros r. subst r. split; [intros k; apply fetchWithCache_other_keys|].
  split.
  { destruct (fetchWithCache_requests url cacheKey st) as [H|[validator H]];
      [by left | right; by eexists]. }
  split; [fetch_cases url cacheKey st; lia|].
  split; [fetch_cases url cacheKey st; by intros|].
  intros d Hrun. by destruct (fetchWithCache_entry _ _ _ _ Hrun) as (c & -> & <- & _).
Qed.

(** X9.  With a positive time to live, a successful fetch is followed by a
    period in which every call for the same key, from whatever address, is
    answered with the same value from the cache: no request is sent and
    the state does not change. *)
Theorem fetch_stays_fresh (url cacheKey : string) (st : ServiceState T)
    (d : T) :
  (0 < cacheExpiry)%Z ->
  (fetchWithCache url cacheKey st).1 = Ok d ->
  exists deadline,
    (now (fetchWithCache url cacheKey st).2 < deadline)%Z /\
    forall url' st',
      cache st' !! cacheKey = cache (fetchWithCache url cacheKey st).2 !! cacheKey ->
      (now st' < deadline)%Z ->
      fetchWithCache url' cacheKey st' = (Ok d, st').
Proof.
  intros Hpos Hrun.
  destruct (fetchWithCache_entry url cacheKey st d Hrun) as (c & Hc & <- & Hfresh).
  exists (expiresAt c). split; [by apply Hfresh|].
  intros url' st' Hsame Hbefore.
  unfold GitHubService.fetchWithCache, cacheHit. rewrite Hsame, Hc.
  by rewrite (proj2 (Z.ltb_lt _ _) Hbefore).
Qed.

Lemma tree_key_injective (repo repo' : string) :
  "tree:" +:+ repo = "tree:" +:+ repo' -> repo = repo'.
Proof. apply append_inv_head. Qed.

(** X10.  The trees and the file contents live under keys that never
    coincide: fetching a file content leaves every tree entry as it was,
    fetching a tree leaves every file entry as it was, and the trees of two
    different repositories do not share an entry. *)
Theorem tree_and_file_entries_apart (repo repo' path : string)
    (st : ServiceState T) :
  cache (fetchFileContent token cacheExpiry fetch repo path st).2
    !! ("tree:" +:+ repo') = cache st !! ("tree:" +:+ repo') /\
  cache (fetchRepositoryTree token cacheExpiry fetch repo st).2
    !! ("file:" +:+ repo' +:+ ":" +:+ path)
    = cache st !! ("file:" +:+ repo' +:+ ":" +:+ path) /\
  (repo <> repo' ->
   cache (fetchRepositoryTree token cacheExpiry fetch repo st).2
     !! ("tree:" +:+ repo') = cache st !! ("tree:" +:+ repo')).
Proof.
  unfold fetchFileContent, fetchRepositoryTree.
  split; [by apply fetchWithCache_other_keys|].
  split; [by apply fetchWithCache_other_keys|].
  intros Hrepo. apply fetchWithCache_other_keys.
  intros H. by apply tree_key_injective in H.
Qed.

(** X11.  After [clearCache] the next fetch, for whatever key, goes to the
    network: exactly one request is sent, and it carries no validator. *)
Theorem clearCache_then_fetch (url cacheKey : string) (st : ServiceState T) :
  let r := fetchWithCache url cacheKey (clearCache st) in
  requests r.2 = conditionalRequest token url None :: requests st /\
  ("If-None-Match"
     ∉ map fst (req_headers (conditionalRequest token url None))) /\
  rateLimitInfo (clearCache st) = rateLimitInfo st.
Proof.
  intros r. subst r. split.
  - unfold GitHubService.fetchWithCache, clearCache, setCache.
    cbn [cache now requests rateLimitInfo]. rewrite lookup_empty.
    cbn [cacheHit mbind option_bind].
    destruct (outcome (fetch _)) as [response|]; [|done].
    cbn [notModified].
    destruct (ok response);
      [destruct (resp_json response)
      |destruct ((status response =? 403)%Z && quotaIsZero _)]; done.
  - split; [|done].
    unfold conditionalRequest, getHeaders. cbn [req_headers].
    intros H. apply list_elem_of_In in H.
    destruct (truthy token); simpl in H; intuition discriminate.
Qed.

End CacheSteps.

(** ** Discovery of the bundles of a tree *)

Section DiscoverySteps.
Import Js Models GitHubService Discovery.

Lemma endsWith_append (suffix d : string) : endsWith suffix (d +:+ suffix) = true.
Proof.
  induction d as [|c d IH]; cbn [String.append endsWith].
  - destruct suffix; cbn [endsWith]; by rewrite String.eqb_refl.
  - rewrite IH. apply orb_true_r.
Qed.

Lemma sliceFrom_append (p rest : string) :
  sliceFrom (String.length p) (p +:+ rest) = rest.
Proof. induction p as [|c p IH]; [by destruct rest | done]. Qed.

(** The manifest name cannot begin inside [d] and end in the appended
    manifest name: the slash is its first character only. *)
Lemma manifest_not_astride (d : string) :
  startsWith "/SKILL.md" (d +:+ "/SKILL.md") = true ->
  d = "" \/ startsWith "/SKILL.md" d = true.
Proof.
  intros H. apply startsWith_spec in H as [rest H].
  destruct d as [|c1 d]; [by left|]. right.
  repeat (destruct d as [|? d]; [discriminate H|]).
  injection H as -> -> -> -> -> -> -> -> -> _.
  apply startsWith_spec. by eexists.
Qed.

Lemma replaceFirst_manifest (d : string) :
  includes "/SKILL.md" d = false ->
  replaceFirst "/SKILL.md" "" (d +:+ "/SKILL.md") = d.
Proof.
  induction d as [|c d IH]; intros Hno; [done|].
  cbn [includes] in Hno. apply orb_false_iff in Hno as [Hhere Hlater].
  change (String c d +:+ "/SKILL.md") with (String c (d +:+ "/SKILL.md")).
  cbn [replaceFirst].
  destruct (startsWith "/SKILL.md" (String c (d +:+ "/SKILL.md"))) eqn:Hstart.
  - apply (manifest_not_astride (String c d)) in Hstart as [?|Hstart];
      [done | congruence].
  - by rewrite IH.
Qed.

Lemma skillFileOf_manifest (d : string) (node : TreeNode) :
  d <> "" -> node_type node = Blob -> node_path node = d +:+ "/SKILL.md" ->
  skillFileOf d node
  = Some {| sf_name := "SKILL.md"; sf_path := node_path node; sf_type := File;
            sf_sha := Some (node_sha node); sf_downloadUrl := None |}.
Proof.
  intros Hd Htype Hpath. unfold skillFileOf, skillPrefix.
  destruct d as [|c d]; [done|]. cbn [truthy isEmpty negb].
  assert (node_path node = (String c d +:+ "/") +:+ "SKILL.md") as Hsplit
    by (by rewrite append_assoc).
  rewrite (proj2 (startsWith_spec _ _) (ex_intro _ "SKILL.md" Hsplit)).
  cbn [orb]. rewrite Htype.
  replace (sliceFrom (String.length (String c d +:+ "/")) (node_path node))
    with "SKILL.md" by (by rewrite Hsplit, sliceFrom_append).
  done.
Qed.

(** X12.  A manifest at [d/SKILL.md], where [d] is not empty and does not
    itself contain the text [/SKILL.md], makes [d] one of the directories
    [findSkillDirectories] lists, and the files [getSkillFiles] gives for
    [d] hold that manifest as a file named [SKILL.md]. *)
Theorem manifest_directory_listed (tree : RepositoryTree) (node : TreeNode)
    (d : string) :
  node ∈ tree_nodes tree -> node_type node = Blob ->
  node_path node = d +:+ "/SKILL.md" -> d <> "" ->
  includes "/SKILL.md" d = false ->
  d ∈ skillDirectoriesIn tree /\
  exists file, file ∈ getSkillFiles tree d /\ sf_name file = "SKILL.md" /\
               sf_type file = File /\ sf_path file = node_path node.
Proof.
  intros Hnode Htype Hpath Hd Hno. split.
  - unfold skillDirectoriesIn. apply list_elem_of_omap. exists node.
    split; [done|]. unfold skillDirectoryOf.
    by rewrite Htype, Hpath, endsWith_append, replaceFirst_manifest.
  - exists {| sf_name := "SKILL.md"; sf_path := node_path node;
              sf_type := File; sf_sha := Some (node_sha node);
              sf_downloadUrl := None |}.
    split; [|done].
    unfold getSkillFiles. apply list_elem_of_omap. exists node.
    split; [done|]. by apply skillFileOf_manifest.
Qed.

(** Without the second condition the directory comes out wrong: the first
    occurrence of the manifest name is the one deleted. *)
Example directory_named_like_manifest :
  skillDirectoryOf
    {| node_path := "a/SKILL.mdx/SKILL.md"; node_mode := "100644";
       node_type := Blob; node_sha := "0"; node_size := None; node_url := "" |}
  = Some "ax/SKILL.md".
Proof. reflexivity. Qed.

Lemma last_split_no_separator (s : string) :
  includes "/" (lastSegment s) = false.
Proof.
  unfold lastSegment. induction s as [|c s IH]; [done|].
  cbn [split]. destruct (Ascii.eqb_spec c "/"%char) as [->|Hc].
  - destruct (split_nonempty "/"%char s) as (h & t & Hs).
    rewrite Hs in *. exact IH.
  - destruct (split_nonempty "/"%char s) as (h & t & Hs).
    rewrite Hs in *. destruct t as [|h' t]; [|exact IH].
    cbn [List.last] in *. cbn [includes]. rewrite IH, orb_false_r.
    apply not_true_iff_false. intros H.
    apply startsWith_spec in H as [rest H]. injection H as H _. congruence.
Qed.

Lemma skillName_plain (repo dir : string) :
  skillName repo dir <> "" /\ includes "/" (skillName repo dir) = false.
Proof.
  unfold skillName, orElse.
  destruct (lastSegment dir) as [|c r] eqn:Hdir; cbn [truthy isEmpty negb].
  - destruct (lastSegment repo) as [|c r] eqn:Hrepo; cbn [truthy isEmpty negb];
      [done|].
    split; [done|]. rewrite <- Hrepo. apply last_split_no_separator.
  - split; [done|]. rewrite <- Hdir. apply last_split_no_separator.
Qed.

End DiscoverySteps.

(** ** The catalogue of all repositories *)

Section CatalogueFacts.
Import Js Models GitHubService Discovery.

Variable token : string.
Variable cacheExpiry : Z.
Variable fetch : Request -> Reply RepositoryTree.

#[local] Abbreviation fetchRepositoryTree :=
  (fetchRepositoryTree token cacheExpiry fetch).
#[local] Abbreviation findSkillDirectories :=
  (findSkillDirectories token cacheExpiry fetch).
#[local] Abbreviation fetchAllSkills :=
  (fetchAllSkills token cacheExpiry fetch).

Hypothesis cacheExpiry_positive : (0 < cacheExpiry)%Z.

Lemma findSkillDirectories_after (repo : string)
    (st st1 : ServiceState RepositoryTree) (tree : RepositoryTree) :
  fetchRepositoryTree repo st = (Ok tree, st1) ->
  findSkillDirectories repo st1 = (Ok (skillDirectoriesIn tree), st1).
Proof.
  intros Hrun. unfold Discovery.findSkillDirectories.
  unfold GitHubService.fetchRepositoryTree in *.
  set (url := GITHUB_API_BASE +:+ "/repos/" +:+ repo
              +:+ "/git/trees/main?recursive=1") in *.
  pose proof (fetchWithCache_again token cacheExpiry fetch url url
                ("tree:" +:+ repo) st tree cacheExpiry_positive) as Hagain.
  rewrite Hrun in Hagain. cbn [fst snd] in Hagain. by rewrite Hagain.
Qed.

(** With a positive time to live the second fetch of the tree is a cache
    hit, so one turn of the loop is one fetch. *)
Lemma fetchAllSkills_cons (repo : string) (rest : list string)
    (st : ServiceState RepositoryTree) :
  fetchAllSkills (repo :: rest) st
  = match fetchRepositoryTree repo st with
    | (Throw e, st1) =>
        (warn repo e (fetchAllSkills rest st1).1, (fetchAllSkills rest st1).2)
    | (Ok tree, st1) =>
        (push (map (skillEntry repo tree) (skillDirectoriesIn tree))
           (fetchAllSkills rest st1).1,
         (fetchAllSkills rest st1).2)
    end.
Proof.
  cbn [Discovery.fetchAllSkills].
  destruct (fetchRepositoryTree repo st) as [[tree|e] st1] eqn:Hrun; [|done].
  by rewrite (findSkillDirectories_after repo st st1 tree Hrun).
Qed.

Lemma fetchRepositoryTree_requests (repo : string)
    (st : ServiceState RepositoryTree) :
  requests (fetchRepositoryTree repo st).2 = requests st \/
  exists request,
    requests (fetchRepositoryTree repo st).2 = request :: requests st.
Proof.
  unfold GitHubService.fetchRepositoryTree.
  destruct (fetchWithCache_requests token cacheExpiry fetch
              (GITHUB_API_BASE +:+ "/repos/" +:+ repo
               +:+ "/git/trees/main?recursive=1")
              ("tree:" +:+ repo) st) as [H|[validator H]];
    [by left | right; by eexists].
Qed.

(** X13.  With a positive time to live, [fetchAllSkills] sends at most one
    request for each configured repository, although it asks for every tree
    twice; the requests sent before stay on record, and a repository is
    warned about at most once per mention. *)
Theorem fetchAllSkills_requests (repositories : list string)
    (st : ServiceState RepositoryTree) :
  let r := fetchAllSkills repositories st in
  requests st `suffix_of` requests r.2 /\
  length (requests r.2) <= length (requests st) + length repositories /\
  length (warnings r.1) <= length repositories.
Proof.
  revert st. induction repositories as [|repo rest IH]; intros st.
  - cbn. split; [done|]. lia.
  - cbn zeta. rewrite fetchAllSkills_cons.
    pose proof (fetchRepositoryTree_requests repo st) as Hone.
    destruct (fetchRepositoryTree repo st) as [[tree|e] st1];
      cbn [fst snd] in *.
    all: assert (requests st `suffix_of` requests st1 /\
                 length (requests st1) <= S (length (requests st)))
           as [Hsuf Hlen]
           by (destruct Hone as [->|[request ->]];
               [split; [done | lia]
               |split; [by apply suffix_cons_r | cbn [length]; lia]]).
    all: destruct (IH st1) as (Hsuffix & Hcount & Hwarn).
    all: cbn [warn push warnings length].
    all: split; [by etrans | lia].
Qed.



End CatalogueFacts.

(** ** Where a discovered bundle is installed *)

Section DiscoveredPath.
Import Js Models Fs SkillInstaller Discovery.

Lemma includes_slash_cons (c : ascii) (r : string) :
  includes "/" (String c r) = Ascii.eqb "/" c || includes "/" r.
Proof.
  cbn [includes]. unfold startsWith. by destruct (Ascii.eqb "/" c).
Qed.

Lemma lowerChar_slash (c : ascii) :
  Ascii.eqb "/" (lowerChar c) = Ascii.eqb "/" c.
Proof. by destruct c as [[] [] [] [] [] [] [] []]. Qed.

Lemma lowerChar_dot (c : ascii) : lowerChar c = "."%char -> c = "."%char.
Proof. destruct c as [[] [] [] [] [] [] [] []]; by intros [=]. Qed.

Lemma white_not_slash (c : ascii) : isWhite c = true -> Ascii.eqb "/" c = false.
Proof. destruct c as [[] [] [] [] [] [] [] []]; by intros [=]. Qed.

Lemma sanitized_no_separator (inRun : bool) (n : string) :
  includes "/" n = false ->
  includes "/" (replaceWhiteRunsFrom inRun (toLowerCase n)) = false.
Proof.
  revert inRun. induction n as [|c n IH]; intros inRun; [done|].
  rewrite includes_slash_cons. intros [Hc Hn]%orb_false_iff.
  cbn [toLowerCase replaceWhiteRunsFrom]. rewrite lowerChar_white.
  destruct (isWhite c) eqn:Hwhite.
  - destruct inRun; [by apply IH|].
    rewrite includes_slash_cons. by rewrite IH.
  - rewrite includes_slash_cons, lowerChar_slash, Hc. by rewrite IH.
Qed.

Lemma sanitized_empty (n : string) :
  replaceWhiteRunsFrom false (toLowerCase n) = "" -> n = "".
Proof.
  destruct n as [|c n]; [done|].
  cbn [toLowerCase replaceWhiteRunsFrom]. by destruct (isWhite _).
Qed.

Lemma sanitized_dot (n rest : string) :
  replaceWhiteRunsFrom false (toLowerCase n) = String "." rest ->
  exists n', n = String "." n' /\
             replaceWhiteRunsFrom false (toLowerCase n') = rest.
Proof.
  destruct n as [|c n]; [done|].
  cbn [toLowerCase replaceWhiteRunsFrom]. rewrite lowerChar_white.
  destruct (isWhite c) eqn:Hwhite; [done|].
  intros [= Hc Hrest]. apply lowerChar_dot in Hc as ->. by exists n.
Qed.

(** X15.  A bundle as [fetchAllSkills] enters it has a name that is not
    empty and has no slash, so unless that name is a dot or two dots its
    local directory is the child of the install root called by its
    sanitised name. *)
Theorem discovered_local_path (installPath : Path) (repo dir : string)
    (tree : RepositoryTree) :
  let s := skillEntry repo tree dir in
  name s <> "." -> name s <> ".." ->
  name s <> "" /\ includes "/" (name s) = false /\
  getSkillLocalPath installPath s = (installPath ++ [sanitizedName s])%list.
Proof.
  intros s Hdot Hdots. subst s. cbn [skillEntry name] in *.
  destruct (skillName_plain repo dir) as [Hne Hplain].
  split; [done|]. split; [done|].
  unfold getSkillLocalPath, sanitizedName, replaceWhiteRuns.
  cbn [skillEntry name]. apply join_plain.
  - by apply sanitized_no_separator.
  - by intros ?%sanitized_empty.
  - intros (n' & Hn & ->%sanitized_empty)%sanitized_dot. done.
  - intros (n' & Hn & (n'' & -> & ->%sanitized_empty)%sanitized_dot)%sanitized_dot.
    done.
Qed.

End DiscoveredPath.

(** ** The properties of the cache and of discovery at the tree of
    [acme/demo] *)

Section DiscoveryInstances.
Import Js Models GitHubService Fs SkillInstaller Discovery Examples
  DiscoveryExamples.

Lemma fetch_stays_fresh_witness :
  exists deadline,
    (now (fetchWithCache "" 3600000 (serving demoTree) treeUrl treeKey
            freshService).2 < deadline)%Z /\
    forall url' st',
      cache st' !! treeKey
      = cache (fetchWithCache "" 3600000 (serving demoTree) treeUrl treeKey
                 freshService).2 !! treeKey ->
      (now st' < deadline)%Z ->
      fetchWithCache "" 3600000 (serving demoTree) url' treeKey st'
      = (GitHubService.Ok demoTree, st').
Proof.
  apply (fetch_stays_fresh "" 3600000 (serving demoTree) treeUrl treeKey
           freshService demoTree); [lia | reflexivity].
Defined.

Lemma manifest_directory_listed_witness :
  "skills/a" ∈ skillDirectoriesIn demoTree /\
  exists file, file ∈ getSkillFiles demoTree "skills/a" /\
               sf_name file = "SKILL.md" /\ sf_type file = File /\
               sf_path file = "skills/a/SKILL.md".
Proof.
  apply (manifest_directory_listed demoTree (node "skills/a/SKILL.md" Blob)
           "skills/a"); try reflexivity; try discriminate.
  apply list_elem_of_In. cbn. auto 10.
Defined.

Lemma fetchAllSkills_requests_witness :
  let r := fetchAllSkills "" 3600000 (serving demoTree)
             ["acme/demo"; "acme/demo"] freshService in
  requests freshService `suffix_of` requests r.2 /\
  length (requests r.2) <= length (requests freshService) + 2 /\
  length (warnings r.1) <= 2.
Proof.
  apply (fetchAllSkills_requests "" 3600000 (serving demoTree)); lia.
Defined.


Lemma discovered_local_path_witness :
  getSkillLocalPath installRoot (skillEntry "acme/demo" demoTree "skills/a")
  = ["home"; "u"; "skills"; "a"].
Proof.
  apply (discovered_local_path installRoot "acme/demo" "skills/a" demoTree);
    intros H; discriminate H.
Defined.

End DiscoveryInstances.

(** ** Manifests with a header block *)

Section HeaderFacts.
Import Js SkillParser Reading Manifests.

Lemma matchBody_cons (c : ascii) (r : string) :
  matchBody (String c r)
  = match matchClosing (String c r) with
    | Some body => Some (EmptyString, body)
    | None =>
        match matchBody r with
        | Some (fm, body) => Some (String c fm, body)
        | None => None
        end
    end.
Proof. reflexivity. Qed.

Lemma whiteThenNewline_cons (c : ascii) (r : string) :
  whiteThenNewline (String c r)
  = if isWhite c
    then (whiteThenNewline r ++ (if Ascii.eqb c LF then [r] else []))%list
    else [].
Proof. reflexivity. Qed.

Lemma whiteThenNewline_text (s : string) :
  trimStart s = s -> whiteThenNewline s = [].
Proof.
  destruct s as [|c s]; [done|]. rewrite trimStart_cons, whiteThenNewline_cons.
  destruct (isWhite c); [|done].
  intros H. exfalso.
  assert (forall x, String.length (trimStart x) <= String.length x) as Hlen.
  { induction x as [|a x IH]; [done|]. rewrite trimStart_cons.
    destruct (isWhite a); simpl; lia. }
  specialize (Hlen s). rewrite H in Hlen. simpl in Hlen. lia.
Qed.

(** One line break, then text that does not begin with white space: the
    only way to match white space and a line break is the line break. *)
Lemma whiteThenNewline_line (s : string) :
  trimStart s = s -> whiteThenNewline (String LF s) = [s].
Proof.
  intros H. rewrite whiteThenNewline_cons.
  by rewrite (whiteThenNewline_text s H).
Qed.

(** The closing fence cannot begin inside [fm] and end in the fence that
    follows it: the line break is its first character only. *)
Lemma closing_not_astride (fm rest : string) :
  startsWith closingFence (fm +:+ closingFence +:+ rest) = true ->
  fm = "" \/ startsWith closingFence fm = true.
Proof.
  intros H. apply startsWith_spec in H as [after H].
  destruct fm as [|c1 fm]; [by left|]. right.
  repeat (destruct fm as [|? fm]; [discriminate H|]).
  injection H as -> -> -> -> _.
  apply startsWith_spec. by eexists.
Qed.

Lemma matchBody_fenced (fm body : string) :
  includes closingFence fm = false -> trimStart body = body ->
  matchBody (fm +:+ closingFence +:+ String LF body) = Some (fm, body).
Proof.
  intros Hno Hbody. induction fm as [|c fm IH].
  - change ("" +:+ closingFence +:+ String LF body)
      with (String LF ("---" +:+ String LF body)).
    rewrite matchBody_cons. unfold matchClosing.
    change (startsWith closingFence (String LF ("---" +:+ String LF body)))
      with true.
    change (sliceFrom 4 (String LF ("---" +:+ String LF body)))
      with (String LF body).
    by rewrite whiteThenNewline_line.
  - cbn [includes] in Hno. apply orb_false_iff in Hno as [Hhere Hlater].
    change (String c fm +:+ closingFence +:+ String LF body)
      with (String c (fm +:+ closingFence +:+ String LF body)).
    rewrite matchBody_cons. unfold matchClosing.
    destruct (startsWith closingFence
                (String c (fm +:+ closingFence +:+ String LF body)))
      eqn:Hstart.
    + apply (closing_not_astride (String c fm)) in Hstart as [?|Hstart];
        [done | congruence].
    + by rewrite (IH Hlater).
Qed.

Lemma extractFrontmatter_manifest (fm body : string) :
  fm <> "" -> trimStart fm = fm ->
  extractFrontmatter (manifest fm body)
  = matchBody (fm +:+ closingFence +:+ String LF body).
Proof.
  intros Hne Hfm. unfold extractFrontmatter, manifest.
  change (startsWith "---" ("---" +:+ String LF
            (fm +:+ closingFence +:+ String LF body))) with true.
  change (sliceFrom 3 ("---" +:+ String LF
            (fm +:+ closingFence +:+ String LF body)))
    with (String LF (fm +:+ closingFence +:+ String LF body)).
  rewrite whiteThenNewline_line.
  - cbn [firstMatch]. by destruct (matchBody _).
  - destruct fm as [|c fm]; [done|].
    change (String c fm +:+ closingFence +:+ String LF body)
      with (String c (fm +:+ closingFence +:+ String LF body)).
    rewrite trimStart_cons in *. destruct (isWhite c); [|done].
    exfalso.
    assert (forall x, String.length (trimStart x) <= String.length x) as Hlen.
    { induction x as [|a x IH]; [done|]. rewrite trimStart_cons.
      destruct (isWhite a); simpl; lia. }
    specialize (Hlen fm). rewrite Hfm in Hlen. simpl in Hlen. lia.
Qed.

(** X16.  A manifest made of a header block between two fences and a body
    is taken apart into exactly that block and that body, when the block
    is not empty, does not begin with white space and holds no line that
    begins with three hyphens after its first, and the body does not begin
    with white space; the fields of the parse are then read from that
    block, and the description falls back to that body. *)
Theorem parse_manifest_with_header (fm body : string) :
  fm <> "" -> trimStart fm = fm -> includes closingFence fm = false ->
  trimStart body = body ->
  extractFrontmatter (manifest fm body) = Some (fm, body) /\
  md_name (parseSkillMd (manifest fm body))
    = Some (orDefault (parseSimpleYaml fm !! "name") (YStr "Unknown Skill")) /\
  md_description (parseSkillMd (manifest fm body))
    = Some (orDefault (parseSimpleYaml fm !! "description")
              (YStr (extractDescription body))) /\
  md_tags (parseSkillMd (manifest fm body)) = parseSimpleYaml fm !! "tags".
Proof.
  intros Hne Hfm Hno Hbody.
  assert (extractFrontmatter (manifest fm body) = Some (fm, body)) as Hparts
    by (by rewrite extractFrontmatter_manifest, matchBody_fenced).
  split; [done|]. unfold parseSkillMd. by rewrite Hparts.
Qed.

End HeaderFacts.

(** ** Header lines *)

Section YamlFacts.
Import Js SkillParser Reading Manifests.

Lemma includes_first (a : ascii) (p s : string) :
  includes (String a p) s = true -> includes (String a "") s = true.
Proof.
  induction s as [|c s IH]; cbn [includes]; rewrite !orb_true_iff.
  - intros [H|H]; [|done]. by apply startsWith_spec in H as [rest H].
  - intros [H|H]; [left | right; by apply IH].
    apply startsWith_spec in H as [rest [= <- _]].
    apply startsWith_spec. by eexists.
Qed.

Lemma includes_cons_false (p : string) (c : ascii) (s : string) :
  includes p (String c s) = false -> includes p s = false.
Proof. cbn [includes]. by intros [_ H]%orb_false_iff. Qed.

Lemma split_without (sep : ascii) (s : string) :
  includes (String sep "") s = false -> split sep s = [s].
Proof.
  induction s as [|c s IH]; [done|]. intros H.
  pose proof (includes_cons_false _ _ _ H) as Hs.
  cbn [split]. rewrite (IH Hs).
  destruct (Ascii.eqb_spec c sep) as [->|]; [|done].
  exfalso. cbn [includes] in H. apply orb_false_iff in H as [H _].
  unfold startsWith in H. by rewrite Ascii.eqb_refl in H.
Qed.

Lemma append_nonempty (a b : string) : b <> "" -> a +:+ b <> "".
Proof. by destruct a, b. Qed.

Lemma isEmpty_false (s : string) : s <> "" -> isEmpty s = false.
Proof. by destruct s. Qed.

Lemma trimEnd_append (a b : string) :
  trimEnd b = b -> b <> "" -> trimEnd (a +:+ b) = a +:+ b.
Proof.
  intros Hb Hne. induction a as [|c a IH]; [done|].
  change (String c a +:+ b) with (String c (a +:+ b)).
  rewrite trimEnd_cons, IH.
  by rewrite (isEmpty_false _ (append_nonempty a b Hne)), andb_false_r.
Qed.

Lemma trimStart_append (a b : string) :
  trimStart a = a -> a <> "" -> trimStart (a +:+ b) = a +:+ b.
Proof.
  intros Ha Hne. destruct a as [|c a]; [done|].
  change (String c a +:+ b) with (String c (a +:+ b)).
  rewrite trimStart_cons in *. destruct (isWhite c); [|done].
  exfalso.
  assert (forall x, String.length (trimStart x) <= String.length x) as Hlen.
  { induction x as [|y x IH]; [done|]. rewrite trimStart_cons.
    destruct (isWhite y); simpl; lia. }
  specialize (Hlen a). rewrite Ha in Hlen. simpl in Hlen. lia.
Qed.

Lemma trim_plain (s : string) : plain s -> trim s = s.
Proof. intros (_ & Hstart & Hend & _). unfold trim. by rewrite Hstart. Qed.

(** A line that gives a scalar to a key ends the list that was open. *)
Lemma yamlLine_name (st : YamlState) (v : string) :
  plain v -> currentArray st = None ->
  yamlLine st (nameLine v)
  = {| result := <["name" := YStr (stripQuotes v)]> (result st);
       currentKey := "name"; currentArray := None |}.
Proof.
  intros Hv Harr. pose proof Hv as (Hne & Hstart & Hend & Hline).
  unfold yamlLine.
  assert (trim (nameLine v) = nameLine v) as ->.
  { unfold trim, nameLine.
    change (trimStart ("name: " +:+ v)) with ("name: " +:+ v).
    by apply trimEnd_append. }
  change (isEmpty (nameLine v) || startsWith "#" (nameLine v)) with false.
  change (startsWith "- " (nameLine v)) with false.
  change (indexOf ":" (nameLine v)) with (Some 4).
  cbv beta iota zeta.
  change (sliceTo 4 (nameLine v)) with "name".
  change (sliceFrom 5 (nameLine v)) with (String " " v).
  change (trim "name") with "name".
  rewrite trim_white_cons by done. rewrite (trim_plain v Hv).
  by rewrite (isEmpty_false v Hne), Harr.
Qed.

(** X17.  A header whose only line is the name gives that name, with one
    quote taken off each end, when the value is on one line and has no
    white space around it; a value that is only quotes gives the
    placeholder name. *)
Theorem name_line_parsed (v body : string) :
  plain v -> trimStart body = body ->
  parseSimpleYaml (nameLine v) = {[ "name" := YStr (stripQuotes v) ]} /\
  md_name (parseSkillMd (manifest (nameLine v) body))
    = Some (YStr (if isEmpty (stripQuotes v) then "Unknown Skill"
                  else stripQuotes v)).
Proof.
  intros Hv Hbody. pose proof Hv as (Hne & Hstart & Hend & Hline).
  assert (parseSimpleYaml (nameLine v) = {[ "name" := YStr (stripQuotes v) ]})
    as Hyaml.
  { unfold parseSimpleYaml, splitLines.
    rewrite (split_without LF (nameLine v)) by exact Hline.
    cbn [fold_left]. by rewrite yamlLine_name. }
  split; [done|].
  assert (extractFrontmatter (manifest (nameLine v) body)
          = Some (nameLine v, body)) as Hparts.
  { rewrite extractFrontmatter_manifest by done.
    apply matchBody_fenced; [|done].
    apply not_true_iff_false. intros H%includes_first.
    change (includes (String LF "") (nameLine v))
      with (includes (String LF "") v) in H. congruence. }
  unfold parseSkillMd. rewrite Hparts, Hyaml. cbn [md_name].
  rewrite lookup_singleton_eq. unfold orDefault, truthyValue, truthy.
  by destruct (stripQuotes v).
Qed.

End YamlFacts.

(** ** Lists in the header *)

Section YamlLists.
Import Js SkillParser Reading Manifests.

Lemma word_character (c : ascii) :
  isWord c = true ->
  isWhite c = false /\ Ascii.eqb c ":" = false /\
  Ascii.eqb "#" c = false /\ Ascii.eqb "-" c = false.
Proof.
  destruct c as [[] [] [] [] [] [] [] []]; intros H;
    (discriminate H || done).
Qed.

Lemma trimEnd_word (s : string) : allChars isWord s = true -> trimEnd s = s.
Proof.
  induction s as [|c s IH]; [done|]. cbn [allChars].
  intros [Hc Hs]%andb_true_iff. rewrite trimEnd_cons, (IH Hs).
  by destruct (word_character c Hc) as (-> & _).
Qed.

Lemma indexOf_colon_after (key rest : string) :
  allChars isWord key = true ->
  indexOf ":" (key +:+ String ":" rest) = Some (String.length key).
Proof.
  induction key as [|c key IH]; [done|]. cbn [allChars].
  intros [Hc Hs]%andb_true_iff.
  change (String c key +:+ String ":" rest)
    with (String c (key +:+ String ":" rest)).
  cbn [indexOf String.length]. rewrite (IH Hs).
  by destruct (word_character c Hc) as (_ & -> & _).
Qed.

Lemma sliceTo_append (a b : string) : sliceTo (String.length a) (a +:+ b) = a.
Proof.
  induction a as [|c a IH]; [by destruct b|].
  change (String c a +:+ b) with (String c (a +:+ b)).
  cbn [String.length]. change (sliceTo (S ?n) (String ?x ?r))
    with (String x (sliceTo n r)). by rewrite IH.
Qed.

Lemma sliceFrom_after (a : string) (c : ascii) (b : string) :
  sliceFrom (S (String.length a)) (a +:+ String c b) = b.
Proof. induction a as [|x a IH]; [by destruct b | done]. Qed.

(** A key with nothing after its colon opens a list. *)
Lemma yamlLine_key (st : YamlState) (key : string) :
  key <> "" -> allChars isWord key = true -> currentArray st = None ->
  yamlLine st (key +:+ ":")
  = {| result := result st; currentKey := key; currentArray := Some [] |}.
Proof.
  intros Hne Hword Harr. unfold yamlLine.
  assert (trim key = key) as Hkey.
  { unfold trim. destruct key as [|c key]; [done|].
    pose proof Hword as [Hc _]%andb_true_iff.
    destruct (word_character c Hc) as (Hwhite & _).
    rewrite trimStart_cons, Hwhite. by apply trimEnd_word. }
  assert (trim (key +:+ ":") = key +:+ ":") as ->.
  { unfold trim. destruct key as [|c key]; [done|].
    pose proof Hword as [Hc _]%andb_true_iff.
    destruct (word_character c Hc) as (Hwhite & _).
    change (String c key +:+ ":") with (String c (key +:+ ":")).
    rewrite trimStart_cons, Hwhite.
    by apply (trimEnd_append (String c key) ":"). }
  assert (isEmpty (key +:+ ":") || startsWith "#" (key +:+ ":") = false) as ->.
  { destruct key as [|c key]; [done|].
    pose proof Hword as [Hc _]%andb_true_iff.
    destruct (word_character c Hc) as (_ & _ & Hhash & _).
    change (String c key +:+ ":") with (String c (key +:+ ":")).
    cbn [isEmpty orb]. unfold startsWith. by rewrite Hhash. }
  assert (startsWith "- " (key +:+ ":") = false) as ->.
  { destruct key as [|c key]; [done|].
    pose proof Hword as [Hc _]%andb_true_iff.
    destruct (word_character c Hc) as (_ & _ & _ & Hhyphen).
    change (String c key +:+ ":") with (String c (key +:+ ":")).
    unfold startsWith. by rewrite Hhyphen. }
  rewrite (indexOf_colon_after key "" Hword).
  destruct key as [|c key]; [done|]. cbn [String.length].
  cbv beta iota zeta.
  change (S (String.length key)) with (String.length (String c key)).
  rewrite sliceTo_append, sliceFrom_after, Hkey, Harr.
  reflexivity.
Qed.

(** An item line is added to the open list. *)
Lemma yamlLine_item (st : YamlState) (item : string) (arr : list string) :
  plain item -> currentArray st = Some arr ->
  yamlLine st ("- " +:+ item)
  = {| result := result st; currentKey := currentKey st;
       currentArray := Some (arr ++ [item])%list |}.
Proof.
  intros Hitem Harr. pose proof Hitem as (Hne & Hstart & Hend & Hline).
  unfold yamlLine.
  assert (trim ("- " +:+ item) = "- " +:+ item) as ->.
  { unfold trim. change (trimStart ("- " +:+ item)) with ("- " +:+ item).
    by apply trimEnd_append. }
  change (isEmpty ("- " +:+ item) || startsWith "#" ("- " +:+ item)) with false.
  change (startsWith "- " ("- " +:+ item)) with true.
  cbv beta iota zeta. rewrite Harr.
  change (sliceFrom 2 ("- " +:+ item)) with item.
  by rewrite (trim_plain item Hitem).
Qed.

Lemma fold_items (items arr : list string) (st : YamlState) :
  Forall plain items -> currentArray st = Some arr ->
  fold_left yamlLine (map (fun item => "- " +:+ item) items) st
  = {| result := result st; currentKey := currentKey st;
       currentArray := Some (arr ++ items)%list |}.
Proof.
  intros Hitems. revert st arr.
  induction Hitems as [|item items Hitem _ IH]; intros st arr Harr.
  - cbn [map fold_left]. rewrite app_nil_r, <- Harr. by destruct st.
  - cbn [map fold_left]. rewrite (yamlLine_item st item arr Hitem Harr).
    rewrite (IH _ (arr ++ [item])%list) by done. cbn [result currentKey].
    by rewrite <- app_assoc.
Qed.

Lemma splitLines_items (first : string) (items : list string) :
  includes (String LF "") first = false -> Forall plain items ->
  splitLines (first +:+ itemLines items)
  = first :: map (fun item => "- " +:+ item) items.
Proof.
  intros Hfirst Hitems. revert first Hfirst.
  induction Hitems as [|item items Hitem _ IH]; intros first Hfirst.
  - cbn [itemLines map]. replace (first +:+ "") with first
      by (clear; induction first as [|c f IHf]; [done | simpl; by rewrite <- IHf]).
    by apply split_without.
  - cbn [itemLines map]. unfold splitLines in *.
    rewrite split_after_separator, (split_without LF first Hfirst).
    rewrite <- append_assoc. rewrite IH; [done|].
    destruct Hitem as (_ & _ & _ & Hline).
    change (includes (String LF "") ("- " +:+ item))
      with (includes (String LF "") item). exact Hline.
Qed.

Lemma word_one_line (key rest : string) :
  allChars isWord key = true ->
  includes (String LF "") (key +:+ rest) = includes (String LF "") rest.
Proof.
  induction key as [|c key IH]; [done|]. cbn [allChars].
  intros [Hc Hs]%andb_true_iff.
  change (String c key +:+ rest) with (String c (key +:+ rest)).
  cbn [includes]. rewrite (IH Hs).
  assert (startsWith (String LF "") (String c (key +:+ rest)) = false) as ->;
    [|done].
  unfold startsWith. destruct (Ascii.eqb_spec LF c) as [<-|]; [|done].
  by destruct (word_character LF Hc).
Qed.

(** X18.  A key made of letters, digits and underscores, followed by a
    colon and by lines that each hold a hyphen, a space and an item, is
    parsed to the list of the items in their order; a key with no item
    line gets the empty list.  The key [__proto__] is the exception: the
    list becomes the prototype of the result, which gets no property. *)
Theorem list_block_parsed (key : string) (items : list string) :
  key <> "" -> allChars isWord key = true -> Forall plain items ->
  parseSimpleYaml (listBlock key items)
  = if String.eqb key "__proto__" then ∅ else {[ key := YArr items ]}.
Proof.
  intros Hne Hword Hitems. unfold parseSimpleYaml, listBlock.
  rewrite <- append_assoc.
  rewrite (splitLines_items (key +:+ ":") items)
    by (done || by rewrite word_one_line).
  cbn [fold_left]. rewrite yamlLine_key by done.
  rewrite (fold_items items []) by done.
  cbn [currentArray currentKey result app].
  unfold truthy. rewrite (isEmpty_false key Hne). cbn [negb].
  unfold setProperty. by destruct (String.eqb key "__proto__").
Qed.

End YamlLists.

(** ** Validating what was parsed *)

Section ValidationFacts.
Import Js SkillParser Reading.

(** X19.  The metadata parsed from a manifest is valid exactly when the
    manifest has a header block in which [name] has a truthy value other
    than the placeholder; a manifest without a header block is never
    valid. *)
Theorem parsed_manifest_valid (content : string) :
  (isValid (validateSkill (parseSkillMd content)) = true <->
   exists fm body v,
     extractFrontmatter content = Some (fm, body) /\
     parseSimpleYaml fm !! "name" = Some v /\
     truthyValue (Some v) = true /\ v <> YStr "Unknown Skill") /\
  (extractFrontmatter content = None ->
   validateSkill (parseSkillMd content)
   = {| isValid := false; errors := [nameRequired];
        warnings := if isEmpty (extractDescription content)
                    then [descriptionRecommended] else [] |}).
Proof.
  unfold parseSkillMd.
  destruct (extractFrontmatter content) as [[fm body]|] eqn:Hparts.
  - split; [|done]. unfold validateSkill. cbn [md_name isValid].
    destruct (parseSimpleYaml fm !! "name") as [[s|items]|] eqn:Hname.
    + unfold orDefault. destruct s as [|c s].
      * split; [done|]. intros (? & ? & v & [= <- <-] & Hv & Htruthy & _).
        rewrite Hname in Hv. by injection Hv as <-.
      * cbn [truthyValue truthy isEmpty negb orb isUnknownSkill].
        destruct (String.eqb_spec (String c s) unknownSkill) as [Heq|Hne].
        -- split; [done|]. intros (? & ? & v & [= <- <-] & Hv & _ & Hv').
           rewrite Hname in Hv. injection Hv as <-. by rewrite Heq in Hv'.
        -- split; [|done]. intros _. exists fm, body, (YStr (String c s)).
           repeat split; try done. intros H. apply Hne.
           unfold unknownSkill. congruence.
    + split; [|done]. intros _. exists fm, body, (YArr items). by repeat split.
    + split; [done|]. intros (? & ? & v & [= <- <-] & Hv & _).
      by rewrite Hname in Hv.
  - split.
    + split; [done|]. by intros (? & ? & ? & ? & _).
    + intros _. unfold validateSkill.
      cbn [md_name md_description truthyValue truthy isUnknownSkill].
      by destruct (extractDescription content).
Qed.

End ValidationFacts.

(** ** What is sent, and what is remembered of the quota *)

Section RequestFacts.
Import Js Models GitHubService.

Context {T : Type}.
Variable token : string.
Variable cacheExpiry : Z.
Variable fetch : Request -> Reply T.

Lemma getHeaders_token (validator : option string) :
  (token <> "" ->
   ("Authorization", "Bearer " +:+ token) ∈ getHeaders token validator) /\
  (token = "" -> "Authorization" ∉ map fst (getHeaders token validator)).
Proof.
  unfold getHeaders. split.
  - intros Hne. destruct token as [|c t]; [done|]. cbn [truthy isEmpty negb].
    apply list_elem_of_In, in_app_iff. right. apply in_app_iff. left. by left.
  - intros ->. cbn [truthy isEmpty negb]. intros H.
    apply list_elem_of_In in H.
    destruct validator as [e|]; [destruct (truthy e)|]; simpl in H;
      intuition discriminate.
Qed.

(** X20.  The request a tree or file-content fetch sends, if it sends one,
    goes to the API host under the path of the repository, and carries
    the configured token as a bearer authorisation exactly when a token is
    configured. *)
Theorem token_goes_to_api (repo path : string) (st : ServiceState T) :
  let sent (r : Result T * ServiceState T) :=
    requests r.2 = requests st \/
    exists request,
      requests r.2 = request :: requests st /\
      startsWith "https://api.github.com/repos/" (req_url request) = true /\
      (token <> "" ->
       ("Authorization", "Bearer " +:+ token) ∈ req_headers request) /\
      (token = "" -> "Authorization" ∉ map fst (req_headers request)) in
  sent (fetchRepositoryTree token cacheExpiry fetch repo st) /\
  sent (fetchFileContent token cacheExpiry fetch repo path st).
Proof.
  intros sent. subst sent. cbv beta.
  unfold fetchRepositoryTree, fetchFileContent.
  split.
  - destruct (fetchWithCache_requests token cacheExpiry fetch
                (GITHUB_API_BASE +:+ "/repos/" +:+ repo
                 +:+ "/git/trees/main?recursive=1")
                ("tree:" +:+ repo) st) as [H|[validator H]]; [by left|].
    right. eexists. split; [exact H|]. split; [done|].
    apply getHeaders_token.
  - destruct (fetchWithCache_requests token cacheExpiry fetch
                (GITHUB_API_BASE +:+ "/repos/" +:+ repo
                 +:+ "/contents/" +:+ path)
                ("file:" +:+ repo +:+ ":" +:+ path) st) as [H|[validator H]];
      [by left|].
    right. eexists. split; [exact H|]. split; [done|].
    apply getHeaders_token.
Qed.

(** X21.  The quota on record is never forgotten: once a response has
    carried the three quota headers, every later fetch, whatever it is
    answered, and [clearCache] leave some quota on record; a fetch that
    is served from the cache or gets no response leaves it as it was. *)
Theorem quota_stays_on_record (url cacheKey : string) (st : ServiceState T) :
  let r := fetchWithCache token cacheExpiry fetch url cacheKey st in
  (is_Some (rateLimitInfo st) -> is_Some (rateLimitInfo r.2)) /\
  (requests r.2 = requests st -> rateLimitInfo r.2 = rateLimitInfo st) /\
  (r.1 = Throw FetchRejected -> rateLimitInfo r.2 = rateLimitInfo st) /\
  rateLimitInfo (clearCache st) = rateLimitInfo st.
Proof.
  intros r. subst r.
  assert (forall headers,
            is_Some (rateLimitInfo st) ->
            is_Some (updateRateLimit headers (rateLimitInfo st))) as Hkept.
  { intros headers Hsome. unfold updateRateLimit.
    destruct (headers !! "x-ratelimit-limit") as [l|]; [|done].
    destruct (headers !! "x-ratelimit-remaining") as [m|]; [|done].
    destruct (headers !! "x-ratelimit-reset") as [t|]; [|done].
    by destruct (truthy l && truthy m && truthy t). }
  unfold fetchWithCache.
  destruct (cacheHit (cache st !! cacheKey) (now st)) as [?|]; [done|].
  destruct (outcome (fetch _)) as [response|];
    [|cbn [fst snd rateLimitInfo requests]; repeat split; try done].
  destruct (notModified (cache st !! cacheKey) response) as [?|];
    [|destruct (ok response);
      [destruct (resp_json response) as [?|]
      |destruct ((status response =? 403)%Z && quotaIsZero _)]];
    cbn [negb fst snd setCache advance cache now requests rateLimitInfo];
    (split; [apply Hkept|]); (split; [|done]); intros Hreq;
    exfalso; revert Hreq; clear; generalize (requests st);
    intros l H; apply (f_equal length) in H; simpl in H; lia.
Qed.

End RequestFacts.

(** ** Letter case in names and paths *)

Section CaseFacts.
Import Js SkillParser Reading.

Lemma toLowerCase_append (a b : string) :
  toLowerCase (a +:+ b) = toLowerCase a +:+ toLowerCase b.
Proof. induction a as [|c a IH]; [done|]. simpl. by rewrite IH. Qed.

Lemma occursIn_lower (u s : string) :
  occursIn u s -> occursIn (toLowerCase u) (toLowerCase s).
Proof.
  intros (before & after & ->). exists (toLowerCase before), (toLowerCase after).
  by rewrite !toLowerCase_append.
Qed.

(** X22.  Category inference does not tell capitals from small letters:
    lower-casing the name and the path changes nothing, and a keyword
    occurring in the name or in the path in any letter case makes the
    inference find a category. *)
Theorem inferCategory_ignores_case (skillName path : string) :
  inferCategory (toLowerCase skillName) (toLowerCase path)
  = inferCategory skillName path /\
  forall u category keywords,
    (category, keywords) ∈ categoryPatterns -> toLowerCase u ∈ keywords ->
    occursIn u skillName \/ occursIn u path ->
    is_Some (inferCategory skillName path).
Proof.
  split.
  - unfold inferCategory.
    by rewrite !toLowerCase_append, !toLowerCase_toLowerCase.
  - intros u category keywords Hentry Hkeyword Hocc.
    destruct (inferCategory skillName path) as [c|] eqn:Hnone; [done|].
    exfalso. unfold inferCategory in Hnone.
    apply firstCategory_None in Hnone. rewrite Forall_forall in Hnone.
    specialize (Hnone _ Hentry). cbn [snd] in Hnone.
    apply (proj1 (someIncluded_false _ _) Hnone _ Hkeyword).
    destruct Hocc as [(before & after & ->)|(before & after & ->)].
    + exists (toLowerCase before),
        (toLowerCase after +:+ toLowerCase (" " +:+ path)).
      by rewrite !toLowerCase_append, !append_assoc.
    + exists (toLowerCase skillName +:+ " " +:+ toLowerCase before),
        (toLowerCase after).
      by rewrite !toLowerCase_append, !append_assoc.
Qed.

End CaseFacts.

(** ** The properties of headers at small manifests *)

Section HeaderInstances.
Import Js SkillParser Reading Manifests.

Lemma parse_manifest_with_header_witness :
  extractFrontmatter (manifest "name: demo" "# Demo")
    = Some ("name: demo", "# Demo") /\
  md_name (parseSkillMd (manifest "name: demo" "# Demo"))
    = Some (YStr "demo").
Proof.
  destruct (parse_manifest_with_header "name: demo" "# Demo")
    as (Hparts & Hname & _); [done | reflexivity..|].
  split; [exact Hparts | exact Hname].
Defined.

Lemma name_line_parsed_witness :
  md_name (parseSkillMd (manifest (nameLine "'My Skill'") "Text."))
  = Some (YStr "My Skill").
Proof.
  apply (name_line_parsed "'My Skill'" "Text."); [|reflexivity].
  split; [discriminate|]. repeat split; reflexivity.
Defined.

Lemma list_block_parsed_witness :
  parseSimpleYaml (listBlock "tags" ["shell"; "code review"])
  = {[ "tags" := YArr ["shell"; "code review"] ]}.
Proof.
  apply (list_block_parsed "tags" ["shell"; "code review"]);
    [discriminate | reflexivity |].
  repeat constructor; discriminate.
Defined.

End HeaderInstances.

(** ** The bundles on disk *)

Section ListingFacts.
Import Js Models Fs SkillParser SkillInstaller Listing.

Variable Json : Type.
Variable truthyJson : Json -> bool.
Variable parseJson : string -> option (option (gmap string Json)).
Variable installPath : Path.

#[local] Abbreviation listInstalled :=
  (listInstalled Json truthyJson parseJson installPath).
#[local] Abbreviation installedSkillAt :=
  (installedSkillAt Json truthyJson parseJson installPath).

Lemma childOf_spec (p q : Path) (name : string) :
  childOf p q = Some name <-> q = (p ++ [name])%list.
Proof.
  revert q. induction p as [|a p IH]; intros q.
  - destruct q as [|b [|c q]]; cbn [childOf app]; split; try done;
      by intros [= ->].
  - destruct q as [|b q]; cbn [childOf app]; [done|].
    destruct (String.eqb_spec a b) as [->|Hne].
    + rewrite IH. split; [by intros -> | by intros [= ->]].
    + split; [done | by intros [= ? _]].
Qed.

Lemma readdir_entries (f : FS) (p : Path) (entries : list (string * Node))
    (name : string) (node : Node) :
  readdir f p = inr entries ->
  (name, node) ∈ entries <-> f !! (p ++ [name])%list = Some node.
Proof.
  unfold readdir. destruct (f !! p) as [[]|]; [done| |done].
  intros [= <-]. rewrite list_elem_of_omap. split.
  - intros ([q node'] & Hin & Hentry). cbn [fst snd] in Hentry.
    apply elem_of_map_to_list in Hin.
    destruct (childOf p q) as [name'|] eqn:Hchild; [|done].
    injection Hentry as -> ->. apply childOf_spec in Hchild as ->. done.
  - intros Hnode. exists ((p ++ [name])%list, node).
    split; [by apply elem_of_map_to_list|]. cbn [fst snd].
    by rewrite (proj2 (childOf_spec p _ name) eq_refl).
Qed.

Lemma missingErrno_cases (f : FS) (reversed : list string) :
  missingErrno f reversed = ENOENT \/
  (missingErrno f reversed = ENOTDIR /\
   exists q content, q `prefix_of` rev reversed /\
                     f !! q = Some (FileNode content)).
Proof.
  induction reversed as [|x parent IH]; [by left|]. cbn [missingErrno rev].
  destruct (f !! rev parent) as [[content|]|] eqn:Hparent.
  - right. split; [done|]. exists (rev parent), content.
    split; [by apply prefix_app_r | done].
  - by left.
  - destruct IH as [?|(? & q & content & Hq & Hfile)]; [by left|].
    right. split; [done|]. exists q, content.
    split; [by apply prefix_app_r | done].
Qed.

(** In a well-formed file system a file above a missing path is found. *)
Lemma missingErrno_file (f : FS) (reversed : list string) (q : Path)
    (content : string) :
  wellFormed f -> q `prefix_of` rev reversed -> q <> rev reversed ->
  f !! q = Some (FileNode content) -> missingErrno f reversed = ENOTDIR.
Proof.
  intros Hwf. induction reversed as [|x parent IH]; intros Hq Hne Hfile.
  - cbn [rev] in *. destruct Hq as [k Hk]. symmetry in Hk.
    by apply app_eq_nil in Hk as [-> _].
  - cbn [rev missingErrno] in *.
    assert (q `prefix_of` rev parent) as Hbelow.
    { destruct Hq as [k Hk]. induction k as [|y k' _] using rev_ind.
      - by rewrite app_nil_r in Hk.
      - rewrite app_assoc in Hk. apply app_inj_tail in Hk as [-> _].
        by eexists. }
    destruct (decide (q = rev parent)) as [->|Hproper]; [by rewrite Hfile|].
    destruct (f !! rev parent) as [node|] eqn:Hparent; [|by apply IH].
    pose proof (Hwf _ _ _ Hparent Hbelow Hproper). congruence.
Qed.

(** X23.  [listInstalled] fails only with [ENOTDIR], and only when the
    install root or a directory above it is a file; in a well-formed file
    system such a file always makes it fail.  With no such file, a missing
    install root gives the empty list.  Every bundle it lists is a
    directory entry of the install root that holds a manifest file, and
    its name and description are those parsed from that manifest. *)
Theorem listInstalled_entries (f : FS) :
  (forall e, listInstalled f = inl e ->
     e = ENOTDIR /\
     exists q content, q `prefix_of` installPath /\
                       f !! q = Some (FileNode content)) /\
  (wellFormed f ->
   forall q content,
     q `prefix_of` installPath -> f !! q = Some (FileNode content) ->
     listInstalled f = inl ENOTDIR) /\
  ((forall q content,
      q `prefix_of` installPath -> f !! q <> Some (FileNode content)) ->
   f !! installPath = None -> listInstalled f = inr []) /\
  (forall listed, listInstalled f = inr listed ->
     forall e, e ∈ listed ->
       exists name content,
         f !! (installPath ++ [name])%list = Some DirNode /\
         is_localPath e = join installPath name /\
         f !! join (is_localPath e) "SKILL.md" = Some (FileNode content) /\
         is_name e = md_name (parseSkillMd content) /\
         is_description e = md_description (parseSkillMd content)).
Proof.
  unfold Listing.listInstalled. split; [|split; [|split]].
  - intros e. unfold readdir.
    destruct (f !! installPath) as [[content|]|] eqn:Hroot; [|done|].
    + intros [= <-]. split; [done|]. by exists installPath, content.
    + destruct (missingErrno_cases f (rev installPath))
        as [->|(-> & q & content & Hq & Hfile)]; [done|].
      intros [= <-]. split; [done|]. exists q, content.
      by rewrite rev_involutive in Hq.
  - intros Hwf q content Hq Hfile. unfold readdir.
    destruct (decide (q = installPath)) as [->|Hproper]; [by rewrite Hfile|].
    destruct (f !! installPath) as [node|] eqn:Hroot.
    + pose proof (Hwf _ _ _ Hroot Hq Hproper). congruence.
    + rewrite (missingErrno_file f (rev installPath) q content);
        by rewrite ?rev_involutive.
  - intros Hnone Hroot. unfold readdir. rewrite Hroot.
    destruct (missingErrno_cases f (rev installPath))
      as [->|(_ & q & content & Hq & Hfile)]; [done|].
    rewrite rev_involutive in Hq. by destruct (Hnone q content Hq).
  - intros listed Hlisted e He.
    destruct (readdir f installPath) as [code|entries] eqn:Hdir.
    { destruct code; try done. injection Hlisted as <-.
      by apply elem_of_nil in He. }
    injection Hlisted as <-.
    apply list_elem_of_omap in He as (entry & Hentry & He).
    destruct entry as [name node].
    apply (readdir_entries f installPath entries name node Hdir) in Hentry.
    unfold Listing.installedSkillAt in He. cbn [fst snd] in He.
    destruct node; [done|].
    destruct (access f _); [|done].
    unfold readFile in He.
    destruct (f !! join (join installPath name) "SKILL.md")
      as [[content|]|] eqn:Hmanifest; [|done..].
    destruct (installMetadataAt _ _ _ _) as [installMetadata|]; [|done].
    injection He as <-. cbn [is_localPath is_name is_description].
    by exists name, content.
Qed.

(** A directory entry of the install root that holds a manifest file is
    listed, unless its sidecar parses to [null]. *)
Lemma listInstalled_finds (f : FS) (name content : string) :
  f !! installPath = Some DirNode ->
  f !! (installPath ++ [name])%list = Some DirNode ->
  f !! join (join installPath name) "SKILL.md" = Some (FileNode content) ->
  is_Some (installMetadataAt Json parseJson f
             (join (join installPath name) ".skill-manager.json")) ->
  exists listed e,
    listInstalled f = inr listed /\ e ∈ listed /\
    is_localPath e = join installPath name /\
    is_name e = md_name (parseSkillMd content).
Proof.
  intros Hroot Hdir Hmanifest [installMetadata Hsidecar].
  unfold Listing.listInstalled.
  destruct (readdir f installPath) as [e|entries] eqn:Hread;
    [unfold readdir in Hread; by rewrite Hroot in Hread|].
  eexists _, _. split; [done|]. split.
  - apply list_elem_of_omap. exists (name, DirNode).
    split; [by apply (readdir_entries f installPath entries name DirNode Hread)|].
    unfold Listing.installedSkillAt, access, readFile. cbn [fst snd].
    by rewrite Hmanifest, Hsidecar.
  - done.
Qed.

End ListingFacts.

(** ** An installed bundle is listed *)

Section InstallThenList.
Import Js Models Fs SkillParser SkillInstaller Batch Listing.

Variable Json : Type.
Variable truthyJson : Json -> bool.
Variable parseJson : string -> option (option (gmap string Json)).
Variable installPath : Path.
Variable downloadFile : string -> string -> Fetched string.
Variable fetchRepositoryTree : string -> Fetched RepositoryTree.
Variable metadataJson : Skill -> string.

#[local] Abbreviation getSkillLocalPath :=
  (SkillInstaller.getSkillLocalPath installPath).
#[local] Abbreviation install :=
  (SkillInstaller.install installPath downloadFile fetchRepositoryTree
     metadataJson).
#[local] Abbreviation listInstalled :=
  (Listing.listInstalled Json truthyJson parseJson installPath).

Lemma mkdirAncestors_creates (f f' : FS) (p : Path) :
  mkdirAncestors f (rev p) = inr f' -> f' !! p = Some DirNode.
Proof.
  intros H.
  assert (mkdir f p = inr f') as Hmk.
  { unfold mkdir. rewrite mkdirAncestors_unfold, rev_involutive in H.
    destruct (f !! p) as [[]|] eqn:Hp; [done|..];
      by rewrite mkdirAncestors_unfold, rev_involutive, Hp. }
  apply mkdir_creates in Hmk. unfold isDirectory in Hmk.
  by destruct (f' !! p) as [[]|].
Qed.

(** Creating a missing child directory leaves its parent a directory. *)
Lemma mkdir_child (f f' : FS) (p : Path) (name : string) :
  isDirectory f (p ++ [name]) = false ->
  mkdir f (p ++ [name]) = inr f' -> f' !! p = Some DirNode.
Proof.
  unfold isDirectory, mkdir. intros Hmissing Hmk.
  destruct (f !! (p ++ [name])%list) as [[]|] eqn:Hchild; [done..|].
  rewrite mkdirAncestors_unfold, rev_involutive, Hchild in Hmk.
  rewrite rev_app_distr in Hmk. cbn [rev app] in Hmk.
  destruct (mkdirAncestors f (rev p)) as [e|f''] eqn:Hparent; [done|].
  injection Hmk as <-. rewrite lookup_insert_ne.
  - by apply (mkdirAncestors_creates f).
  - intros H. apply (f_equal length) in H. rewrite length_app in H.
    simpl in H. lia.
Qed.

(** A successful install whose local directory is a child of the install
    root leaves the install root a directory. *)
Lemma install_success_root (fuel : nat) (s : Skill) (w w' : World)
    (r : InstallResult) :
  install fuel s w = (Ok r, w') -> success r = true ->
  getSkillLocalPath s = (installPath ++ [sanitizedName s])%list ->
  fs w' !! installPath = Some DirNode.
Proof.
  rewrite install_run. intros Hrun Hsuccess Hchild.
  destruct (SkillInstaller.materialize installPath downloadFile
              fetchRepositoryTree fuel s w) as [[[reached|]|e|] w2] eqn:Hphase;
    [|by injection Hrun as <- _..|done].
  pose proof (materialize_path _ _ _ _ _ _ _ _ Hphase) as ->.
  apply materialize_stages in Hphase as (wa & wc & _ & Hmissing & Hmk & Hloops).
  rewrite verify_run in Hrun. cbv zeta in Hrun.
  destruct (access (fs w2) _) eqn:Hmanifest; [|by injection Hrun as <- _].
  destruct (writeFile (fs w2) _ _) as [code|f] eqn:Hwrite;
    [by injection Hrun as <- _|].
  injection Hrun as <- <-. cbn [fs].
  assert (kindPreserved (fs wc) (fs w2)) as Hkept.
  { pose proof (downloads_evolves installPath downloadFile fetchRepositoryTree
                  kindPreserved (fun _ => True)
                  kindPreserved_refl kindPreserved_trans mkdir_kindPreserved
                  (fun f f' p c _ => writeFile_kindPreserved f f' p c)
                  s (fun _ _ => I) (fun _ _ _ _ _ _ _ _ => I) fuel wc) as Hev.
    by rewrite Hloops in Hev. }
  rewrite Hchild in Hmissing, Hmk.
  pose proof (mkdir_child _ _ _ _ Hmissing Hmk) as Hroot.
  destruct (Hkept _ _ Hroot) as (node & Hnode & Hkind).
  rewrite (proj1 Hkind eq_refl) in Hnode.
  destruct (writeFile_kindPreserved _ _ _ _ Hwrite _ _ Hnode)
    as (node' & Hnode' & Hkind').
  by rewrite (proj1 Hkind' eq_refl) in Hnode'.
Qed.

(** X24.  A bundle that was installed with success into a child of the
    install root is among the bundles [listInstalled] finds afterwards,
    under the name its manifest gives, provided the manifest is a file
    and the sidecar does not parse to [null]. *)
Theorem install_then_listed (fuel : nat) (s : Skill) (w w' : World)
    (r : InstallResult) :
  install fuel s w = (Ok r, w') -> success r = true ->
  getSkillLocalPath s = (installPath ++ [sanitizedName s])%list ->
  isDirectory (fs w') (join (getSkillLocalPath s) "SKILL.md") = false ->
  parseJson (metadataJson s) <> Some None ->
  exists listed e content,
    listInstalled (fs w') = inr listed /\ e ∈ listed /\
    is_localPath e = getSkillLocalPath s /\
    fs w' !! join (getSkillLocalPath s) "SKILL.md" = Some (FileNode content) /\
    is_name e = md_name (parseSkillMd content).
Proof.
  intros Hrun Hsuccess Hchild Hfile Hparse.
  pose proof (install_success_root fuel s w w' r Hrun Hsuccess Hchild) as Hroot.
  destruct (install_success_inv _ _ _ _ _ _ _ _ _ Hrun Hsuccess)
    as (wa & w2 & _ & _ & Hlocal & Hmanifest & Hsidecar & Hfs & _).
  assert (access (fs w') (join (getSkillLocalPath s) "SKILL.md") = true)
    as Haccess.
  { rewrite Hfs. unfold access in *. rewrite lookup_insert. by case_decide. }
  unfold access, isDirectory in Haccess, Hfile.
  destruct (fs w' !! join (getSkillLocalPath s) "SKILL.md")
    as [[content|]|] eqn:Hcontent; [|done..].
  assert (fs w' !! (installPath ++ [sanitizedName s])%list = Some DirNode)
    as Hdir.
  { rewrite <- Hchild, Hfs. rewrite lookup_insert_ne.
    - unfold isDirectory in Hlocal.
      by destruct (fs w2 !! getSkillLocalPath s) as [[]|].
    - intros Heq. rewrite <- Heq in Hlocal. unfold isDirectory in Hlocal.
      by destruct (fs w2 !! _) as [[]|]. }
  destruct (listInstalled_finds Json truthyJson parseJson installPath (fs w')
              (sanitizedName s) content Hroot Hdir) as (listed & e & H).
  - exact Hcontent.
  - unfold installMetadataAt, readFile.
    change (join installPath (sanitizedName s)) with (getSkillLocalPath s).
    rewrite Hfs at 1. rewrite lookup_insert_eq.
    destruct (parseJson (metadataJson s)) as [[m|]|]; by eauto.
  - exists listed, e, content. destruct H as (Hl & He & Hp & Hn).
    by repeat split.
Qed.

End InstallThenList.

Section ListingInstances.
Import Js Models Fs SkillParser SkillInstaller Listing Examples.

Lemma install_then_listed_witness :
  exists listed e content,
    listInstalled unit (fun _ => true) (fun _ => Some (Some ∅)) installRoot
      (fs (install installRoot serveAll serveTree noMetadata 3
             (demoSkill "A Skill") homeOnly).2) = inr listed /\
    e ∈ listed /\
    is_localPath e = ["home"; "u"; "skills"; "a-skill"] /\
    fs (install installRoot serveAll serveTree noMetadata 3
          (demoSkill "A Skill") homeOnly).2
      !! ["home"; "u"; "skills"; "a-skill"; "SKILL.md"]
    = Some (FileNode content) /\
    is_name e = md_name (parseSkillMd content).
Proof.
  apply (install_then_listed unit (fun _ => true) (fun _ => Some (Some ∅))
           installRoot serveAll serveTree noMetadata 3 (demoSkill "A Skill")
           homeOnly
           (install installRoot serveAll serveTree noMetadata 3
              (demoSkill "A Skill") homeOnly).2
           {| success := true; skill := demoSkill "A Skill";
              localPath := Some ["home"; "u"; "skills"; "a-skill"];
              error := None |});
    [vm_compute; reflexivity | reflexivity | reflexivity
    | vm_compute; reflexivity | discriminate].
Defined.

(** The install root missing below a regular file, and missing below a
    directory. *)
Example listInstalled_below_file :
  listInstalled unit (fun _ => true) (fun _ => Some (Some ∅)) installRoot
    (list_to_map [ ([], DirNode); (["home"], FileNode "text") ])
  = inl ENOTDIR /\
  listInstalled unit (fun _ => true) (fun _ => Some (Some ∅)) installRoot
    (fs homeOnly)
  = inr [].
Proof. split; vm_compute; reflexivity. Qed.

End ListingInstances.

(** ** Well-formed file systems *)

Section WellFormedFacts.
Import Js Models Fs SkillInstaller Batch.

Lemma proper_prefix_removelast (q p : Path) :
  q `prefix_of` p -> q <> p -> q `prefix_of` removelast p.
Proof.
  intros [k ->] Hne. destruct k as [|x k]; [by rewrite app_nil_r in Hne|].
  rewrite removelast_app by done. by eexists.
Qed.

Lemma wellFormed_insert_dir (f : FS) (p : Path) :
  wellFormed f ->
  (forall q, q `prefix_of` p -> q <> p -> f !! q = Some DirNode) ->
  wellFormed (<[ p := DirNode ]> f).
Proof.
  intros Hwf Hancestors y q node Hy Hq Hne.
  destruct (decide (q = p)) as [->|Hqp]; [by rewrite lookup_insert_eq|].
  rewrite lookup_insert_ne by done.
  destruct (decide (y = p)) as [->|Hyp]; [by apply Hancestors|].
  rewrite lookup_insert_ne in Hy by done. by eapply Hwf.
Qed.

Lemma wellFormed_insert_file (f : FS) (p : Path) (content : string) :
  wellFormed f -> f !! p <> Some DirNode ->
  f !! removelast p = Some DirNode ->
  wellFormed (<[ p := FileNode content ]> f).
Proof.
  intros Hwf Hnot Hparent y q node Hy Hq Hne.
  destruct (decide (y = p)) as [->|Hyp].
  - assert (q <> p) as Hqp by done. rewrite lookup_insert_ne by done.
    pose proof (proper_prefix_removelast q p Hq Hne) as Hbelow.
    destruct (decide (q = removelast p)) as [->|Hqr]; [done|].
    by eapply Hwf.
  - rewrite lookup_insert_ne in Hy by done.
    pose proof (Hwf y q node Hy Hq Hne) as Hdir.
    rewrite lookup_insert_ne; [done|]. intros <-. congruence.
Qed.

Lemma mkdirAncestors_wellFormed (f f' : FS) (reversed : list string) :
  wellFormed f -> mkdirAncestors f reversed = inr f' -> wellFormed f'.
Proof.
  intros Hwf. revert f'.
  induction reversed as [|x parent IH]; intros f' H;
    rewrite mkdirAncestors_unfold in H;
    destruct (f !! rev _) as [[]|] eqn:Hhere; try done;
    try (by injection H as <-).
  - injection H as <-. apply wellFormed_insert_dir; [done|].
    intros q [k Hk] Hne. cbn [rev] in *. symmetry in Hk.
    apply app_eq_nil in Hk as [-> _]. done.
  - destruct (mkdirAncestors f parent) as [e|f''] eqn:Hrec; [done|].
    injection H as <-. specialize (IH f'' eq_refl).
    apply wellFormed_insert_dir; [done|].
    intros q Hq Hne. cbn [rev] in *.
    apply proper_prefix_removelast in Hq; [|done].
    rewrite removelast_last in Hq.
    assert (f'' !! rev parent = Some DirNode) as Hparent.
    { apply (mkdirAncestors_creates f). by rewrite rev_involutive. }
    destruct (decide (q = rev parent)) as [->|Hqp]; [done|].
    by eapply IH.
Qed.

Lemma mkdir_wellFormed (f f' : FS) (p : Path) :
  mkdir f p = inr f' -> wellFormed f -> wellFormed f'.
Proof.
  unfold mkdir. intros H Hwf.
  destruct (f !! p) as [[]|]; [done|..]; by eapply mkdirAncestors_wellFormed.
Qed.

Lemma writeFile_wellFormed (f f' : FS) (p : Path) (content : string) :
  writeFile f p content = inr f' -> wellFormed f -> wellFormed f'.
Proof.
  unfold writeFile. intros H Hwf.
  destruct (f !! p) as [[]|] eqn:Hp; [|done|];
    destruct (f !! removelast p) as [[]|] eqn:Hparent; try done;
    injection H as <-; apply wellFormed_insert_file; done || congruence.
Qed.

Lemma rm_wellFormed (f : FS) (p : Path) : wellFormed f -> wellFormed (rm f p).
Proof.
  intros Hwf y q node Hy Hq Hne. unfold rm in *.
  apply map_lookup_filter_Some in Hy as [Hy Hkeep]. cbn [fst] in Hkeep.
  apply map_lookup_filter_Some. split; [by eapply Hwf|]. cbn [fst].
  intros Hp. apply Hkeep. by etrans.
Qed.

Variable installPath : Path.
Variable downloadFile : string -> string -> Fetched string.
Variable fetchRepositoryTree : string -> Fetched RepositoryTree.
Variable metadataJson : Skill -> string.

(** X25.  [install] and [uninstall] keep the file system well formed:
    when every entry lies in a directory before the call, the same holds
    after it, however the call ends. *)
Theorem install_keeps_wellFormed (fuel : nat) (s : Skill) (w : World) :
  wellFormed (fs w) ->
  wellFormed
    (fs (install installPath downloadFile fetchRepositoryTree metadataJson
           fuel s w).2) /\
  wellFormed (fs (uninstall installPath s w).2).
Proof.
  intros Hwf. split.
  - rewrite install_run.
    pose proof (materialize_evolves installPath downloadFile
                  fetchRepositoryTree
                  (fun f f' => wellFormed f -> wellFormed f') (fun _ => True)
                  (fun f H => H) (fun f g h Hfg Hgh H => Hgh (Hfg H))
                  mkdir_wellFormed
                  (fun f f' p c _ => writeFile_wellFormed f f' p c)
                  s (fun _ _ => I) (fun _ _ _ _ _ _ _ _ => I) fuel w Hwf)
      as Hphase.
    destruct (SkillInstaller.materialize installPath downloadFile
                fetchRepositoryTree fuel s w) as [[[reached|]|e|] w2];
      cbn [snd] in *; [|done..].
    rewrite verify_run. cbv zeta.
    destruct (access (fs w2) _); [|by apply rm_wellFormed].
    destruct (writeFile (fs w2) _ _) as [code|f] eqn:Hwrite; [done|].
    cbn [snd fs]. by eapply writeFile_wellFormed.
  - unfold uninstall, SkillInstaller.isInstalled, fsIsDirectory, fsRm, bind,
      emit, getFs, setFs, ret, throw. cbn [fs log].
    destruct (isDirectory (fs w) _); cbn [snd fs]; [|done].
    by apply rm_wellFormed.
Qed.

End WellFormedFacts.

Section WellFormedInstances.
Import Js Models Fs SkillInstaller Examples.

Lemma homeOnly_wellFormed : wellFormed (fs homeOnly).
Proof.
  intros p q node Hp [k Hk] Hne.
  apply elem_of_list_to_map_2, list_elem_of_In in Hp. simpl in Hp.
  destruct Hp as [[= <- <-]|[[= <- <-]|[[= <- <-]|[]]]];
    destruct q as [|a [|b [|c q]]]; simpl in Hk; simplify_eq;
    done || reflexivity.
Qed.

Lemma install_keeps_wellFormed_witness :
  wellFormed
    (fs (install installRoot serveAll serveTree noMetadata 3
           (demoSkill "A Skill") homeOnly).2) /\
  wellFormed (fs (uninstall installRoot (demoSkill "A Skill") homeOnly).2).
Proof.
  apply (install_keeps_wellFormed installRoot serveAll serveTree noMetadata 3
           (demoSkill "A Skill") homeOnly).
  exact homeOnly_wellFormed.
Defined.

End WellFormedInstances.

(** ** The files an install writes *)

Section InstallContents.
Import Js Models Fs SkillInstaller Batch.

Variable installPath : Path.
Variable downloadFile : string -> string -> Fetched string.
Variable fetchRepositoryTree : string -> Fetched RepositoryTree.
Variable metadataJson : Skill -> string.

#[local] Abbreviation getSkillLocalPath :=
  (SkillInstaller.getSkillLocalPath installPath).
#[local] Abbreviation install :=
  (SkillInstaller.install installPath downloadFile fetchRepositoryTree
     metadataJson).

Lemma mkdirAncestors_new (f f' : FS) (reversed : list string) :
  mkdirAncestors f reversed = inr f' ->
  forall q node, f' !! q = Some node ->
    f !! q = Some node \/ q `prefix_of` rev reversed.
Proof.
  revert f'. induction reversed as [|x parent IH]; intros f' H q node Hq;
    rewrite mkdirAncestors_unfold in H;
    destruct (f !! rev _) as [[]|] eqn:Hhere; try done;
    try (injection H as <-; by left).
  - injection H as <-. destruct (decide (q = [])) as [->|Hne]; [by right|].
    rewrite lookup_insert_ne in Hq by done. by left.
  - destruct (mkdirAncestors f parent) as [e|f''] eqn:Hrec; [done|].
    injection H as <-.
    destruct (decide (q = rev (x :: parent))) as [->|Hne]; [by right|].
    rewrite lookup_insert_ne in Hq by done.
    destruct (IH f'' eq_refl q node Hq) as [?|Hprefix]; [by left|].
    right. cbn [rev]. by apply prefix_app_r.
Qed.

(** [mkdir] adds nothing but the directory and its ancestors. *)
Lemma mkdir_new (f f' : FS) (p q : Path) (node : Node) :
  mkdir f p = inr f' -> f' !! q = Some node ->
  f !! q = Some node \/ q `prefix_of` p.
Proof.
  unfold mkdir. intros H Hq.
  assert (mkdirAncestors f (rev p) = inr f') as Hrun
    by (by destruct (f !! p) as [[]|]).
  destruct (mkdirAncestors_new f f' (rev p) Hrun q node Hq) as [?|Hprefix];
    [by left|].
  right. by rewrite rev_involutive in Hprefix.
Qed.

Lemma child_not_prefix (p : Path) (n : string) : ~ (p ++ [n])%list `prefix_of` p.
Proof.
  intros [k Hk]. apply (f_equal length) in Hk.
  rewrite !length_app in Hk. simpl in Hk. lia.
Qed.

Lemma child_injective (p : Path) (a b : string) :
  (p ++ [a])%list `prefix_of` (p ++ [b])%list -> a = b.
Proof.
  intros [k Hk]. rewrite <- app_assoc in Hk. apply app_inv_head in Hk.
  by injection Hk as ->.
Qed.

Lemma written_cons (repo : string) (localPath : Path) (f : FS)
    (x : SkillFile) (rest : list SkillFile) :
  written downloadFile repo localPath f (x :: rest)
  = written downloadFile repo localPath
      match downloadFile repo (sf_path x) with
      | Got content => <[ (localPath ++ [sf_name x])%list := FileNode content ]> f
      | Failed _ => f
      end rest.
Proof. reflexivity. Qed.

Lemma written_other (repo : string) (localPath q : Path) (f : FS)
    (entries : list SkillFile) :
  (forall file, file ∈ entries -> q <> (localPath ++ [sf_name file])%list) ->
  written downloadFile repo localPath f entries !! q = f !! q.
Proof.
  revert f. induction entries as [|x rest IH]; intros f Hq; [done|].
  rewrite written_cons, IH.
  - destruct (downloadFile repo (sf_path x)); [|done].
    rewrite lookup_insert_ne; [done|]. intros Heq. eapply Hq; [by left | done].
  - intros file Hfile. apply Hq. by right.
Qed.

Lemma NoDup_names (entries : list SkillFile) (x y : SkillFile) :
  NoDup (map sf_name entries) -> x ∈ entries -> y ∈ entries ->
  sf_name x = sf_name y -> x = y.
Proof.
  induction entries as [|z rest IH]; intros Hnodup Hx Hy Heq;
    [by apply elem_of_nil in Hx|].
  cbn [map] in Hnodup. apply NoDup_cons in Hnodup as [Hz Hrest].
  apply elem_of_cons in Hx as [->|Hx]; apply elem_of_cons in Hy as [->|Hy].
  - done.
  - exfalso. apply Hz. rewrite Heq. apply list_elem_of_fmap. by exists y.
  - exfalso. apply Hz. rewrite <- Heq. apply list_elem_of_fmap. by exists x.
  - by apply IH.
Qed.

Lemma written_file (repo : string) (localPath : Path) (f : FS)
    (entries : list SkillFile) (file : SkillFile) (content : string) :
  NoDup (map sf_name entries) -> file ∈ entries ->
  downloadFile repo (sf_path file) = Got content ->
  written downloadFile repo localPath f entries
    !! (localPath ++ [sf_name file])%list = Some (FileNode content).
Proof.
  revert f. induction entries as [|x rest IH]; intros f Hnodup Hfile Hgot;
    [by apply elem_of_nil in Hfile|].
  pose proof Hnodup as Hall.
  cbn [map] in Hnodup. apply NoDup_cons in Hnodup as [Hx Hrest].
  rewrite written_cons.
  apply elem_of_cons in Hfile as [->|Hfile]; [|by apply IH].
  rewrite Hgot, written_other.
  - by rewrite lookup_insert_eq.
  - intros y Hy Heq. apply app_inv_head in Heq. injection Heq as Heq.
    apply Hx. rewrite Heq. apply list_elem_of_fmap. by exists y.
Qed.

(** One turn of the first loop, in a local directory that is there and
    at a target that is no directory: the write cannot fail. *)
Lemma downloadSkillFile_run (s : Skill) (localPath : Path) (x : SkillFile)
    (w0 : World) :
  join localPath (sf_name x) = (localPath ++ [sf_name x])%list ->
  fs w0 !! localPath = Some DirNode ->
  fs w0 !! (localPath ++ [sf_name x])%list <> Some DirNode ->
  exists w1,
    downloadSkillFile downloadFile s localPath x w0 = (Ok tt, w1) /\
    fs w1 = match downloadFile (repository s) (sf_path x) with
            | Got content =>
                <[ (localPath ++ [sf_name x])%list := FileNode content ]> (fs w0)
            | Failed _ => fs w0
            end.
Proof.
  intros Hjoin Hdir Htarget.
  unfold downloadSkillFile, tryCatch, netDownloadFile, fsWriteFile, bind, emit,
    getFs, setFs, ret, throw. cbn [fs log]. rewrite Hjoin.
  destruct (downloadFile (repository s) (sf_path x)) as [content|m];
    cbn [fs log]; [|by eexists].
  unfold writeFile. rewrite removelast_last, Hdir.
  destruct (fs w0 !! (localPath ++ [sf_name x])%list) as [[]|]; [|done|];
    by eexists.
Qed.

Lemma files_loop (s : Skill) (localPath : Path) (entries : list SkillFile)
    (w0 : World) :
  (forall x, x ∈ entries ->
     join localPath (sf_name x) = (localPath ++ [sf_name x])%list) ->
  fs w0 !! localPath = Some DirNode ->
  (forall x, x ∈ entries ->
     fs w0 !! (localPath ++ [sf_name x])%list <> Some DirNode) ->
  exists w1,
    forEach entries (downloadSkillFile downloadFile s localPath) w0
      = (Ok tt, w1) /\
    fs w1 = written downloadFile (repository s) localPath (fs w0) entries.
Proof.
  revert w0. induction entries as [|x rest IH]; intros w0 Hjoin Hdir Htargets;
    [by exists w0|].
  destruct (downloadSkillFile_run s localPath x w0) as (w1 & Hrun & Hfs);
    [apply Hjoin; by left | done | apply Htargets; by left|].
  destruct (IH w1) as (w2 & Hrest & Hfs2).
  - intros y Hy. apply Hjoin. by right.
  - rewrite Hfs. destruct (downloadFile _ _); [|done].
    rewrite lookup_insert_ne; [done|].
    intros Heq. apply (f_equal length) in Heq. rewrite length_app in Heq.
    simpl in Heq. lia.
  - intros y Hy. rewrite Hfs. destruct (downloadFile _ _);
      [|apply Htargets; by right].
    destruct (decide ((localPath ++ [sf_name x])%list
                      = (localPath ++ [sf_name y])%list)) as [<-|Hne].
    + by rewrite lookup_insert_eq.
    + rewrite lookup_insert_ne by done. apply Htargets. by right.
  - exists w2. cbn [forEach]. unfold bind at 1. rewrite Hrun.
    split; [done|]. by rewrite written_cons, <- Hfs.
Qed.

Lemma NoDup_names_filter (P : SkillFile -> Prop)
    `{!forall x, Decision (P x)} (entries : list SkillFile) :
  NoDup (map sf_name entries) -> NoDup (map sf_name (filter P entries)).
Proof.
  induction entries as [|x rest IH]; [done|]. cbn [map].
  intros [Hx Hrest]%NoDup_cons. rewrite filter_cons.
  destruct (decide (P x)); [|by apply IH].
  cbn [map]. apply NoDup_cons. split; [|by apply IH].
  intros (y & Hy & Hin)%list_elem_of_fmap.
  apply list_elem_of_filter in Hin as [_ Hin].
  apply Hx. rewrite Hy. apply list_elem_of_fmap. by exists y.
Qed.

Lemma ensureInstallDirectory_wellFormed (w wa : World) :
  ensureInstallDirectory installPath w = (Ok tt, wa) ->
  wellFormed (fs w) -> wellFormed (fs wa).
Proof.
  unfold ensureInstallDirectory, tryCatch, fsMkdir, bind, emit, getFs, setFs,
    throw, ret. cbn [fs].
  destruct (mkdir (fs w) installPath) as [e|f] eqn:Hrun.
  - destruct e; try done. by intros [= <-].
  - intros [= <-]. cbn [fs]. by apply (mkdir_wellFormed _ _ _ Hrun).
Qed.

(** X26.  After a successful install into a well-formed file system,
    every file of the bundle whose download succeeded is in the local
    directory under its name with the downloaded content, when the names
    of the bundle are distinct plain segments, no path of the tree has a
    segment of two dots, and the file is not called like the sidecar. *)
Theorem install_writes_files (fuel : nat) (s : Skill) (w w' : World)
    (r : InstallResult) (file : SkillFile) (content : string) :
  install fuel s w = (Ok r, w') -> success r = true ->
  wellFormed (fs w) ->
  (forall x, x ∈ files s -> plainName (sf_name x)) ->
  NoDup (map sf_name (files s)) ->
  (forall t n, fetchRepositoryTree (repository s) = Got t ->
               n ∈ tree_nodes t -> ".." ∉ Js.split "/"%char (node_path n)) ->
  file ∈ files s -> sf_type file = File ->
  sf_name file <> ".skill-manager.json" ->
  downloadFile (repository s) (sf_path file) = Got content ->
  fs w' !! (getSkillLocalPath s ++ [sf_name file])%list
  = Some (FileNode content).
Proof.
  intros Hrun Hsuccess Hwf Hplain Hnodup Htree Hfile Htype Hsidecar Hgot.
  set (root := getSkillLocalPath s) in *.
  set (target := (root ++ [sf_name file])%list).
  assert (forall x, x ∈ files s ->
            join root (sf_name x) = (root ++ [sf_name x])%list) as Hjoin.
  { intros x Hx. destruct (Hplain x Hx) as (? & ? & ? & ?).
    by apply join_plain. }
  rewrite install_run in Hrun.
  destruct (SkillInstaller.materialize installPath downloadFile
              fetchRepositoryTree fuel s w) as [[[reached|]|e|] w2] eqn:Hphase;
    [|by injection Hrun as <- _..|done].
  pose proof (materialize_path _ _ _ _ _ _ _ _ Hphase) as ->. fold root in Hrun.
  apply materialize_stages in Hphase
    as (wa & wc & Hensure & Hmissing & Hmk & Hloops).
  fold root in Hmissing, Hmk, Hloops.
  rewrite verify_run in Hrun. cbv zeta in Hrun.
  destruct (access (fs w2) _) eqn:Hmanifest; [|by injection Hrun as <- _].
  destruct (writeFile (fs w2) _ _) as [code|f] eqn:Hwrite;
    [by injection Hrun as <- _|].
  injection Hrun as _ <-. cbn [fs].
  apply writeFile_inv in Hwrite as [-> _].
  (* the local directory is new and empty *)
  pose proof (ensureInstallDirectory_wellFormed w wa Hensure Hwf) as Hwfa.
  assert (fs wc !! root = Some DirNode) as Hroot.
  { apply mkdir_creates in Hmk. unfold isDirectory in Hmk.
    by destruct (fs wc !! root) as [[]|]. }
  assert (forall n, fs wc !! (root ++ [n])%list = None) as Hempty.
  { intros n. destruct (fs wc !! (root ++ [n])%list) as [node|] eqn:Hn; [|done].
    exfalso. destruct (mkdir_new _ _ _ _ _ Hmk Hn) as [Hold|Hprefix].
    - assert (fs wa !! root = Some DirNode) as Hdir.
      { apply (Hwfa _ _ _ Hold); [by apply prefix_app_r|].
        intros Heq. apply (f_equal length) in Heq.
        rewrite length_app in Heq. simpl in Heq. lia. }
      unfold isDirectory in Hmissing. by rewrite Hdir in Hmissing.
    - by apply child_not_prefix in Hprefix. }
  (* the two loops *)
  apply bind_Ok in Hloops as ([] & w1 & Hfiles & Hloops).
  apply bind_Ok in Hloops as ([] & w2' & Hdirs & Hret).
  injection Hret as <-.
  destruct (files_loop s root (filter (fun f => isFile f = true) (files s)) wc)
    as (w1' & Hfiles' & Hwritten).
  { intros x [_ Hx]%list_elem_of_filter. by apply Hjoin. }
  { done. }
  { intros x _. by rewrite Hempty. }
  rewrite Hfiles in Hfiles'. injection Hfiles' as <-.
  assert (fs w1 !! target = Some (FileNode content)) as Hthere.
  { rewrite Hwritten. apply written_file; [by apply NoDup_names_filter| |done].
    apply list_elem_of_filter. split; [|done]. unfold isFile. by rewrite Htype. }
  (* the subdirectories are written next to the file *)
  set (keeps := fun g g' : FS =>
                  g !! target = Some (FileNode content) ->
                  g' !! target = Some (FileNode content)).
  set (inside := fun p : Path =>
                   exists d, d ∈ files s /\ sf_type d = Directory /\
                             (root ++ [sf_name d])%list `prefix_of` p).
  assert (forall p, inside p -> p <> target) as Hapart.
  { intros p (d & Hd & Hdir & Hprefix) ->.
    apply child_injective in Hprefix.
    assert (d = file) as -> by (by apply (NoDup_names (files s))).
    congruence. }
  assert (keeps (fs w1) (fs w2')) as Hkept.
  { pose proof (evolves_forEach keeps (fun g H => H)
                  (fun g1 g2 g3 H12 H23 H => H23 (H12 H))
                  (filter (fun f => isSubdirectory f = true) (files s))
                  (fun dir =>
                     downloadDirectory downloadFile fetchRepositoryTree fuel
                       (repository s) (sf_path dir)
                       (join root (sf_name dir)))) as Hloop.
    specialize (fun H => Hloop H w1). rewrite Hdirs in Hloop. cbn [snd] in Hloop.
    apply Hloop. intros dir [Hdir Hin]%list_elem_of_filter.
    apply (evolves_downloadDirectory downloadFile fetchRepositoryTree keeps
             inside (fun g H => H) (fun g1 g2 g3 H12 H23 H => H23 (H12 H))).
    - intros g g' p Hrun Hg. by eapply mkdir_keeps.
    - intros g g' p c Hp Hrun Hg. apply writeFile_inv in Hrun as [-> _].
      rewrite lookup_insert_ne; [done|]. by apply Hapart.
    - intros t n remotePath localPath Ht Hn (d & Hd & Htd & Hprefix) Hstart.
      exists d. split; [done|]. split; [done|].
      apply joinSegments_below; [|done].
      intros Hdots. apply (Htree t n Ht Hn). by eapply relative_segments.
    - exists dir. split; [done|]. split.
      + unfold isSubdirectory in Hdir. by destruct (sf_type dir).
      + by rewrite Hjoin. }
  rewrite lookup_insert_ne; [by apply Hkept|].
  rewrite join_plain by done.
  intros Heq. apply app_inv_head in Heq. by injection Heq as Heq.
Qed.

End InstallContents.

Section InstallContentsInstances.
Import Js Models Fs SkillInstaller Batch Examples.

Lemma install_writes_files_witness :
  fs (install installRoot serveAll serveTree noMetadata 3
        (demoSkill "A Skill") homeOnly).2
    !! ["home"; "u"; "skills"; "a-skill"; "SKILL.md"]
  = Some (FileNode "content of skills/a/SKILL.md").
Proof.
  apply (install_writes_files installRoot serveAll serveTree noMetadata 3
           (demoSkill "A Skill") homeOnly
           (install installRoot serveAll serveTree noMetadata 3
              (demoSkill "A Skill") homeOnly).2
           {| success := true; skill := demoSkill "A Skill";
              localPath := Some ["home"; "u"; "skills"; "a-skill"];
              error := None |}
           {| sf_name := "SKILL.md"; sf_path := "skills/a/SKILL.md";
              sf_type := File; sf_sha := Some "0"; sf_downloadUrl := None |}).
  - vm_compute. reflexivity.
  - reflexivity.
  - exact homeOnly_wellFormed.
  - intros x Hx. apply list_elem_of_In in Hx. vm_compute in Hx.
    destruct Hx as [<-|[<-|[<-|[]]]]; repeat split; discriminate.
  - change (NoDup ["SKILL.md"; "run.sh"; "lib"]).
    repeat (apply NoDup_cons; split;
            [intros H; apply list_elem_of_In in H; simpl in H;
             intuition discriminate|]).
    apply NoDup_nil_2.
  - intros t n [= <-] Hn Hup.
    apply list_elem_of_In in Hn. apply list_elem_of_In in Hup.
    vm_compute in Hn.
    repeat (destruct Hn as [<-|Hn];
            [vm_compute in Hup; intuition discriminate|]).
    destruct Hn.
  - apply list_elem_of_In. vm_compute. auto.
  - reflexivity.
  - discriminate.
  - reflexivity.
Defined.

End InstallContentsInstances.
